(** * CommuGraph: the temporal graph builder and its step filter

    A shallow embedding of [backend/app/services/graph_builder.py] and of the
    data model of [backend/app/models/types.py].

    Python objects that the code mutates or shares are kept in an explicit
    store: the attribute dictionary of every edge and the interaction list
    it refers to live at locations of a heap, so that the shallow copy made
    by [nx.DiGraph.copy] (fresh attribute dictionaries, shared attribute
    values) is modelled as such.  Integers are [Z]; a [datetime] is naive or
    timezone-aware, and values of the two kinds do not compare; a string is
    a [string], with bytes where Python has code points.  The centralities
    are binary64 floats, computed with the operations networkx uses; the
    density is kept as the rational that Python's quotient rounds.

    The later parts embed the session manager
    ([backend/app/services/session_manager.py]), the methods of the AutoGen
    parser that work on one decoded entry
    ([backend/app/parsers/autogen_parser.py]), the parser service
    ([backend/app/services/parser.py]) and the upload and graph endpoints
    ([backend/app/api/endpoints]).  What the program reads from outside, the
    clock, a new uuid and the content of a file, is an argument of the
    function that reads it. *)

From Stdlib Require Import ZArith QArith Lia.
From Stdlib Require PrimFloat Uint63.
From stdpp Require Import base list strings sorting.

Local Open Scope string_scope.
Local Open Scope list_scope.

(** ** Data model ([models/types.py]) *)

Module MessageType.
Inductive t := THOUGHT | ACTION | OBSERVATION | DELEGATION | RESPONSE | SYSTEM.

(** The string value of the enumeration member. *)
Definition value (x : t) : string :=
  match x with
  | THOUGHT => "thought"
  | ACTION => "action"
  | OBSERVATION => "observation"
  | DELEGATION => "delegation"
  | RESPONSE => "response"
  | SYSTEM => "system"
  end.
End MessageType.

Module IntentLabel.
Inductive t :=
| DELEGATION
| INFORMATION_REQUEST
| INFORMATION_RESPONSE
| FEEDBACK
| COORDINATION
| UNKNOWN.
End IntentLabel.

Module datetime.
(** A [datetime] is naive (a wall-clock reading) or aware (an instant of the
    time line); both kinds are accepted for a [datetime] field. *)
Inductive t :=
| Naive (wall : Z)
| Aware (instant : Z).

Definition aware (x : t) : bool :=
  match x with
  | Aware _ => true
  | Naive _ => false
  end.

(** [a < b]: two values of one kind compare by their numbers; for a naive
    and an aware value Python raises [TypeError], here [None]. *)
Definition lt (a b : t) : option bool :=
  match a, b with
  | Naive x, Naive y => Some (bool_decide (x < y)%Z)
  | Aware x, Aware y => Some (bool_decide (x < y)%Z)
  | _, _ => None
  end.

(** [max(a, b)]: [b] when it is greater than [a], and [a] otherwise. *)
Definition max (a b : t) : option t :=
  (λ c : bool, if c then b else a) <$> lt a b.
End datetime.

Module Message.
(** [metadata] of a message is never read by the builder and is left out. *)
Record t := {
  step_index : Z;
  timestamp : datetime.t;
  sender : string;
  receiver : option string;
  message_type : MessageType.t;
  content : string
}.
End Message.

Module Interaction.
(** The two keys the builder stores in the metadata of an interaction. *)
Record meta := {
  message_type : string;
  content_preview : string
}.

Record t := {
  step_index : Z;
  timestamp : datetime.t;
  intent : IntentLabel.t;
  message_id : option Z;
  metadata : meta
}.
End Interaction.

Module EdgeData.
Record t := {
  source : string;
  target : string;
  interactions : list Interaction.t;
  weight : Z
}.
End EdgeData.

Module NodeData.
Record t := {
  id : string;
  label : string;
  message_count : Z;
  messages_sent : Z;
  messages_received : Z;
  first_appearance : option datetime.t;
  last_activity : option datetime.t;
  metadata : list (string * string)
}.
End NodeData.

Module GraphSnapshot.
(** The three keys of the metadata block of a snapshot. *)
Record meta := {
  node_count : Z;
  edge_count : Z;
  message_count : Z
}.

Record t := {
  nodes : list NodeData.t;
  edges : list EdgeData.t;
  current_step : option Z;
  total_steps : Z;
  metadata : meta
}.
End GraphSnapshot.

(** ** The store of mutable objects *)

Definition loc := nat.

Module EdgeAttr.
(** The attribute dictionary of an edge, with the four keys the builder
    sets; [interactions] is a reference to a list object. *)
Record t := {
  interactions : loc;
  weight : Z;
  source : string;
  target : string
}.

Definition empty : t :=
  {| interactions := 0; weight := 0; source := ""; target := "" |}.

Definition set_interactions (l : loc) (a : t) : t :=
  {| interactions := l; weight := weight a; source := source a; target := target a |}.

Definition set_weight (w : Z) (a : t) : t :=
  {| interactions := interactions a; weight := w; source := source a; target := target a |}.
End EdgeAttr.

Module Heap.
(** Locations are positions in the two tables.  Reading a location that
    holds no object gives the empty list or the empty dictionary; the graphs
    of the program only hold allocated locations. *)
Record t := {
  lists : list (list Interaction.t);
  dicts : list EdgeAttr.t
}.

Definition empty : t := {| lists := []; dicts := [] |}.

Definition list_at (h : t) (l : loc) : list Interaction.t :=
  default [] (lists h !! l).

Definition dict_at (h : t) (d : loc) : EdgeAttr.t :=
  default EdgeAttr.empty (dicts h !! d).

(** A new object is placed at the first unused location. *)
Definition alloc_list (x : list Interaction.t) (h : t) : loc * t :=
  (length (lists h), {| lists := lists h ++ [x]; dicts := dicts h |}).

Definition alloc_dict (a : EdgeAttr.t) (h : t) : loc * t :=
  (length (dicts h), {| lists := lists h; dicts := dicts h ++ [a] |}).

Definition set_list (l : loc) (x : list Interaction.t) (h : t) : t :=
  {| lists := <[l := x]> (lists h); dicts := dicts h |}.

Definition set_dict (d : loc) (a : EdgeAttr.t) (h : t) : t :=
  {| lists := lists h; dicts := <[d := a]> (dicts h) |}.
End Heap.

(** ** Node attribute dictionaries *)

Module NodeMeta.
(** The dictionary literal of [_add_or_update_node]. *)
Record t := {
  id : string;
  label : string;
  message_count : Z;
  first_appearance : datetime.t;
  last_activity : datetime.t;
  metadata : list (string * string)
}.
End NodeMeta.

(** ** Insertion-ordered dictionaries with string keys

    A Python [dict] whose order of insertion matters is the list of its
    items; keys are unique. *)

(** [d.get(k)] *)
Fixpoint dict_get {A} (k : string) (d : list (string * A)) : option A :=
  match d with
  | [] => None
  | (k', x) :: d' => if bool_decide (k' = k) then Some x else dict_get k d'
  end.

(** ** The part of [networkx.DiGraph] the builder uses

    The library is not part of the repository; the operations are written
    after its current releases.  A graph is the insertion-ordered table of
    its nodes; a node carries its attribute dictionary ([None] is the empty
    dictionary made by [add_node], [Some] the dictionary after [update]) and
    its successor table, which maps a target to the location of the edge's
    attribute dictionary.  The predecessor table of networkx mirrors the
    successor table and is not stored: in-degrees are computed from the
    successors. *)

Module nx.
Record NodeEntry := {
  attrs : option NodeMeta.t;
  succ : list (string * loc)
}.

Definition DiGraph := list (string * NodeEntry).

Definition empty : DiGraph := [].

Definition nodes (g : DiGraph) : list string := g.*1.

Definition has_node (n : string) (g : DiGraph) : bool :=
  bool_decide (n ∈ nodes g).

Definition add_node (n : string) (g : DiGraph) : DiGraph :=
  if has_node n g then g else g ++ [(n, {| attrs := None; succ := [] |})].

Definition alter_node (f : NodeEntry → NodeEntry) (n : string) (g : DiGraph) : DiGraph :=
  (λ p, if bool_decide (p.1 = n) then (p.1, f p.2) else p) <$> g.

(** [G.nodes[n].update(md)] *)
Definition update_node (n : string) (md : NodeMeta.t) (g : DiGraph) : DiGraph :=
  alter_node (λ e, {| attrs := Some md; succ := succ e |}) n g.

(** [G[u][v]], the location of the attribute dictionary of the edge;
    [G.has_edge(u, v)] holds when there is one. *)
Definition get_edge (u v : string) (g : DiGraph) : option loc :=
  e ← dict_get u g; dict_get v (succ e).

(** [G.add_edge(u, v, **a)]: missing end points are added; the attribute
    dictionary of an existing edge is updated, a new edge gets a new one. *)
Definition add_edge (u v : string) (a : EdgeAttr.t) (gh : DiGraph * Heap.t)
  : DiGraph * Heap.t :=
  let g := add_node v (add_node u gh.1) in
  match get_edge u v g with
  | Some d => (g, Heap.set_dict d a gh.2)
  | None =>
      let '(d, h) := Heap.alloc_dict a gh.2 in
      (alter_node (λ e, {| attrs := attrs e; succ := succ e ++ [(v, d)] |}) u g, h)
  end.

(** [G.edges(data=True)]: by source in node order, then by target in the
    order of the successor table; the datum is the live dictionary. *)
Definition out_edges (p : string * NodeEntry) : list (string * string * loc) :=
  (λ q, (p.1, q.1, q.2)) <$> succ p.2.

Definition edges (g : DiGraph) : list (string * string * loc) :=
  g ≫= out_edges.

Definition remove_edge (u v : string) (g : DiGraph) : DiGraph :=
  alter_node (λ e, {| attrs := attrs e; succ := filter (λ q, q.1 ≠ v) (succ e) |}) u g.

Definition number_of_nodes (g : DiGraph) : Z := Z.of_nat (length g).
Definition number_of_edges (g : DiGraph) : Z := Z.of_nat (length (edges g)).

Definition out_degree (n : string) (g : DiGraph) : Z :=
  Z.of_nat (length (filter (λ e, e.1.1 = n) (edges g))).
Definition in_degree (n : string) (g : DiGraph) : Z :=
  Z.of_nat (length (filter (λ e, e.1.2 = n) (edges g))).
Definition degree (n : string) (g : DiGraph) : Z :=
  (in_degree n g + out_degree n g)%Z.

(** [nx.isolates(G)] *)
Definition isolates (g : DiGraph) : list string :=
  filter (λ n, degree n g = 0%Z) (nodes g).

Definition remove_node (n : string) (g : DiGraph) : DiGraph :=
  (λ p, (p.1, {| attrs := attrs p.2; succ := filter (λ q, q.1 ≠ n) (succ p.2) |}))
    <$> filter (λ p, p.1 ≠ n) g.

Definition remove_nodes_from (ns : list string) (g : DiGraph) : DiGraph :=
  foldl (λ g n, remove_node n g) g ns.

(** [G.copy()]: the structure is rebuilt, every edge gets a fresh attribute
    dictionary with the same items, so the values (the interaction lists)
    are shared with the original. *)
Fixpoint copy_succ (s : list (string * loc)) (h : Heap.t)
  : list (string * loc) * Heap.t :=
  match s with
  | [] => ([], h)
  | (v, d) :: s' =>
      let '(d', h1) := Heap.alloc_dict (Heap.dict_at h d) h in
      let '(s'', h2) := copy_succ s' h1 in
      ((v, d') :: s'', h2)
  end.

Fixpoint copy (g : DiGraph) (h : Heap.t) : DiGraph * Heap.t :=
  match g with
  | [] => ([], h)
  | (n, e) :: g' =>
      let '(s, h1) := copy_succ (succ e) h in
      let '(g'', h2) := copy g' h1 in
      ((n, {| attrs := attrs e; succ := s |}) :: g'', h2)
  end.

(** [nx.density(G)] for a directed graph, over the rationals. *)
Definition density (g : DiGraph) : Q :=
  let n := number_of_nodes g in
  let m := number_of_edges g in
  if bool_decide (m = 0%Z ∨ (n ≤ 1)%Z) then 0%Q
  else (inject_Z m / inject_Z (n * (n - 1)))%Q.

(** A number of Python: an [int] or a [float], which is a binary64 value. *)
Inductive number :=
| Int (z : Z)
| Float (x : PrimFloat.float).

(** [float(z)] for an [int] from 0 to [2 ^ 63 - 1], as the sizes and the
    degrees of a graph in memory are: the nearest binary64 value. *)
Definition float_of_int (z : Z) : PrimFloat.float :=
  PrimFloat.of_uint63 (Uint63.of_Z z).

(** [d * s] for [s = 1.0 / (len(G) - 1.0)], the degree [d] and [n] nodes:
    the [int]s are converted and every operation rounds to the nearest
    binary64 value. *)
Definition scaled (d n : Z) : PrimFloat.float :=
  PrimFloat.mul (float_of_int d)
    (PrimFloat.div PrimFloat.one (PrimFloat.sub (float_of_int n) PrimFloat.one)).

(** [nx.degree_centrality] and its in- and out- variants: every node gets
    the [int] 1 when the graph has at most one node, and the [float]
    [d * s] for its degree [d] otherwise. *)
Definition centrality_of (deg : string → DiGraph → Z) (g : DiGraph)
  : list (string * number) :=
  if bool_decide (number_of_nodes g ≤ 1)%Z then (λ n, (n, Int 1)) <$> nodes g
  else (λ n, (n, Float (scaled (deg n g) (number_of_nodes g)))) <$> nodes g.

Definition degree_centrality := centrality_of degree.
Definition in_degree_centrality := centrality_of in_degree.
Definition out_degree_centrality := centrality_of out_degree.
End nx.

(** ** Exceptions and the state of the program *)

Inductive Exn :=
| ValueError (msg : string)
| TypeError (msg : string)
| KeyError (key : string)
| ValidationError.

Inductive Result (A : Type) :=
| Ok (a : A)
| Raise (e : Exn).
Arguments Ok {A} a.
Arguments Raise {A} e.

(** The fields of a [GraphBuilder] object. *)
Record GraphBuilder := {
  graph : option nx.DiGraph;
  messages : list Message.t
}.

(** [GraphBuilder.__init__] *)
Definition __init__ : GraphBuilder := {| graph := None; messages := [] |}.

(** A method call runs on the builder object and the store, and leaves both,
    whether it returns or raises. *)
Definition World : Type := GraphBuilder * Heap.t.
Definition M (A : Type) : Type := World → Result A * World.

(** ** [GraphBuilder] ([services/graph_builder.py]) *)

(** [sorted(messages, key=lambda m: m.step_index)]: the sort is stable, an
    element goes before the first one of the sorted rest whose key is not
    smaller. *)
Fixpoint insert_by_step (m : Message.t) (l : list Message.t) : list Message.t :=
  match l with
  | [] => [m]
  | m' :: l' =>
      if bool_decide (Message.step_index m ≤ Message.step_index m')%Z
      then m :: m' :: l'
      else m' :: insert_by_step m l'
  end.

Definition sorted_by_step (l : list Message.t) : list Message.t :=
  foldr insert_by_step [] l.

Definition type_to_intent : list (string * IntentLabel.t) :=
  [ ("delegation", IntentLabel.DELEGATION);
    ("action", IntentLabel.COORDINATION);
    ("response", IntentLabel.INFORMATION_RESPONSE);
    ("feedback", IntentLabel.FEEDBACK) ].

Definition _infer_intent (message : Message.t) : IntentLabel.t :=
  let message_type := Message.message_type message in
  default IntentLabel.UNKNOWN (dict_get (MessageType.value message_type) type_to_intent).

Definition node_metadata_t : Type := list (string * NodeMeta.t).

(** [md['message_count'] += 1] *)
Definition bump_count (md : NodeMeta.t) : NodeMeta.t :=
  {| NodeMeta.id := NodeMeta.id md;
     NodeMeta.label := NodeMeta.label md;
     NodeMeta.message_count := NodeMeta.message_count md + 1;
     NodeMeta.first_appearance := NodeMeta.first_appearance md;
     NodeMeta.last_activity := NodeMeta.last_activity md;
     NodeMeta.metadata := NodeMeta.metadata md |}.

(** [md['last_activity'] = t] *)
Definition set_last_activity (t : datetime.t) (md : NodeMeta.t) : NodeMeta.t :=
  {| NodeMeta.id := NodeMeta.id md;
     NodeMeta.label := NodeMeta.label md;
     NodeMeta.message_count := NodeMeta.message_count md;
     NodeMeta.first_appearance := NodeMeta.first_appearance md;
     NodeMeta.last_activity := t;
     NodeMeta.metadata := NodeMeta.metadata md |}.

Definition alter_meta (f : NodeMeta.t → NodeMeta.t) (k : string) (nm : node_metadata_t)
  : node_metadata_t :=
  (λ p, if bool_decide (p.1 = k) then (p.1, f p.2) else p) <$> nm.

Definition naive_aware : Exn :=
  TypeError "can't compare offset-naive and offset-aware datetimes".

(** The graph is the object [self.graph], changed in place: it is part of
    the state that the call leaves, also when it raises. *)
Definition _add_or_update_node (node_id : string) (message : Message.t)
    (st : node_metadata_t * nx.DiGraph)
  : Result unit * (node_metadata_t * nx.DiGraph) :=
  let '(node_metadata, g) :=
    if bool_decide (node_id ∈ st.1.*1) then st
    else
      (st.1 ++ [(node_id,
                 {| NodeMeta.id := node_id;
                    NodeMeta.label := node_id;
                    NodeMeta.message_count := 0;
                    NodeMeta.first_appearance := Message.timestamp message;
                    NodeMeta.last_activity := Message.timestamp message;
                    NodeMeta.metadata := [] |})],
       nx.add_node node_id st.2) in
  if bool_decide (Message.sender message = node_id) then
    let node_metadata := alter_meta bump_count node_id node_metadata in
    match dict_get node_id node_metadata with
    | None => (Raise (KeyError node_id), (node_metadata, g))
    | Some md =>
        match datetime.max (NodeMeta.last_activity md) (Message.timestamp message) with
        | None => (Raise naive_aware, (node_metadata, g))
        | Some t => (Ok tt, (alter_meta (set_last_activity t) node_id node_metadata, g))
        end
    end
  else (Ok tt, (node_metadata, g)).

(** [message.content[:100] if message.content else ''] *)
Definition content_preview (content : string) : string :=
  if bool_decide (content = "") then "" else String.substring 0 100 content.

(** Truth value of an optional string: [None] and [""] are false. *)
Definition truthy (r : option string) : bool :=
  match r with
  | Some s => bool_decide (s ≠ "")
  | None => false
  end.

Definition new_interaction (message : Message.t) : Interaction.t :=
  {| Interaction.step_index := Message.step_index message;
     Interaction.timestamp := Message.timestamp message;
     Interaction.intent := _infer_intent message;
     Interaction.message_id := Some (Message.step_index message);
     Interaction.metadata :=
       {| Interaction.message_type := MessageType.value (Message.message_type message);
          Interaction.content_preview := content_preview (Message.content message) |} |}.

Definition _add_interaction (message : Message.t) (gh : nx.DiGraph * Heap.t)
  : nx.DiGraph * Heap.t :=
  let sender := Message.sender message in
  if negb (truthy (Message.receiver message)) then gh
  else
    let receiver := default "" (Message.receiver message) in
    let interaction := new_interaction message in
    match nx.get_edge sender receiver gh.1 with
    | Some d =>
        (* [has_edge(sender, receiver)]: append to the list in place, bump the weight *)
        let l := EdgeAttr.interactions (Heap.dict_at gh.2 d) in
        let h1 := Heap.set_list l (Heap.list_at gh.2 l ++ [interaction]) gh.2 in
        let a := Heap.dict_at h1 d in
        (gh.1, Heap.set_dict d (EdgeAttr.set_weight (EdgeAttr.weight a + 1) a) h1)
    | None =>
        let '(l, h1) := Heap.alloc_list [interaction] gh.2 in
        nx.add_edge sender receiver
          {| EdgeAttr.interactions := l; EdgeAttr.weight := 1;
             EdgeAttr.source := sender; EdgeAttr.target := receiver |}
          (gh.1, h1)
    end.

(** The state of the loop of [build_graph]: the local [node_metadata], the
    graph object and the store. *)
Definition build_state : Type := node_metadata_t * nx.DiGraph * Heap.t.

(** The body of the loop of [build_graph] over the sorted messages. *)
Definition build_step (st : build_state) (message : Message.t)
  : Result unit * build_state :=
  let '(nm, g, h) := st in
  let '(r, (nm, g)) := _add_or_update_node (Message.sender message) message (nm, g) in
  match r with
  | Raise x => (Raise x, (nm, g, h))
  | Ok _ =>
      if truthy (Message.receiver message) then
        let '(r, (nm, g)) :=
          _add_or_update_node (default "" (Message.receiver message)) message (nm, g) in
        match r with
        | Raise x => (Raise x, (nm, g, h))
        | Ok _ =>
            let '(g, h) := _add_interaction message (g, h) in
            (Ok tt, (nm, g, h))
        end
      else (Ok tt, (nm, g, h))
  end.

(** The loop: it stops at the first message whose processing raises. *)
Fixpoint build_loop (msgs : list Message.t) (st : build_state)
  : Result unit * build_state :=
  match msgs with
  | [] => (Ok tt, st)
  | message :: msgs' =>
      let '(r, st') := build_step st message in
      match r with
      | Raise x => (Raise x, st')
      | Ok _ => build_loop msgs' st'
      end
  end.

Definition build_graph (msgs : list Message.t) : M nx.DiGraph :=
  λ '(self, h),
  match msgs with
  | [] => (Raise (ValueError "Cannot build graph from empty message list"), (self, h))
  | _ =>
      let messages' := sorted_by_step msgs in
      let '(r, (node_metadata, g, h)) := build_loop messages' ([], nx.empty, h) in
      match r with
      | Raise x => (Raise x, ({| graph := Some g; messages := messages' |}, h))
      | Ok _ =>
          let g := foldl (λ g p, nx.update_node p.1 p.2 g) g node_metadata in
          (Ok g, ({| graph := Some g; messages := messages' |}, h))
      end
  end.

(** [not self.graph]: the field is [None] or holds a graph without nodes. *)
Definition built (self : GraphBuilder) : option nx.DiGraph :=
  match graph self with
  | Some ((_ :: _) as g) => Some g
  | _ => None
  end.

Definition keep (max_step : Z) (l : list Interaction.t) : list Interaction.t :=
  filter (λ i, (Interaction.step_index i ≤ max_step)%Z) l.

(** The first loop of [filter_graph_by_step], over the edges of the copy;
    [d] is the dictionary [filtered[u][v]] that [edges(data=True)] yields. *)
Fixpoint filter_edges (max_step : Z) (es : list (string * string * loc))
    (h : Heap.t) (edges_to_remove : list (string * string))
  : Heap.t * list (string * string) :=
  match es with
  | [] => (h, edges_to_remove)
  | (u, v, d) :: es' =>
      let interactions :=
        keep max_step (Heap.list_at h (EdgeAttr.interactions (Heap.dict_at h d))) in
      match interactions with
      | _ :: _ =>
          let '(l, h1) := Heap.alloc_list interactions h in
          let h2 := Heap.set_dict d (EdgeAttr.set_interactions l (Heap.dict_at h1 d)) h1 in
          let h3 :=
            Heap.set_dict d
              (EdgeAttr.set_weight (Z.of_nat (length interactions)) (Heap.dict_at h2 d)) h2 in
          filter_edges max_step es' h3 edges_to_remove
      | [] => filter_edges max_step es' h (edges_to_remove ++ [(u, v)])
      end
  end.

Definition not_built : Exn := ValueError "No graph built yet. Call build_graph() first.".

Definition filter_graph_by_step (max_step : Z) : M nx.DiGraph :=
  λ '(self, h),
  match built self with
  | None => (Raise not_built, (self, h))
  | Some g =>
      let '(filtered, h) := nx.copy g h in
      let '(h, edges_to_remove) := filter_edges max_step (nx.edges filtered) h [] in
      let filtered := foldl (λ g e, nx.remove_edge e.1 e.2 g) filtered edges_to_remove in
      let isolated_nodes := nx.isolates filtered in
      let filtered := nx.remove_nodes_from isolated_nodes filtered in
      (Ok filtered, (self, h))
  end.

(** [NodeData] built from the items of a node's attribute dictionary: [id]
    and [label] are required, the fields the dictionary lacks take their
    defaults. *)
Definition to_NodeData (d : option NodeMeta.t) : Result NodeData.t :=
  match d with
  | None => Raise ValidationError
  | Some md =>
      Ok {| NodeData.id := NodeMeta.id md;
            NodeData.label := NodeMeta.label md;
            NodeData.message_count := NodeMeta.message_count md;
            NodeData.messages_sent := 0;
            NodeData.messages_received := 0;
            NodeData.first_appearance := Some (NodeMeta.first_appearance md);
            NodeData.last_activity := Some (NodeMeta.last_activity md);
            NodeData.metadata := NodeMeta.metadata md |}
  end.

Fixpoint convert_nodes (g : nx.DiGraph) : Result (list NodeData.t) :=
  match g with
  | [] => Ok []
  | (_, e) :: g' =>
      match to_NodeData (nx.attrs e) with
      | Raise x => Raise x
      | Ok n =>
          match convert_nodes g' with
          | Raise x => Raise x
          | Ok ns => Ok (n :: ns)
          end
      end
  end.

Definition to_EdgeData (h : Heap.t) (d : loc) : EdgeData.t :=
  let data := Heap.dict_at h d in
  {| EdgeData.source := EdgeAttr.source data;
     EdgeData.target := EdgeAttr.target data;
     EdgeData.interactions := Heap.list_at h (EdgeAttr.interactions data);
     EdgeData.weight := EdgeAttr.weight data |}.

Definition convert_edges (h : Heap.t) (g : nx.DiGraph) : list EdgeData.t :=
  (λ e, to_EdgeData h e.2) <$> nx.edges g.

(** [max(m.step_index for m in self.messages) if self.messages else 0] *)
Definition max_step_index (msgs : list Message.t) : Z :=
  match msgs with
  | [] => 0
  | m :: msgs' => foldl (λ a m', Z.max a (Message.step_index m')) (Message.step_index m) msgs'
  end.

(** Truth value of the optional integer [max_step]: [None] and [0] are false. *)
Definition truthy_int (x : option Z) : bool :=
  match x with
  | Some z => bool_decide (z ≠ 0%Z)
  | None => false
  end.

Definition to_graph_snapshot (max_step : option Z) : M GraphSnapshot.t :=
  λ '(self, h),
  match built self with
  | None => (Raise not_built, (self, h))
  | Some g =>
      let '(r, (self, h)) :=
        if truthy_int max_step
        then filter_graph_by_step (default 0%Z max_step) (self, h)
        else (Ok g, (self, h)) in
      match r with
      | Raise x => (Raise x, (self, h))
      | Ok graph_to_use =>
          match convert_nodes graph_to_use with
          | Raise x => (Raise x, (self, h))
          | Ok nodes =>
              let edges := convert_edges h graph_to_use in
              let total_steps := max_step_index (messages self) in
              (Ok {| GraphSnapshot.nodes := nodes;
                     GraphSnapshot.edges := edges;
                     GraphSnapshot.current_step := max_step;
                     GraphSnapshot.total_steps := total_steps;
                     GraphSnapshot.metadata :=
                       {| GraphSnapshot.node_count := Z.of_nat (length nodes);
                          GraphSnapshot.edge_count := Z.of_nat (length edges);
                          GraphSnapshot.message_count := Z.of_nat (length (messages self)) |} |},
               (self, h))
          end
      end
  end.

(** The dictionary returned by [get_graph_metrics]; an absent key is [None]. *)
Record Metrics := {
  node_count : Z;
  edge_count : Z;
  density : Q;
  degree_centrality : option (list (string * nx.number));
  in_degree_centrality : option (list (string * nx.number));
  out_degree_centrality : option (list (string * nx.number))
}.

Definition get_graph_metrics : M Metrics :=
  λ '(self, h),
  match built self with
  | None => (Raise not_built, (self, h))
  | Some g =>
      let metrics :=
        {| node_count := nx.number_of_nodes g;
           edge_count := nx.number_of_edges g;
           density := nx.density g;
           degree_centrality := None;
           in_degree_centrality := None;
           out_degree_centrality := None |} in
      let metrics :=
        if bool_decide (nx.number_of_nodes g > 0)%Z then
          {| node_count := node_count metrics;
             edge_count := edge_count metrics;
             density := density metrics;
             degree_centrality := Some (nx.degree_centrality g);
             in_degree_centrality := Some (nx.in_degree_centrality g);
             out_degree_centrality := Some (nx.out_degree_centrality g) |}
        else metrics in
      (Ok metrics, (self, h))
  end.

(** [d[k] = x]: the value of an existing key is replaced where it stands, a
    new key goes to the end. *)
Fixpoint dict_set {A} (k : string) (x : A) (d : list (string * A)) : list (string * A) :=
  match d with
  | [] => [(k, x)]
  | (k', y) :: d' =>
      if bool_decide (k' = k) then (k', x) :: d' else (k', y) :: dict_set k x d'
  end.

(** [del d[k]] *)
Definition dict_del {A} (k : string) (d : list (string * A)) : list (string * A) :=
  filter (λ p, p.1 ≠ k) d.

(** ** Settings ([core/config.py])

    The defaults of the two settings the modelled code reads; the
    environment may override them, so the functions take the record. *)
Record Settings := {
  MAX_UPLOAD_SIZE : Z;
  SESSION_EXPIRY_HOURS : Z
}.

Definition settings : Settings :=
  {| MAX_UPLOAD_SIZE := 10 * 1024 * 1024; SESSION_EXPIRY_HOURS := 24 |}.

(** ** [SessionManager] ([services/session_manager.py])

    The numbers of [datetime] values count microseconds.  The two inputs
    from outside the program are arguments of the methods that read them:
    the string of a new [uuid.uuid4()] and the readings of the wall clock
    that [datetime.now()] returns, which are naive. *)

(** [timedelta(hours=h)] *)
Definition timedelta_hours (h : Z) : Z := h * 3600 * 1000000.

(** [t - d] for a [datetime] and a [timedelta]; the clock shows a time from
    which the subtraction does not leave the range of [datetime]. *)
Definition datetime_sub (t : datetime.t) (d : Z) : datetime.t :=
  match t with
  | datetime.Naive z => datetime.Naive (z - d)
  | datetime.Aware z => datetime.Aware (z - d)
  end.

Module Session.
(** The dictionary of a session.  [graph_builder] refers to the builder
    object; the manager never calls it. *)
Record t := {
  id : string;
  messages : list Message.t;
  framework : string;
  graph_builder : GraphBuilder;
  created_at : datetime.t;
  last_accessed : datetime.t;
  metadata : list (string * string)
}.

(** [session['last_accessed'] = now] *)
Definition set_last_accessed (now : datetime.t) (s : t) : t :=
  {| id := id s; messages := messages s; framework := framework s;
     graph_builder := graph_builder s; created_at := created_at s;
     last_accessed := now; metadata := metadata s |}.
End Session.

Module SessionInfo.
(** An entry of [list_sessions]. *)
Record t := {
  id : string;
  framework : string;
  created_at : string;
  message_count : Z
}.
End SessionInfo.

Module SessionManager.
(** The field [_sessions]. *)
Definition t : Type := list (string * Session.t).

Definition __init__ : t := [].

Definition create_session (uuid4 : string) (now1 now2 : Z)
    (messages : list Message.t) (framework : string) (graph_builder : GraphBuilder)
    (self : t) : string * t :=
  let session_id := String.substring 0 8 uuid4 in
  (session_id,
   dict_set session_id
     {| Session.id := session_id;
        Session.messages := messages;
        Session.framework := framework;
        Session.graph_builder := graph_builder;
        Session.created_at := datetime.Naive now1;
        Session.last_accessed := datetime.Naive now2;
        Session.metadata := [] |}
     self).

Definition get_session (now : Z) (session_id : string) (self : t)
  : option Session.t * t :=
  match dict_get session_id self with
  | None => (None, self)
  | Some s =>
      let s' := Session.set_last_accessed (datetime.Naive now) s in
      (Some s', dict_set session_id s' self)
  end.

Definition get_graph_builder (now : Z) (session_id : string) (self : t)
  : option GraphBuilder * t :=
  let '(session, self) := get_session now session_id self in
  (Session.graph_builder <$> session, self).

Definition delete_session (session_id : string) (self : t) : bool * t :=
  if bool_decide (session_id ∈ self.*1) then (true, dict_del session_id self)
  else (false, self).

(** The list comprehension of [cleanup_expired_sessions]; a comparison of a
    naive with an aware value raises. *)
Fixpoint expired_sessions (expiry_time : datetime.t) (items : list (string * Session.t))
  : Result (list string) :=
  match items with
  | [] => Ok []
  | (sid, session) :: items' =>
      match datetime.lt (Session.last_accessed session) expiry_time with
      | None => Raise naive_aware
      | Some c =>
          match expired_sessions expiry_time items' with
          | Raise x => Raise x
          | Ok l => Ok (if c then sid :: l else l)
          end
      end
  end.

Definition cleanup_expired_sessions (cfg : Settings) (now : Z) (self : t)
  : Result Z * t :=
  let expiry_time :=
    datetime_sub (datetime.Naive now) (timedelta_hours (SESSION_EXPIRY_HOURS cfg)) in
  match expired_sessions expiry_time self with
  | Raise x => (Raise x, self)
  | Ok expired =>
      (Ok (Z.of_nat (length expired)), foldl (λ d sid, dict_del sid d) self expired)
  end.

Definition get_session_count (self : t) : Z := Z.of_nat (length self).

(** [isoformat] stands for the method of [datetime] of that name. *)
Definition list_sessions (isoformat : datetime.t → string) (self : t)
  : list SessionInfo.t :=
  (λ p, {| SessionInfo.id := Session.id p.2;
           SessionInfo.framework := Session.framework p.2;
           SessionInfo.created_at := isoformat (Session.created_at p.2);
           SessionInfo.message_count := Z.of_nat (length (Session.messages p.2)) |})
    <$> self.
End SessionManager.

(** ** The AutoGen parser ([parsers/autogen_parser.py])

    The two methods that work on a decoded log entry alone.  An entry is the
    dictionary that [json.loads] made of a line. *)

Module json.
(** A decoded JSON value; a float is finite. *)
#[warnings="-register-all"] Inductive t :=
| Null
| Bool (b : bool)
| Int (z : Z)
| Float (x : Q)
| Str (s : string)
| Array (l : list t)
| Object (d : list (string * t)).
End json.

Module pyexc.
(** The exceptions of the parser's library calls. *)
Inductive t := ValueError | TypeError | AttributeError | OverflowError | OSError.

Inductive result (A : Type) :=
| Returns (a : A)
| Throws (e : t).
Arguments Returns {A} a.
Arguments Throws {A} e.
End pyexc.

(** [c.lower()] for a character of ASCII. *)
Definition lower_ascii (c : Ascii.ascii) : Ascii.ascii :=
  let n := Ascii.N_of_ascii c in
  if bool_decide (65 ≤ n ≤ 90)%N then Ascii.ascii_of_N (n + 32) else c.

(** [s.lower()]; the strings of the model are sequences of bytes, and this
    is the method of Python on the strings of ASCII. *)
Fixpoint lower (s : string) : string :=
  match s with
  | EmptyString => EmptyString
  | String c s' => String (lower_ascii c) (lower s')
  end.

(** [needle in s] *)
Fixpoint contains (needle s : string) : bool :=
  String.prefix needle s ||
  match s with
  | EmptyString => false
  | String _ s' => contains needle s'
  end.

(** [s.replace('Z', '+00:00')] *)
Fixpoint replace_Z (s : string) : string :=
  match s with
  | EmptyString => EmptyString
  | String c s' =>
      if bool_decide (String c EmptyString = "Z") then "+00:00" +:+ replace_Z s'
      else String c (replace_Z s')
  end.

(** [MessageType(type_str)] when [type_str] is the value of a member. *)
Definition MessageType_of_value (s : string) : option MessageType.t :=
  if bool_decide (s = "thought") then Some MessageType.THOUGHT
  else if bool_decide (s = "action") then Some MessageType.ACTION
  else if bool_decide (s = "observation") then Some MessageType.OBSERVATION
  else if bool_decide (s = "delegation") then Some MessageType.DELEGATION
  else if bool_decide (s = "response") then Some MessageType.RESPONSE
  else if bool_decide (s = "system") then Some MessageType.SYSTEM
  else None.

Module AutoGenParser.
Definition delegation_keywords : list string :=
  ["please"; "can you"; "could you"; "implement"; "create"; "build"].
Definition thought_keywords : list string :=
  ["thinking"; "analyzing"; "considering"; "let me think"].
Definition action_keywords : list string :=
  ["executing"; "running"; "calling"; "function_call"].

(** [any(keyword in content_lower for keyword in keywords)] *)
Definition any_in (keywords : list string) (content_lower : string) : bool :=
  existsb (λ keyword, contains keyword content_lower) keywords.

(** [x.lower()] for a decoded value: only a string has the method. *)
Definition value_lower (x : json.t) : pyexc.result string :=
  match x with
  | json.Str s => pyexc.Returns (lower s)
  | _ => pyexc.Throws pyexc.AttributeError
  end.

Definition _infer_message_type (entry : list (string * json.t)) (content : string)
  : pyexc.result MessageType.t :=
  let explicit :=
    match dict_get "type" entry with
    | Some x =>
        match value_lower x with
        | pyexc.Throws e => pyexc.Throws e
        | pyexc.Returns type_str => pyexc.Returns (MessageType_of_value type_str)
        end
    | None => pyexc.Returns None
    end in
  match explicit with
  | pyexc.Throws e => pyexc.Throws e
  | pyexc.Returns (Some t) => pyexc.Returns t
  | pyexc.Returns None =>
      match value_lower (default (json.Str "") (dict_get "role" entry)) with
      | pyexc.Throws e => pyexc.Throws e
      | pyexc.Returns role =>
          if bool_decide (role = "system") then pyexc.Returns MessageType.SYSTEM
          else
            let content_lower := lower content in
            if any_in delegation_keywords content_lower
            then pyexc.Returns MessageType.DELEGATION
            else if any_in thought_keywords content_lower
            then pyexc.Returns MessageType.THOUGHT
            else if any_in action_keywords content_lower
                    || bool_decide ("function_call" ∈ entry.*1)
            then pyexc.Returns MessageType.ACTION
            else pyexc.Returns MessageType.RESPONSE
      end
  end.

Definition timestamp_fields : list string := ["timestamp"; "time"; "created_at"; "date"].

(** [datetime(2024, 1, 1, 0, 0, 0)], in microseconds from 1970-01-01. *)
Definition base_time : Z := 1704067200 * 1000000.

(** [base_time.replace(microsecond=us)]: the argument is read as a C [int]
    and must be a number of microseconds below one second. *)
Definition replace_microsecond (us : Z) : pyexc.result datetime.t :=
  if bool_decide (0 ≤ us ≤ 999999)%Z then pyexc.Returns (datetime.Naive (base_time + us))
  else if bool_decide (- 2 ^ 31 ≤ us < 2 ^ 31)%Z then pyexc.Throws pyexc.ValueError
  else pyexc.Throws pyexc.OverflowError.

Section library.
(** [datetime.fromtimestamp] and [datetime.fromisoformat]. *)
Variable fromtimestamp : json.t → pyexc.result datetime.t.
Variable fromisoformat : string → pyexc.result datetime.t.

(** The body of the [try] for the value [ts] of a field: [None] when it
    ends without [return]. *)
Definition timestamp_of (ts : json.t) : option (pyexc.result datetime.t) :=
  match ts with
  | json.Bool _ | json.Int _ | json.Float _ => Some (fromtimestamp ts)
  | json.Str s => Some (fromisoformat (replace_Z s))
  | _ => None
  end.

(** The loop over the fields: [None] when no field made it return. *)
Fixpoint first_timestamp (fields : list string) (entry : list (string * json.t))
  : option (pyexc.result datetime.t) :=
  match fields with
  | [] => None
  | field :: fields' =>
      match dict_get field entry with
      | None => first_timestamp fields' entry
      | Some ts =>
          match timestamp_of ts with
          | Some (pyexc.Returns t) => Some (pyexc.Returns t)
          | Some (pyexc.Throws pyexc.ValueError)
          | Some (pyexc.Throws pyexc.TypeError) => first_timestamp fields' entry
          | Some (pyexc.Throws e) => Some (pyexc.Throws e)
          | None => first_timestamp fields' entry
          end
      end
  end.

Definition _extract_timestamp (entry : list (string * json.t)) (step_index : Z)
  : pyexc.result datetime.t :=
  match first_timestamp timestamp_fields entry with
  | Some r => r
  | None => replace_microsecond (step_index * 1000)
  end.
End library.
End AutoGenParser.

(** ** The parser service ([services/parser.py])

    What a parser makes of a file: the messages, a [ParserError], or an
    exception of another class. *)
Inductive ParseOutcome :=
| Parsed (messages : list Message.t)
| ParserError (message : string)
| ParseFailed (e : pyexc.t).

Module ParserService.
(** The keys of [PARSER_REGISTRY]. *)
Definition PARSER_REGISTRY : list string := ["autogen"].

Definition get_available_parsers : list string := PARSER_REGISTRY.

(** [parse] stands for [AutoGenParser().parse] on a file with the given
    content, the class of the only key. *)
Definition parse_log (parse : string → ParseOutcome) (file : string) (framework : string)
  : ParseOutcome :=
  if bool_decide (framework ∈ PARSER_REGISTRY) then parse file
  else ParseFailed pyexc.ValueError.
End ParserService.

(** ** The endpoints ([api/endpoints/upload.py], [api/endpoints/graph.py])

    The state of the application is the global session manager and the store
    of the objects of the builders.  A session refers to its builder; no
    call that the endpoints make on a stored builder changes its fields, so
    the record in the session is the builder.  A handler returns a body or
    raises an [HTTPException]; of the detail of the exception the model keeps
    the place that made it and the exception it quotes. *)
Record App := {
  session_manager : SessionManager.t;
  heap : Heap.t
}.

Inductive Detail :=
| unsupported_framework (framework : string)
| file_too_large
| parser_error (message : string)
| parsing_failed (e : pyexc.t)
| build_failed (e : Exn)
| unexpected_error (e : Exn)
| graph_not_found (graph_id : string)
| bad_request (e : Exn)
| retrieve_failed (e : Exn)
| metrics_not_found (graph_id : string)
| metrics_failed (e : Exn)
| info_not_found (graph_id : string)
| session_not_found.

Inductive Response (A : Type) :=
| Return (body : A)
| HTTPException (status_code : Z) (detail : Detail).
Arguments Return {A} body.
Arguments HTTPException {A} status_code detail.

Module UploadResponse.
Record t := {
  graph_id : string;
  message_count : Z;
  node_count : Z;
  edge_count : Z;
  total_steps : Z;
  framework : string
}.
End UploadResponse.

Module MetricsResponse.
Record t := {
  node_count : Z;
  edge_count : Z;
  density : Q;
  centrality : option (list (string * nx.number))
}.
End MetricsResponse.

(** The dictionary that [get_graph_info] returns. *)
Module GraphInfo.
Record t := {
  graph_id : string;
  framework : string;
  message_count : Z;
  created_at : string;
  last_accessed : string
}.
End GraphInfo.

(** The dictionary that the endpoint [list_sessions] returns. *)
Module SessionList.
Record t := {
  count : Z;
  sessions : list SessionInfo.t
}.
End SessionList.

(** [except ValueError]: pydantic's [ValidationError] is a [ValueError]. *)
Definition is_ValueError (e : Exn) : bool :=
  match e with
  | ValueError _ | ValidationError => true
  | TypeError _ | KeyError _ => false
  end.

Module upload.
(** [file] is the content and [size] the size of the uploaded file; the
    directory of the uploads can be written.  [uuid4], [now1] and [now2] are
    read when the session is made. *)
Definition upload_log_file (cfg : Settings) (parse : string → ParseOutcome)
    (file : string) (size : option Z) (framework : string)
    (uuid4 : string) (now1 now2 : Z) (app : App)
  : Response UploadResponse.t * App :=
  if negb (bool_decide (framework ∈ ParserService.get_available_parsers)) then
    (HTTPException 400 (unsupported_framework framework), app)
  else if truthy_int size && bool_decide (default 0 size > MAX_UPLOAD_SIZE cfg)%Z then
    (HTTPException 400 file_too_large, app)
  else
    match ParserService.parse_log parse file framework with
    | ParserError message => (HTTPException 400 (parser_error message), app)
    | ParseFailed e => (HTTPException 500 (parsing_failed e), app)
    | Parsed messages =>
        let '(r, (graph_builder, h)) := build_graph messages (__init__, heap app) in
        match r with
        | Raise e =>
            (HTTPException 500 (build_failed e),
             {| session_manager := session_manager app; heap := h |})
        | Ok _ =>
            let '(session_id, sm) :=
              SessionManager.create_session uuid4 now1 now2 messages framework
                graph_builder (session_manager app) in
            let '(r, (_, h)) := to_graph_snapshot None (graph_builder, h) in
            match r with
            | Raise e =>
                (HTTPException 500 (unexpected_error e),
                 {| session_manager := sm; heap := h |})
            | Ok snapshot =>
                (Return
                   {| UploadResponse.graph_id := session_id;
                      UploadResponse.message_count := Z.of_nat (length messages);
                      UploadResponse.node_count :=
                        Z.of_nat (length (GraphSnapshot.nodes snapshot));
                      UploadResponse.edge_count :=
                        Z.of_nat (length (GraphSnapshot.edges snapshot));
                      UploadResponse.total_steps := GraphSnapshot.total_steps snapshot;
                      UploadResponse.framework := framework |},
                 {| session_manager := sm; heap := h |})
            end
        end
    end.

(** The body of the response is the dictionary with the key [message]. *)
Definition delete_session (session_id : string) (app : App)
  : Response (list (string * string)) * App :=
  let '(deleted, sm) := SessionManager.delete_session session_id (session_manager app) in
  (if deleted then Return [("message", "Session " +:+ session_id +:+ " deleted successfully")]
   else HTTPException 404 session_not_found,
   {| session_manager := sm; heap := heap app |}).

Definition list_sessions (isoformat : datetime.t → string) (app : App) : SessionList.t :=
  let sessions := SessionManager.list_sessions isoformat (session_manager app) in
  {| SessionList.count := Z.of_nat (length sessions); SessionList.sessions := sessions |}.

End upload.

Module graph_api.
Definition get_graph (graph_id : string) (step : option Z) (now : Z) (app : App)
  : Response GraphSnapshot.t * App :=
  let '(graph_builder, sm) :=
    SessionManager.get_graph_builder now graph_id (session_manager app) in
  match graph_builder with
  | None =>
      (HTTPException 404 (graph_not_found graph_id),
       {| session_manager := sm; heap := heap app |})
  | Some graph_builder =>
      let '(r, (_, h)) := to_graph_snapshot step (graph_builder, heap app) in
      (match r with
       | Ok snapshot => Return snapshot
       | Raise e =>
           if is_ValueError e then HTTPException 400 (bad_request e)
           else HTTPException 500 (retrieve_failed e)
       end,
       {| session_manager := sm; heap := h |})
  end.

Definition get_graph_metrics (graph_id : string) (now : Z) (app : App)
  : Response MetricsResponse.t * App :=
  let '(graph_builder, sm) :=
    SessionManager.get_graph_builder now graph_id (session_manager app) in
  match graph_builder with
  | None =>
      (HTTPException 404 (metrics_not_found graph_id),
       {| session_manager := sm; heap := heap app |})
  | Some graph_builder =>
      let '(r, (_, h)) := get_graph_metrics (graph_builder, heap app) in
      (match r with
       | Ok metrics =>
           Return {| MetricsResponse.node_count := node_count metrics;
                     MetricsResponse.edge_count := edge_count metrics;
                     MetricsResponse.density := density metrics;
                     MetricsResponse.centrality := degree_centrality metrics |}
       | Raise e => HTTPException 500 (metrics_failed e)
       end,
       {| session_manager := sm; heap := h |})
  end.

(** [isoformat] stands for the method of [datetime] of that name. *)
Definition get_graph_info (isoformat : datetime.t → string) (graph_id : string) (now : Z)
    (app : App) : Response GraphInfo.t * App :=
  let '(session, sm) := SessionManager.get_session now graph_id (session_manager app) in
  (match session with
   | None => HTTPException 404 (info_not_found graph_id)
   | Some session =>
       Return {| GraphInfo.graph_id := Session.id session;
                 GraphInfo.framework := Session.framework session;
                 GraphInfo.message_count := Z.of_nat (length (Session.messages session));
                 GraphInfo.created_at := isoformat (Session.created_at session);
                 GraphInfo.last_accessed := isoformat (Session.last_accessed session) |}
   end,
   {| session_manager := sm; heap := heap app |}).

End graph_api.

(** ** Sample conversations *)

Definition msg (step : Z) (s : string) (r : option string) (ty : MessageType.t) : Message.t :=
  {| Message.step_index := step; Message.timestamp := datetime.Naive (1000 + step);
     Message.sender := s; Message.receiver := r;
     Message.message_type := ty; Message.content := "hello" |}.

(** Scenario A of the specification. *)
Definition scenario_A : list Message.t :=
  [ msg 0 "A" (Some "B") MessageType.DELEGATION;
    msg 1 "B" (Some "A") MessageType.RESPONSE;
    msg 2 "B" (Some "A") MessageType.RESPONSE;
    msg 3 "A" (Some "C") MessageType.DELEGATION ].

Definition world0 : World := (__init__, Heap.empty).

(** ** Vocabulary of the statements and of the proofs *)

(** Keys are unique in the node table and in every successor table, as in
    the Python dictionaries they stand for. *)
Definition wf_graph (g : nx.DiGraph) : Prop :=
  NoDup (nx.nodes g) ∧ Forall (λ p, NoDup (nx.succ p.2).*1) g.

(** An edge dictionary is valid when it and the list it refers to are
    allocated. *)
Definition valid (h : Heap.t) (d : loc) : Prop :=
  d < length (Heap.dicts h) ∧
  EdgeAttr.interactions (Heap.dict_at h d) < length (Heap.lists h).

(** [h'] keeps every object of [h] but the dictionaries at [ds]; the lists
    of [h] are never written. *)
Definition preserves (ds : list loc) (h h' : Heap.t) : Prop :=
  Heap.lists h `prefix_of` Heap.lists h' ∧
  (length (Heap.dicts h) ≤ length (Heap.dicts h'))%nat ∧
  ∀ d, d < length (Heap.dicts h) → d ∉ ds → Heap.dicts h' !! d = Heap.dicts h !! d.

(** Same nodes in the same order, with the same attributes and the same
    successors; the locations of the edge dictionaries may differ. *)
Definition same_shape (g g' : nx.DiGraph) : Prop :=
  Forall2 (λ p p', p.1 = p'.1 ∧ nx.attrs p.2 = nx.attrs p'.2 ∧
                   (nx.succ p.2).*1 = (nx.succ p'.2).*1) g g'.

(** [G.edges(data=True)] with every dictionary read out of the store. *)
Definition edges_data (h : Heap.t) (g : nx.DiGraph) : list (string * string * EdgeData.t) :=
  (λ e, (e.1, to_EdgeData h e.2)) <$> nx.edges g.

(** Every edge dictionary of the graph is valid in the store. *)
Definition graph_valid (h : Heap.t) (g : nx.DiGraph) : Prop :=
  Forall (valid h) (nx.edges g).*2.

(** What the view keeps of an edge. *)
Definition filtered_data (max_step : Z) (ed : EdgeData.t) : EdgeData.t :=
  {| EdgeData.source := EdgeData.source ed;
     EdgeData.target := EdgeData.target ed;
     EdgeData.interactions := keep max_step (EdgeData.interactions ed);
     EdgeData.weight := Z.of_nat (length (keep max_step (EdgeData.interactions ed))) |}.

(** The interactions that the loop keeps of the edge at [d]. *)
Definition kept (max_step : Z) (h : Heap.t) (d : loc) : list Interaction.t :=
  keep max_step (EdgeData.interactions (to_EdgeData h d)).

(** The store after the two assignments to [filtered[u][v]]. *)
Definition assign_kept (x : list Interaction.t) (d : loc) (h : Heap.t) : Heap.t :=
  let '(l, h1) := Heap.alloc_list x h in
  let h2 := Heap.set_dict d (EdgeAttr.set_interactions l (Heap.dict_at h1 d)) h1 in
  Heap.set_dict d (EdgeAttr.set_weight (Z.of_nat (length x)) (Heap.dict_at h2 d)) h2.

(** [G.nodes(data=True)] *)
Definition node_attrs (g : nx.DiGraph) : list (string * option NodeMeta.t) :=
  (λ p, (p.1, nx.attrs p.2)) <$> g.

(** Every node carries the dictionary that [build_graph] attaches to it. *)
Definition all_attrs (g : nx.DiGraph) : Prop :=
  Forall (λ p, is_Some p.2) (node_attrs g).

(** An edge of the base model as the view has it, if the view has it. *)
Definition view_item (max_step : Z) (it : string * string * EdgeData.t)
  : option (string * string * EdgeData.t) :=
  match keep max_step (EdgeData.interactions it.2) with
  | [] => None
  | _ :: _ => Some (it.1, filtered_data max_step it.2)
  end.

(** The list an edge dictionary refers to. *)
Definition list_loc (h : Heap.t) (d : loc) : loc :=
  EdgeAttr.interactions (Heap.dict_at h d).

(** What holds of every edge while the graph is built from [msgs]. *)
Definition edge_inv (msgs : list Message.t) (h : Heap.t) (e : string * string * loc)
  : Prop :=
  valid h e.2 ∧
  EdgeData.source (to_EdgeData h e.2) = e.1.1 ∧
  EdgeData.target (to_EdgeData h e.2) = e.1.2 ∧
  EdgeData.weight (to_EdgeData h e.2) =
    Z.of_nat (length (EdgeData.interactions (to_EdgeData h e.2))) ∧
  EdgeData.interactions (to_EdgeData h e.2) ≠ [] ∧
  Forall (λ i, ∃ m, m ∈ msgs ∧ i = new_interaction m)
    (EdgeData.interactions (to_EdgeData h e.2)).

(** The graph under construction and the store: unique keys, one dictionary
    and one list per edge, shared with no other edge. *)
Definition store_inv (msgs : list Message.t) (h : Heap.t) (g : nx.DiGraph) : Prop :=
  wf_graph g ∧
  NoDup (nx.edges g).*2 ∧
  NoDup (list_loc h <$> (nx.edges g).*2) ∧
  Forall (edge_inv msgs h) (nx.edges g).

(** The store after an append to the list of the edge at [d]. *)
Definition append_interaction (i : Interaction.t) (d : loc) (h : Heap.t) : Heap.t :=
  let l := EdgeAttr.interactions (Heap.dict_at h d) in
  let h1 := Heap.set_list l (Heap.list_at h l ++ [i]) h in
  let a := Heap.dict_at h1 d in
  Heap.set_dict d (EdgeAttr.set_weight (EdgeAttr.weight a + 1) a) h1.

(** The invariant of the loop of [build_graph]. *)
Definition loop_inv (msgs : list Message.t)
    (st : node_metadata_t * nx.DiGraph * Heap.t) : Prop :=
  nx.nodes st.1.2 = st.1.1.*1 ∧ store_inv msgs st.2 st.1.2.

(** The states reached from [w] by calls of the three methods that read the
    graph, in any number and order. *)
Inductive after_reads (w : World) : World → Prop :=
| after_nothing : after_reads w w
| after_filter wa max_step r wb :
    after_reads w wa → filter_graph_by_step max_step wa = (r, wb) → after_reads w wb
| after_snapshot wa max_step r wb :
    after_reads w wa → to_graph_snapshot max_step wa = (r, wb) → after_reads w wb
| after_metrics wa r wb :
    after_reads w wa → get_graph_metrics wa = (r, wb) → after_reads w wb.

(** The centrality table [c] gives every node of [g], in order, the float
    product of its degree [deg] and [1.0 / (n - 1.0)]. *)
Definition degree_products (deg : string → nx.DiGraph → Z) (g : nx.DiGraph)
    (c : list (string * nx.number)) : Prop :=
  Forall2 (λ k p, p.1 = k ∧
                  p.2 = nx.Float (nx.scaled (deg k g) (nx.number_of_nodes g)))
          (nx.nodes g) c.

(** The centrality table [c] gives every node of [g], in order, the [int] 1. *)
Definition all_one (g : nx.DiGraph) (c : list (string * nx.number)) : Prop :=
  c = (λ n, (n, nx.Int 1)) <$> nx.nodes g.

(** Every [last_activity] of [node_metadata] is of the kind [k]. *)
Definition kind_inv (k : bool) (nm : node_metadata_t) : Prop :=
  Forall (λ p, datetime.aware (NodeMeta.last_activity p.2) = k) nm.

(** Two messages of one sender, the first with a naive and the second with
    an aware timestamp. *)
Definition naive_then_aware : list Message.t :=
  [ {| Message.step_index := 0; Message.timestamp := datetime.Naive 1000;
       Message.sender := "A"; Message.receiver := Some "B";
       Message.message_type := MessageType.DELEGATION; Message.content := "hello" |};
    {| Message.step_index := 1; Message.timestamp := datetime.Aware 1001;
       Message.sender := "A"; Message.receiver := Some "B";
       Message.message_type := MessageType.DELEGATION; Message.content := "hello" |} ].

(** The sample model: scenario A, built by a new builder in an empty store. *)
Definition world_A : World := Eval vm_compute in (build_graph scenario_A world0).2.
Definition graph_A : nx.DiGraph := Eval vm_compute in default nx.empty (graph world_A.1).

(** The value a call returns, if it returns. *)
Definition returned {A} (r : Result A * World) : option A :=
  match r.1 with
  | Ok a => Some a
  | Raise _ => None
  end.

(** What is compared of an edge: end points, weight and the steps of the
    interactions. *)
Definition edge_summary (e : EdgeData.t) : string * string * Z * list Z :=
  (EdgeData.source e, EdgeData.target e, EdgeData.weight e,
   Interaction.step_index <$> EdgeData.interactions e).

(** The view of the sample model at the bound 0, and then the view at the
    bound 1, made in the state that the first call has left. *)
Definition view_A_0 : nx.DiGraph :=
  Eval vm_compute in default nx.empty (returned (filter_graph_by_step 0 world_A)).
Definition world_A_0 : World := Eval vm_compute in (filter_graph_by_step 0 world_A).2.
Definition view_A_1 : nx.DiGraph :=
  Eval vm_compute in default nx.empty (returned (filter_graph_by_step 1 world_A_0)).
Definition world_A_1 : World := Eval vm_compute in (filter_graph_by_step 1 world_A_0).2.

(** The messages of [l] from the sender [k.1] to the named receiver [k.2],
    in the order of [l]. *)
Definition from_to (k : string * string) (l : list Message.t) : list Message.t :=
  filter (λ m, Message.sender m = k.1 ∧ Message.receiver m = Some k.2 ∧ k.2 ≠ "") l.

(** The edge of the pair [k] that carries the messages [ms]. *)
Definition edge_of (k : string * string) (ms : list Message.t) : EdgeData.t :=
  {| EdgeData.source := k.1;
     EdgeData.target := k.2;
     EdgeData.interactions := new_interaction <$> ms;
     EdgeData.weight := Z.of_nat (length ms) |}.

Definition with_interaction (i : Interaction.t) (ed : EdgeData.t) : EdgeData.t :=
  {| EdgeData.source := EdgeData.source ed;
     EdgeData.target := EdgeData.target ed;
     EdgeData.interactions := EdgeData.interactions ed ++ [i];
     EdgeData.weight := EdgeData.weight ed + 1 |}.

Definition edge_key (m : Message.t) : string * string :=
  (Message.sender m, default "" (Message.receiver m)).

(** What [_add_interaction] does to the edges read out of the store. *)
Definition record_interaction (m : Message.t) (items : list (string * string * EdgeData.t))
  : list (string * string * EdgeData.t) :=
  if truthy (Message.receiver m) then
    if bool_decide (edge_key m ∈ items.*1) then
      (λ it, if bool_decide (it.1 = edge_key m)
             then (it.1, with_interaction (new_interaction m) it.2) else it) <$> items
    else items ++ [(edge_key m, edge_of (edge_key m) [m])]
  else items.

(** The sum of the weights of the edges. *)
Definition total_weight (items : list (string * string * EdgeData.t)) : Z :=
  foldr (λ it a, (EdgeData.weight it.2 + a)%Z) 0%Z items.

Definition record_all (l : list Message.t) (items : list (string * string * EdgeData.t))
  : list (string * string * EdgeData.t) :=
  foldl (λ items m, record_interaction m items) items l.

(** [items] are the edges that the messages [l] make. *)
Definition edges_of_messages (l : list Message.t)
    (items : list (string * string * EdgeData.t)) : Prop :=
  NoDup items.*1 ∧
  ∀ k ed, (k, ed) ∈ items ↔ from_to k l ≠ [] ∧ ed = edge_of k (from_to k l).

(** The dictionary [_add_or_update_node] makes for a node it has not seen. *)
Definition new_node (n : string) (t : datetime.t) : NodeMeta.t :=
  {| NodeMeta.id := n;
     NodeMeta.label := n;
     NodeMeta.message_count := 0;
     NodeMeta.first_appearance := t;
     NodeMeta.last_activity := t;
     NodeMeta.metadata := [] |}.

(** The calls of [_add_or_update_node] that [build_graph] makes for a
    message: for its sender and, when it names one, for its receiver. *)
Definition calls_of (m : Message.t) : list (string * Message.t) :=
  (Message.sender m, m) ::
  (if truthy (Message.receiver m) then [(default "" (Message.receiver m), m)] else []).

(** [t] is one of [ts], and none of [ts] is later. *)
Definition latest (t : datetime.t) (ts : list datetime.t) : Prop :=
  t ∈ ts ∧ Forall (λ t', datetime.lt t t' = Some false) ts.

(** The calls for the node [n], and those among them that count a message. *)
Definition calls_for (n : string) (cs : list (string * Message.t)) :=
  filter (λ c, c.1 = n) cs.
Definition counted_for (n : string) (cs : list (string * Message.t)) :=
  filter (λ c, c.1 = n ∧ Message.sender c.2 = n) cs.

Definition call_ok (cs : list (string * Message.t)) (n : string) (md : NodeMeta.t) : Prop :=
  NodeMeta.id md = n ∧ NodeMeta.label md = n ∧ NodeMeta.metadata md = [] ∧
  NodeMeta.message_count md = Z.of_nat (length (counted_for n cs)) ∧
  Some (NodeMeta.first_appearance md) = (λ c, Message.timestamp c.2) <$> head (calls_for n cs) ∧
  latest (NodeMeta.last_activity md)
    (NodeMeta.first_appearance md :: ((λ c, Message.timestamp c.2) <$> counted_for n cs)).

Definition call_inv (cs : list (string * Message.t)) (nm : node_metadata_t) : Prop :=
  NoDup nm.*1 ∧ (∀ n, n ∈ nm.*1 ↔ n ∈ cs.*1) ∧ ∀ n md, (n, md) ∈ nm → call_ok cs n md.

(** The node dictionary of [n] before the second half of the call for
    [(n, m)] after the calls [cs]. *)
Definition call_pre (cs : list (string * Message.t)) (n : string) (m : Message.t)
    (md : NodeMeta.t) : Prop :=
  NodeMeta.id md = n ∧ NodeMeta.label md = n ∧ NodeMeta.metadata md = [] ∧
  NodeMeta.message_count md = Z.of_nat (length (counted_for n cs)) ∧
  Some (NodeMeta.first_appearance md) =
    (λ c, Message.timestamp c.2) <$> head (calls_for n (cs ++ [(n, m)])) ∧
  latest (NodeMeta.last_activity md)
    (NodeMeta.first_appearance md :: ((λ c, Message.timestamp c.2) <$> counted_for n cs)).

(** The messages of [l] that [n] sent, and those that name [n] as their
    sender or as their receiver. *)
Definition sent_by (n : string) (l : list Message.t) : list Message.t :=
  filter (λ m, Message.sender m = n) l.
Definition naming (n : string) (l : list Message.t) : list Message.t :=
  filter (λ m, Message.sender m = n ∨ (Message.receiver m = Some n ∧ n ≠ "")) l.

(** A conversation with a broadcast, an agent that only broadcasts and a
    message an agent addresses to itself. *)
Definition scenario_B : list Message.t :=
  [ msg 0 "A" (Some "B") MessageType.DELEGATION;
    msg 1 "B" None MessageType.THOUGHT;
    msg 2 "C" None MessageType.OBSERVATION;
    msg 3 "A" (Some "A") MessageType.ACTION;
    msg 4 "B" (Some "A") MessageType.RESPONSE ].

Definition world_B : World := Eval vm_compute in (build_graph scenario_B world0).2.
Definition graph_B : nx.DiGraph := Eval vm_compute in default nx.empty (graph world_B.1).

(** Step indices do not decrease along the list. *)
Definition by_step (l : list Message.t) : Prop :=
  StronglySorted (λ a b, (Message.step_index a ≤ Message.step_index b)%Z) l.
Definition in_step_order (l : list Interaction.t) : Prop :=
  StronglySorted (λ a b, (Interaction.step_index a ≤ Interaction.step_index b)%Z) l.

(** The messages with a step index up to the bound. *)
Definition up_to (max_step : Z) (l : list Message.t) : list Message.t :=
  filter (λ m, (Message.step_index m ≤ max_step)%Z) l.

(** The ordered pairs of different elements of [l]. *)
Definition off_diagonal (l : list string) : list (string * string) :=
  l ≫= λ u, (λ v, (u, v)) <$> filter (λ v, v ≠ u) l.

(** What a snapshot of a graph is made of: unique node ids, unique pairs
    (source, target), edges between nodes of the snapshot, each with at
    least one interaction and with their number as weight. *)
Definition well_formed_snapshot (s : GraphSnapshot.t) : Prop :=
  NoDup (NodeData.id <$> GraphSnapshot.nodes s) ∧
  NoDup ((λ e, (EdgeData.source e, EdgeData.target e)) <$> GraphSnapshot.edges s) ∧
  ∀ e, e ∈ GraphSnapshot.edges s →
    EdgeData.source e ∈ NodeData.id <$> GraphSnapshot.nodes s ∧
    EdgeData.target e ∈ NodeData.id <$> GraphSnapshot.nodes s ∧
    EdgeData.interactions e ≠ [] ∧
    EdgeData.weight e = Z.of_nat (length (EdgeData.interactions e)).

(** The states of a session manager: what its methods make of a new one. *)
Inductive managed : SessionManager.t → Prop :=
| managed_new : managed SessionManager.__init__
| managed_create uuid4 now1 now2 messages framework graph_builder self :
    managed self →
    managed (SessionManager.create_session uuid4 now1 now2 messages framework
               graph_builder self).2
| managed_get now session_id self :
    managed self → managed (SessionManager.get_session now session_id self).2
| managed_delete session_id self :
    managed self → managed (SessionManager.delete_session session_id self).2
| managed_cleanup cfg now self :
    managed self → managed (SessionManager.cleanup_expired_sessions cfg now self).2.

(** Keys are unique, every session is filed under its id, and its two times
    are naive. *)
Definition sessions_inv (self : SessionManager.t) : Prop :=
  NoDup self.*1 ∧
  Forall (λ p, Session.id p.2 = p.1 ∧
               datetime.aware (Session.created_at p.2) = false ∧
               datetime.aware (Session.last_accessed p.2) = false) self.

(** The sessions that were not last accessed before [expiry_time]. *)
Definition alive (expiry_time : datetime.t) (self : SessionManager.t) : SessionManager.t :=
  filter (λ p, datetime.lt (Session.last_accessed p.2) expiry_time ≠ Some true) self.

(** The view of the second sample model at the bound 3. *)
Definition view_B_3 : nx.DiGraph :=
  Eval vm_compute in default nx.empty (returned (filter_graph_by_step 3 world_B)).
Definition world_B_3 : World := Eval vm_compute in (filter_graph_by_step 3 world_B).2.

(** A session manager with the two sample models, and the same after the
    first session was read. *)
Definition sessions_AB : SessionManager.t :=
  Eval vm_compute in
    (SessionManager.create_session "9f1c2d3e-0000-4000-8000-000000000002" 2000 2001
       scenario_B "autogen" world_B.1
       (SessionManager.create_session "5b6a7c8d-0000-4000-8000-000000000001" 1000 1001
          scenario_A "autogen" world_A.1 SessionManager.__init__).2).2.

(** Every character is one of ASCII. *)
Fixpoint is_ascii (s : string) : bool :=
  match s with
  | EmptyString => true
  | String c s' => bool_decide (Ascii.N_of_ascii c < 128)%N && is_ascii s'
  end.

(** The strings that [_infer_message_type] lowers are of ASCII. *)
Definition ascii_entry (entry : list (string * json.t)) : Prop :=
  ∀ k s, k ∈ ["type"; "role"] → dict_get k entry = Some (json.Str s) → is_ascii s = true.

(** An entry without a time, and one whose time is not a string. *)
Definition entry_plain : list (string * json.t) :=
  [("sender", json.Str "Manager"); ("recipient", json.Str "Coder");
   ("message", json.Str "Please implement the login page"); ("role", json.Str "user")].

(** An entry with neither a type nor a role. *)
Definition entry_bare : list (string * json.t) :=
  [("sender", json.Str "Manager"); ("message", json.Str "Please implement the login page")].

(** A parser that finds the messages of scenario A in every file. *)
Definition parse_A (file : string) : ParseOutcome := Parsed scenario_A.

(** The application after the upload of scenario A to a new one. *)
Definition app0 : App := {| session_manager := SessionManager.__init__; heap := Heap.empty |}.
Definition app_A : App :=
  Eval vm_compute in
    (upload.upload_log_file settings parse_A "log" (Some 3%Z) "autogen"
       "5b6a7c8d-0000-4000-8000-000000000001" 1000 1001 app0).2.

(** The graph [g] under construction in the store [h] is made of objects
    that the store [h0] did not have, and every object of [h0] is as it
    was. *)
Definition made_after (h0 : Heap.t) (g : nx.DiGraph) (h : Heap.t) : Prop :=
  preserves [] h0 h ∧
  Forall (λ e, (length (Heap.dicts h0) ≤ e.2)%nat ∧
               (length (Heap.lists h0) ≤ list_loc h e.2)%nat)
         (nx.edges g).

(** The builder of the session holds, in the store [h], the model that
    [build_graph] made of the messages of the session: the builder is as
    the call left it, and so is every object the call left. *)
Definition holds_model (s : Session.t) (h : Heap.t) : Prop :=
  ∃ w0 base w,
    build_graph (Session.messages s) w0 = (Ok base, w) ∧
    Session.graph_builder s = w.1 ∧
    preserves [] w.2 h.

(** The states of the application: what requests to the endpoints, in any
    number and order and with any arguments and outcomes, and cleanups of
    the session manager make of the state at the start. *)
Inductive serving : App → Prop :=
| serving_start : serving app0
| serving_upload cfg parse file size framework uuid4 now1 now2 app :
    serving app →
    serving (upload.upload_log_file cfg parse file size framework uuid4 now1 now2 app).2
| serving_get_graph graph_id step now app :
    serving app → serving (graph_api.get_graph graph_id step now app).2
| serving_get_graph_metrics graph_id now app :
    serving app → serving (graph_api.get_graph_metrics graph_id now app).2
| serving_get_graph_info isoformat graph_id now app :
    serving app → serving (graph_api.get_graph_info isoformat graph_id now app).2
| serving_delete_session session_id app :
    serving app → serving (upload.delete_session session_id app).2
| serving_cleanup cfg now app :
    serving app →
    serving {| session_manager :=
                 (SessionManager.cleanup_expired_sessions cfg now (session_manager app)).2;
               heap := heap app |}.

(** What holds in every state of the application. *)
Definition app_inv (app : App) : Prop :=
  managed (session_manager app) ∧
  Forall (λ p, holds_model p.2 (heap app)) (session_manager app).

(** A parser that finds the messages of scenario B in every file. *)
Definition parse_B (file : string) : ParseOutcome := Parsed scenario_B.

(** The application after the uploads of scenario A and then of scenario B,
    and after a request for a part of the graph of scenario B. *)
Definition app_AB : App :=
  Eval vm_compute in
    (upload.upload_log_file settings parse_B "log" (Some 3%Z) "autogen"
       "9f1c2d3e-0000-4000-8000-000000000002" 2000 2001 app_A).2.
Definition app_AB_read : App :=
  Eval vm_compute in (graph_api.get_graph "9f1c2d3e" (Some 3%Z) 3000 app_AB).2.

(** * Properties of the embedding *)

(** ** Insertion-ordered dictionaries *)

Section dictionaries.
Context {A : Type}.
Implicit Types (d : list (string * A)) (k : string).

Lemma get_None k d : dict_get k d = None ↔ k ∉ d.*1.
Proof.
  induction d as [|[k' x] d IH]; simpl.
  - split; [intros _; apply not_elem_of_nil | done].
  - rewrite not_elem_of_cons, <-IH. case_bool_decide as Hk.
    + split; [done|]. intros [? _]. congruence.
    + split; [intros ?; split; congruence|tauto].
Qed.

Lemma get_elem_of k d x : dict_get k d = Some x → (k, x) ∈ d.
Proof.
  induction d as [|[k' y] d IH]; simpl; [done|].
  case_bool_decide; intros ?; simplify_eq; [left | right; auto].
Qed.

Lemma get_Some k d x : NoDup d.*1 → (dict_get k d = Some x ↔ (k, x) ∈ d).
Proof.
  intros Hnd. split; [apply get_elem_of|].
  induction d as [|[k' y] d IH]; simpl in *; [by intros ?%elem_of_nil|].
  apply NoDup_cons in Hnd as [Hk Hnd].
  intros [?|Hin]%elem_of_cons; simplify_eq.
  - by rewrite bool_decide_eq_true_2.
  - rewrite bool_decide_eq_false_2; [auto|].
    intros ->. apply Hk, list_elem_of_fmap. by exists (k, x).
Qed.

End dictionaries.

(** ** Graph structure *)

Lemma edges_cons p g : nx.edges (p :: g) = nx.out_edges p ++ nx.edges g.
Proof. done. Qed.

Lemma edges_app g1 g2 : nx.edges (g1 ++ g2) = nx.edges g1 ++ nx.edges g2.
Proof. apply bind_app. Qed.

Lemma elem_of_edges u v d g :
  (u, v, d) ∈ nx.edges g ↔ ∃ e, (u, e) ∈ g ∧ (v, d) ∈ nx.succ e.
Proof.
  unfold nx.edges. rewrite list_elem_of_bind. split.
  - intros ([u' e] & Hin & Hg). unfold nx.out_edges in Hin.
    apply list_elem_of_fmap in Hin as ([v' d'] & ? & ?); simplify_eq/=.
    by exists e.
  - intros (e & Hg & Hs). exists (u, e). split; [|done].
    unfold nx.out_edges. apply list_elem_of_fmap. by exists (v, d).
Qed.

Lemma edge_source_node u v d g : (u, v, d) ∈ nx.edges g → u ∈ nx.nodes g.
Proof.
  intros (e & Hg & _)%elem_of_edges. apply list_elem_of_fmap. by exists (u, e).
Qed.

Lemma wf_graph_cons u e g :
  wf_graph ((u, e) :: g) ↔ (u ∉ nx.nodes g) ∧ NoDup (nx.succ e).*1 ∧ wf_graph g.
Proof.
  unfold wf_graph, nx.nodes. rewrite fmap_cons, NoDup_cons, Forall_cons. tauto.
Qed.

Lemma get_edge_elem g u v d :
  wf_graph g → (nx.get_edge u v g = Some d ↔ (u, v, d) ∈ nx.edges g).
Proof.
  intros [Hn Hs]. rewrite elem_of_edges. unfold nx.get_edge. split.
  - intros (e & He & Hd)%bind_Some. exists e. split; [by apply get_elem_of|].
    by apply get_elem_of.
  - intros (e & Hg & Hd). apply bind_Some. exists e.
    split; [by apply get_Some|]. apply get_Some; [|done].
    by apply (proj1 (Forall_forall _ _) Hs (u, e)).
Qed.

Lemma NoDup_edge_keys g : wf_graph g → NoDup (nx.edges g).*1.
Proof.
  induction g as [|[u e] g IH]; [intros _; constructor|].
  intros (Hu & He & Hg)%wf_graph_cons.
  rewrite edges_cons, fmap_app. simpl in *. apply NoDup_app. split_and!.
  - unfold nx.out_edges. rewrite <-list_fmap_compose.
    rewrite (list_fmap_ext _ ((λ v, (u, v)) ∘ fst) (nx.succ e)) by done.
    rewrite list_fmap_compose. apply NoDup_fmap_2; [|done].
    intros ???; by simplify_eq.
  - intros [u' v'] Hin Hin'.
    apply list_elem_of_fmap in Hin as ([[??]?] & ? & Hin); simplify_eq/=.
    apply list_elem_of_fmap in Hin as ([??] & ? & _); simplify_eq/=.
    apply list_elem_of_fmap in Hin' as ([[??]?] & ? & Hin'); simplify_eq/=.
    by apply edge_source_node in Hin'.
  - auto.
Qed.

Lemma filter_fmap_comm {A B} (f : A → B) (P : B → Prop) `{!∀ x, Decision (P x)}
    (l : list A) :
  filter P (f <$> l) = f <$> filter (λ x, P (f x)) l.
Proof.
  induction l as [|x l IH]; [done|]. rewrite fmap_cons, !filter_cons.
  case_decide; by rewrite ?fmap_cons, IH.
Qed.

Lemma filter_all {A} (P : A → Prop) `{!∀ x, Decision (P x)} (l : list A) :
  Forall P l → filter P l = l.
Proof.
  induction 1 as [|x l ? ? IH]; [done|]. by rewrite filter_cons_True, IH.
Qed.

Lemma filter_none {A} (P : A → Prop) `{!∀ x, Decision (P x)} (l : list A) :
  Forall (λ x, ¬ P x) l → filter P l = [].
Proof.
  induction 1 as [|x l ? ? IH]; [done|]. by rewrite filter_cons_False, IH.
Qed.

Lemma nodes_alter_node f n g : nx.nodes (nx.alter_node f n g) = nx.nodes g.
Proof.
  unfold nx.nodes, nx.alter_node. rewrite <-list_fmap_compose.
  apply list_fmap_ext. intros _ [k e] _. simpl. by case_bool_decide.
Qed.

Lemma alter_node_notin f n g : n ∉ nx.nodes g → nx.alter_node f n g = g.
Proof.
  intros Hn. unfold nx.alter_node. rewrite <-(list_fmap_id g) at 2.
  apply list_fmap_ext. intros i [k e] Hi. simpl.
  rewrite bool_decide_eq_false_2; [done|]. intros ->. apply Hn.
  apply list_elem_of_fmap. exists (n, e). split; [done|].
  by eapply list_elem_of_lookup_2.
Qed.

Lemma alter_node_cons f n k e g :
  nx.alter_node f n ((k, e) :: g) =
  (if bool_decide (k = n) then (k, f e) else (k, e)) :: nx.alter_node f n g.
Proof. done. Qed.

Lemma edges_alter_node_succ f n g :
  (∀ e, nx.succ (f e) = nx.succ e) → nx.edges (nx.alter_node f n g) = nx.edges g.
Proof.
  intros Hf. induction g as [|[k e] g IH]; [done|].
  rewrite alter_node_cons, !edges_cons, IH. f_equal.
  case_bool_decide; [|done]. unfold nx.out_edges. simpl. by rewrite Hf.
Qed.

Lemma wf_graph_alter_node f n g :
  (∀ e, NoDup (nx.succ e).*1 → NoDup (nx.succ (f e)).*1) →
  wf_graph g → wf_graph (nx.alter_node f n g).
Proof.
  intros Hf [Hn Hs]. split; [by rewrite nodes_alter_node|].
  unfold nx.alter_node. apply Forall_fmap. eapply Forall_impl; [exact Hs|].
  intros [k e] He. simpl in *. case_bool_decide; simpl; auto.
Qed.

(** [add_node] *)

Lemma add_node_spec n g :
  nx.add_node n g = g ∧ n ∈ nx.nodes g ∨
  nx.add_node n g = g ++ [(n, {| nx.attrs := None; nx.succ := [] |})] ∧ n ∉ nx.nodes g.
Proof.
  unfold nx.add_node, nx.has_node. case_bool_decide; [left | right]; done.
Qed.

Lemma edges_add_node n g : nx.edges (nx.add_node n g) = nx.edges g.
Proof.
  destruct (add_node_spec n g) as [[-> _]|[-> _]]; [done|].
  rewrite edges_app. unfold nx.edges at 2. simpl. by rewrite app_nil_r.
Qed.

Lemma elem_of_nodes_add_node n m g :
  m ∈ nx.nodes (nx.add_node n g) ↔ m = n ∨ m ∈ nx.nodes g.
Proof.
  destruct (add_node_spec n g) as [[-> ?]|[-> ?]].
  - split; [auto|]. by intros [->|?].
  - unfold nx.nodes. rewrite fmap_app, elem_of_app. simpl.
    rewrite list_elem_of_singleton. tauto.
Qed.

Lemma wf_graph_add_node n g : wf_graph g → wf_graph (nx.add_node n g).
Proof.
  destruct (add_node_spec n g) as [[-> ?]|[-> Hn]]; [done|].
  intros [Hnd Hs]. split.
  - unfold nx.nodes in *. rewrite fmap_app. apply NoDup_app. split_and!; [done| |].
    + intros x Hx ->%list_elem_of_singleton. done.
    + apply NoDup_singleton.
  - apply Forall_app. split; [done|]. apply Forall_singleton. simpl. constructor.
Qed.

Lemma get_app_l {A} k (d1 d2 : list (string * A)) :
  k ∈ d1.*1 → dict_get k (d1 ++ d2) = dict_get k d1.
Proof.
  induction d1 as [|[k' x] d1 IH]; simpl; [by intros ?%elem_of_nil|].
  case_bool_decide; [done|]. intros [?|?]%elem_of_cons; [congruence | auto].
Qed.

Lemma get_app_r {A} k (d1 d2 : list (string * A)) :
  k ∉ d1.*1 → dict_get k (d1 ++ d2) = dict_get k d2.
Proof.
  induction d1 as [|[k' x] d1 IH]; simpl; [done|].
  rewrite not_elem_of_cons. intros [? ?]. rewrite bool_decide_eq_false_2; auto.
Qed.

Lemma get_edge_add_node u v n g : nx.get_edge u v (nx.add_node n g) = nx.get_edge u v g.
Proof.
  destruct (add_node_spec n g) as [[-> _]|[-> Hn]]; [done|].
  unfold nx.get_edge. destruct (decide (u ∈ g.*1)) as [Hu|Hu].
  - by rewrite get_app_l.
  - rewrite get_app_r by done. rewrite (proj2 (get_None u g)) by done. simpl.
    case_bool_decide; done.
Qed.

(** Appending a successor: the new edge joins the edges of the graph. *)
Lemma edges_add_succ u v d g :
  NoDup (nx.nodes g) → u ∈ nx.nodes g →
  nx.edges
    (nx.alter_node (λ e, {| nx.attrs := nx.attrs e; nx.succ := nx.succ e ++ [(v, d)] |}) u g)
  ≡ₚ nx.edges g ++ [(u, v, d)].
Proof.
  induction g as [|[k e] g IH]; [by intros _ ?%elem_of_nil|].
  rewrite alter_node_cons, !edges_cons.
  unfold nx.nodes in *. rewrite fmap_cons, NoDup_cons.
  intros [Hk Hnd] Hu. case_bool_decide as Hku; simpl in Hk, Hu.
  - subst k. rewrite alter_node_notin by done.
    unfold nx.out_edges. simpl. rewrite fmap_app. simpl.
    rewrite <-!(assoc_L (++)). apply Permutation_app_head.
    apply (Permutation_app_comm [_]).
  - apply elem_of_cons in Hu as [?|Hu]; [congruence|].
    rewrite IH by done. by rewrite (assoc_L (++)).
Qed.

(** [remove_edge] *)

Lemma edges_remove_edge u v g :
  nx.edges (nx.remove_edge u v g) = filter (λ e, e.1 ≠ (u, v)) (nx.edges g).
Proof.
  unfold nx.remove_edge. induction g as [|[k e] g IH]; [done|].
  rewrite alter_node_cons, !edges_cons, filter_app, IH. f_equal.
  unfold nx.out_edges. rewrite filter_fmap_comm. simpl. case_bool_decide as Hk.
  - subst k. simpl. f_equal. apply list_filter_iff. intros [v' d']. simpl.
    split; [congruence|]. intros Hne ->. done.
  - simpl. f_equal. symmetry. apply filter_all, Forall_forall.
    intros [v' d'] _. simpl. congruence.
Qed.

Lemma NoDup_fst_filter {A B} (P : A * B → Prop) `{!∀ x, Decision (P x)} (l : list (A * B)) :
  NoDup l.*1 → NoDup (filter P l).*1.
Proof.
  induction l as [|[a b] l IH]; [done|]. rewrite fmap_cons, NoDup_cons.
  intros [Ha Hnd]. rewrite filter_cons. case_decide; [|auto].
  rewrite fmap_cons. apply NoDup_cons. split; [|auto].
  intros ([a' b'] & ? & [_ Hin]%list_elem_of_filter)%list_elem_of_fmap.
  simplify_eq/=. apply Ha, list_elem_of_fmap. by exists (a', b').
Qed.

Lemma wf_graph_remove_edge u v g : wf_graph g → wf_graph (nx.remove_edge u v g).
Proof.
  apply wf_graph_alter_node. intros e. simpl. apply NoDup_fst_filter.
Qed.

(** [remove_node] and [remove_nodes_from] *)

Lemma nodes_remove_node n g :
  nx.nodes (nx.remove_node n g) = filter (λ k, k ≠ n) (nx.nodes g).
Proof.
  unfold nx.nodes, nx.remove_node. rewrite <-list_fmap_compose.
  rewrite filter_fmap_comm. by apply list_fmap_ext.
Qed.

Lemma edges_remove_node n g :
  nx.edges (nx.remove_node n g) =
  filter (λ e, e.1.1 ≠ n ∧ e.1.2 ≠ n) (nx.edges g).
Proof.
  unfold nx.remove_node. induction g as [|[k e] g IH]; [done|].
  rewrite edges_cons, filter_app, <-IH.
  rewrite (filter_cons (λ p : string * nx.NodeEntry, p.1 ≠ n)). simpl.
  case_decide as Hk.
  - rewrite fmap_cons, edges_cons. f_equal. unfold nx.out_edges. simpl.
    rewrite filter_fmap_comm. simpl.
    f_equal. apply list_filter_iff. intros [v d]. simpl. tauto.
  - rewrite (filter_none (λ e0 : string * string * loc, e0.1.1 ≠ n ∧ e0.1.2 ≠ n));
      [done|]. apply Forall_forall.
    intros [[u v] d] ([v' d'] & ? & _)%list_elem_of_fmap. simplify_eq/=.
    by intros [? _].
Qed.

Lemma nodes_remove_nodes_from ns g :
  nx.nodes (nx.remove_nodes_from ns g) = filter (λ k, k ∉ ns) (nx.nodes g).
Proof.
  unfold nx.remove_nodes_from. revert g.
  induction ns as [|n ns IH]; intros g; simpl.
  - symmetry. apply filter_all, Forall_forall. intros ? _. apply not_elem_of_nil.
  - rewrite IH, nodes_remove_node, list_filter_filter. apply list_filter_iff.
    intros k. rewrite not_elem_of_cons. tauto.
Qed.

Lemma edges_remove_nodes_from ns g :
  nx.edges (nx.remove_nodes_from ns g) =
  filter (λ e, (e.1.1 ∉ ns) ∧ (e.1.2 ∉ ns)) (nx.edges g).
Proof.
  unfold nx.remove_nodes_from. revert g.
  induction ns as [|n ns IH]; intros g; simpl.
  - symmetry. apply filter_all, Forall_forall. intros ? _.
    split; apply not_elem_of_nil.
  - rewrite IH, edges_remove_node, list_filter_filter. apply list_filter_iff.
    intros e. rewrite !not_elem_of_cons. tauto.
Qed.

Lemma edges_foldl_remove_edge (rm : list (string * string)) g :
  nx.edges (foldl (λ g e, nx.remove_edge e.1 e.2 g) g rm) =
  filter (λ e, e.1 ∉ rm) (nx.edges g).
Proof.
  revert g. induction rm as [|[u v] rm IH]; intros g; simpl.
  - symmetry. apply filter_all, Forall_forall. intros ? _. apply not_elem_of_nil.
  - rewrite IH, edges_remove_edge, list_filter_filter. apply list_filter_iff.
    intros e. rewrite not_elem_of_cons. tauto.
Qed.

Lemma nodes_foldl_remove_edge (rm : list (string * string)) g :
  nx.nodes (foldl (λ g e, nx.remove_edge e.1 e.2 g) g rm) = nx.nodes g.
Proof.
  revert g. induction rm as [|[u v] rm IH]; intros g; simpl; [done|].
  rewrite IH. apply nodes_alter_node.
Qed.

(** A node is isolated exactly when no edge starts or ends at it. *)
Lemma degree_0 n g :
  nx.degree n g = 0%Z ↔ ∀ e, e ∈ nx.edges g → e.1.1 ≠ n ∧ e.1.2 ≠ n.
Proof.
  unfold nx.degree, nx.in_degree, nx.out_degree. split.
  - intros Hd e He.
    assert (filter (λ e, e.1.2 = n) (nx.edges g) = []) as Hi
      by (apply nil_length_inv; lia).
    assert (filter (λ e, e.1.1 = n) (nx.edges g) = []) as Ho
      by (apply nil_length_inv; lia).
    split; intros Heq.
    + by apply (filter_nil_not_elem_of _ _ e Ho).
    + by apply (filter_nil_not_elem_of _ _ e Hi).
  - intros Hn. rewrite !filter_none; [done| |]; apply Forall_forall;
      intros e He; by destruct (Hn e He).
Qed.

(** After [remove_nodes_from(isolates(G))] the edges are those of [G] and
    the nodes are those that an edge touches. *)
Lemma edges_remove_isolates g :
  nx.edges (nx.remove_nodes_from (nx.isolates g) g) = nx.edges g.
Proof.
  rewrite edges_remove_nodes_from. apply filter_all, Forall_forall.
  intros e He. unfold nx.isolates.
  split; intros [Hd _]%list_elem_of_filter; by destruct (proj1 (degree_0 _ _) Hd e He).
Qed.

Lemma elem_of_nodes_remove_isolates n g :
  n ∈ nx.nodes (nx.remove_nodes_from (nx.isolates g) g) ↔
  n ∈ nx.nodes g ∧ ∃ e, e ∈ nx.edges g ∧ (e.1.1 = n ∨ e.1.2 = n).
Proof.
  rewrite nodes_remove_nodes_from, list_elem_of_filter. unfold nx.isolates.
  rewrite list_elem_of_filter, degree_0. split.
  - intros [Hiso Hn]. split; [done|].
    destruct (decide (Exists (λ e, e.1.1 = n ∨ e.1.2 = n) (nx.edges g))) as [Hex|Hex].
    + apply Exists_exists in Hex as (e & ? & ?). by exists e.
    + exfalso. apply Hiso. split; [|done]. intros e He.
      split; intros Heq; apply Hex, Exists_exists; exists e; auto.
  - intros [Hn (e & He & Hor)]. split; [|done]. intros [Hiso _].
    destruct (Hiso e He). by destruct Hor.
Qed.

(** ** The store *)

Lemma preserves_refl ds h : preserves ds h h.
Proof. by split_and!. Qed.

Lemma preserves_trans ds h1 h2 h3 :
  preserves ds h1 h2 → preserves ds h2 h3 → preserves ds h1 h3.
Proof.
  intros (Hl1 & Hn1 & Hd1) (Hl2 & Hn2 & Hd2). split_and!.
  - by etrans.
  - lia.
  - intros d Hd Hds. rewrite Hd2, Hd1; [done..|lia|done].
Qed.

Lemma preserves_weaken ds ds' h h' :
  ds ⊆ ds' → preserves ds h h' → preserves ds' h h'.
Proof.
  intros Hsub (Hl & Hn & Hd). split_and!; [done..|].
  intros d ? Hds. apply Hd; [done|]. intros ?. by apply Hds, Hsub.
Qed.

Lemma list_at_prefix h h' l :
  Heap.lists h `prefix_of` Heap.lists h' → l < length (Heap.lists h) →
  Heap.list_at h' l = Heap.list_at h l.
Proof.
  intros [k Hk] Hl. unfold Heap.list_at. by rewrite Hk, lookup_app_l.
Qed.

Lemma to_EdgeData_preserved ds h h' d :
  preserves ds h h' → valid h d → d ∉ ds →
  Heap.dict_at h' d = Heap.dict_at h d ∧ to_EdgeData h' d = to_EdgeData h d ∧ valid h' d.
Proof.
  intros (Hl & Hn & Hd) [Hv1 Hv2] Hds.
  assert (Heap.dict_at h' d = Heap.dict_at h d) as Heq.
  { unfold Heap.dict_at. by rewrite Hd. }
  split; [done|]. split.
  - unfold to_EdgeData. rewrite Heq. f_equal. by apply list_at_prefix.
  - split; [lia|]. rewrite Heq. apply prefix_length in Hl. lia.
Qed.

Lemma dict_at_set d a h d' :
  d < length (Heap.dicts h) →
  Heap.dict_at (Heap.set_dict d a h) d' = if decide (d' = d) then a else Heap.dict_at h d'.
Proof.
  intros Hd. unfold Heap.dict_at, Heap.set_dict. simpl. case_decide.
  - subst. by rewrite list_lookup_insert_eq.
  - by rewrite list_lookup_insert_ne.
Qed.

(** ** [copy] *)

Lemma out_edges_fst u e : (nx.out_edges (u, e)).*1 = (λ v, (u, v)) <$> (nx.succ e).*1.
Proof.
  unfold nx.out_edges. rewrite <-!list_fmap_compose. by apply list_fmap_ext.
Qed.

Lemma out_edges_snd u e : (nx.out_edges (u, e)).*2 = (nx.succ e).*2.
Proof.
  unfold nx.out_edges. rewrite <-!list_fmap_compose. by apply list_fmap_ext.
Qed.

Lemma same_shape_nodes g g' : same_shape g g' → nx.nodes g' = nx.nodes g.
Proof.
  induction 1 as [|[??] [??] g g' (? & _) _ IH]; [done|].
  unfold nx.nodes in *. rewrite !fmap_cons, IH. simpl in *. by f_equal.
Qed.

Lemma same_shape_edge_keys g g' : same_shape g g' → (nx.edges g').*1 = (nx.edges g).*1.
Proof.
  induction 1 as [|[u e] [u' e'] g g' (? & _ & Hs) _ IH]; [done|].
  rewrite !edges_cons, !fmap_app, IH, !out_edges_fst. simpl in *. by rewrite Hs; subst.
Qed.

Lemma same_shape_wf g g' : same_shape g g' → wf_graph g → wf_graph g'.
Proof.
  intros Hsh [Hn Hs]. split; [by rewrite (same_shape_nodes g g')|].
  induction Hsh as [|[u e] [u' e'] g g' (? & _ & Hk) _ IH]; [done|].
  apply Forall_cons in Hs as [He Hs]. unfold nx.nodes in Hn.
  rewrite fmap_cons in Hn. apply NoDup_cons in Hn as [_ Hn].
  constructor; [|by apply IH]. simpl in *. by rewrite <-Hk.
Qed.

Lemma copy_succ_spec s h s' h' :
  nx.copy_succ s h = (s', h') →
  Forall (λ d, d < length (Heap.dicts h)) s.*2 →
  s'.*1 = s.*1 ∧ s'.*2 = seq (length (Heap.dicts h)) (length s) ∧
  Heap.lists h' = Heap.lists h ∧
  Heap.dicts h' = Heap.dicts h ++ (Heap.dict_at h <$> s.*2).
Proof.
  revert h s' h'. induction s as [|[v d] s IH]; intros h s' h' Hc Hv; csimpl in *.
  - simplify_eq. by rewrite app_nil_r.
  - destruct (nx.copy_succ s _) as [s'' h2] eqn:Hrec. simplify_eq.
    apply Forall_cons in Hv as [Hd Hv].
    apply IH in Hrec as (Hk & Hl & Hls & Hds); csimpl in *.
    + rewrite length_app in Hl. csimpl in Hl.
      split_and!; csimpl; [by rewrite Hk| |done|].
      * f_equal. rewrite Hl. f_equal. lia.
      * rewrite Hds, <-(assoc_L (++)). csimpl. do 2 f_equal.
        apply Forall_fmap_ext_1. eapply Forall_impl; [exact Hv|].
        intros d0 Hd0. unfold Heap.dict_at. simpl. by rewrite lookup_app_l.
    + eapply Forall_impl; [exact Hv|]. intros d0 Hd0. simpl in *.
      rewrite length_app. lia.
Qed.

Lemma copy_spec g h g' h' :
  nx.copy g h = (g', h') →
  Forall (λ d, d < length (Heap.dicts h)) (nx.edges g).*2 →
  same_shape g g' ∧
  (nx.edges g').*2 = seq (length (Heap.dicts h)) (length (nx.edges g)) ∧
  Heap.lists h' = Heap.lists h ∧
  Heap.dicts h' = Heap.dicts h ++ (Heap.dict_at h <$> (nx.edges g).*2).
Proof.
  revert h g' h'. induction g as [|[u e] g IH]; intros h g' h' Hc Hv.
  - simpl in Hc. simplify_eq. split_and!; [constructor|done..|by rewrite app_nil_r].
  - rewrite edges_cons, fmap_app, out_edges_snd in Hv. simpl in Hc.
    destruct (nx.copy_succ _ _) as [s h1] eqn:Hs.
    destruct (nx.copy g h1) as [g'' h2] eqn:Hrec. simplify_eq.
    apply Forall_app in Hv as [Hv1 Hv2].
    apply copy_succ_spec in Hs as (Hk & Hl & Hls & Hds); [|done].
    assert (length (nx.out_edges (u, e)) = length (nx.succ e)) as Hlen
      by (unfold nx.out_edges; by rewrite length_fmap).
    apply IH in Hrec as (Hsh & Hl2 & Hls2 & Hds2).
    + split_and!.
      * constructor; [done|done].
      * rewrite !edges_cons, fmap_app, out_edges_snd. cbn [nx.succ].
        rewrite Hl, Hl2, length_app, Hlen, Hds, length_app, !length_fmap.
        by rewrite seq_app.
      * congruence.
      * rewrite Hds2, Hds, edges_cons, !fmap_app, out_edges_snd, <-(assoc_L (++)).
        do 2 f_equal. apply Forall_fmap_ext_1. eapply Forall_impl; [exact Hv2|].
        intros d0 Hd0. simpl. unfold Heap.dict_at. rewrite Hds.
        by rewrite lookup_app_l.
    + eapply Forall_impl; [exact Hv2|]. intros d0 Hd0. simpl in *.
      rewrite Hds, length_app. lia.
Qed.

Lemma fmap_seq_app_r {A B} (f : option A → B) (l k : list A) :
  (λ i, f ((l ++ k) !! i)) <$> seq (length l) (length k) = (λ x, f (Some x)) <$> k.
Proof.
  apply list_eq. intros i. rewrite !list_lookup_fmap.
  destruct (decide (i < length k)) as [Hi|Hi].
  - rewrite lookup_seq_lt by done. simpl.
    rewrite lookup_app_r by lia. replace (length l + i - length l) with i by lia.
    destruct (lookup_lt_is_Some_2 k i Hi) as [x Hx]. by rewrite Hx.
  - rewrite lookup_seq_ge by lia. by rewrite lookup_ge_None_2 by lia.
Qed.

Lemma fmap_pair_ext {A B C} (f f' : B → C) (l l' : list (A * B)) :
  l'.*1 = l.*1 → f' <$> l'.*2 = f <$> l.*2 →
  (λ e, (e.1, f' e.2)) <$> l' = (λ e, (e.1, f e.2)) <$> l.
Proof.
  revert l'. induction l as [|[a b] l IH]; intros [|[a' b'] l'] H1 H2;
    csimpl in *; simplify_eq; [done|]. f_equal; [by f_equal|by apply IH].
Qed.

(** The copy reads like the original, its dictionaries are new and distinct,
    and nothing of the original store is touched. *)
Lemma copy_read g h g' h' :
  nx.copy g h = (g', h') → graph_valid h g →
  same_shape g g' ∧ edges_data h' g' = edges_data h g ∧ graph_valid h' g' ∧
  NoDup (nx.edges g').*2 ∧
  Forall (λ d, length (Heap.dicts h) ≤ d)%nat (nx.edges g').*2 ∧
  preserves [] h h'.
Proof.
  intros Hc Hv.
  assert (Forall (λ d, d < length (Heap.dicts h)) (nx.edges g).*2) as Hv'.
  { eapply Forall_impl; [exact Hv|]. by intros d [? _]. }
  destruct (copy_spec _ _ _ _ Hc Hv') as (Hsh & Hl & Hls & Hds).
  assert (Heap.dict_at h' <$> (nx.edges g').*2 = Heap.dict_at h <$> (nx.edges g).*2)
    as Hread.
  { rewrite Hl. unfold Heap.dict_at at 1. rewrite Hds.
    replace (length (nx.edges g))
      with (length (Heap.dict_at h <$> (nx.edges g).*2)) by (by rewrite !length_fmap).
    rewrite (fmap_seq_app_r (default EdgeAttr.empty)). apply list_fmap_id. }
  split_and!; [done| | | | |].
  - apply fmap_pair_ext; [by apply same_shape_edge_keys|].
    unfold to_EdgeData, Heap.list_at. rewrite Hls.
    set (F := λ a : EdgeAttr.t,
           {| EdgeData.source := EdgeAttr.source a;
              EdgeData.target := EdgeAttr.target a;
              EdgeData.interactions :=
                default [] (Heap.lists h !! EdgeAttr.interactions a);
              EdgeData.weight := EdgeAttr.weight a |}).
    change (F ∘ Heap.dict_at h' <$> (nx.edges g').*2 =
            F ∘ Heap.dict_at h <$> (nx.edges g).*2).
    by rewrite !list_fmap_compose, Hread.
  - unfold graph_valid, valid in *. rewrite Hls.
    apply Forall_and. split.
    + rewrite Hl, Hds, length_app, length_fmap, length_fmap.
      apply Forall_forall. intros d [? ?]%elem_of_seq. lia.
    + apply Forall_and in Hv as [_ Hv].
      apply (Forall_fmap (Heap.dict_at h')
               (λ a, EdgeAttr.interactions a < length (Heap.lists h))).
      rewrite Hread. by apply Forall_fmap.
  - rewrite Hl. apply NoDup_seq.
  - rewrite Hl. apply Forall_forall. intros d [? _]%elem_of_seq. lia.
  - split_and!; [by rewrite Hls|rewrite Hds, length_app; lia|].
    intros d Hd _. by rewrite Hds, lookup_app_l.
Qed.

(** ** The loop over the edges of the copy *)

Lemma filter_edges_cons max_step u v d es h rm :
  filter_edges max_step ((u, v, d) :: es) h rm =
  match kept max_step h d with
  | _ :: _ => filter_edges max_step es (assign_kept (kept max_step h d) d h) rm
  | [] => filter_edges max_step es h (rm ++ [(u, v)])
  end.
Proof. done. Qed.

Lemma assign_kept_spec x d h :
  valid h d →
  preserves [d] h (assign_kept x d h) ∧
  length (Heap.dicts (assign_kept x d h)) = length (Heap.dicts h) ∧
  valid (assign_kept x d h) d ∧
  to_EdgeData (assign_kept x d h) d =
    {| EdgeData.source := EdgeData.source (to_EdgeData h d);
       EdgeData.target := EdgeData.target (to_EdgeData h d);
       EdgeData.interactions := x;
       EdgeData.weight := Z.of_nat (length x) |}.
Proof.
  intros [Hd Hl]. unfold assign_kept, Heap.alloc_list.
  set (h1 := {| Heap.lists := Heap.lists h ++ [x]; Heap.dicts := Heap.dicts h |}).
  assert (Heap.dict_at h1 d = Heap.dict_at h d) as -> by done.
  rewrite (dict_at_set d _ h1 d) by done. rewrite decide_True by done.
  set (h2 := Heap.set_dict d _ h1).
  assert (length (Heap.dicts h2) = length (Heap.dicts h)) as Hlen2
    by (unfold h2; simpl; by rewrite length_insert).
  split_and!.
  - split_and!; simpl.
    + by apply prefix_app_r.
    + rewrite !length_insert. lia.
    + intros d' _ [Hd' _]%not_elem_of_cons. by rewrite !list_lookup_insert_ne by done.
  - simpl. by rewrite !length_insert.
  - split; simpl; [by rewrite !length_insert|].
    rewrite (dict_at_set d _ h2 d) by lia. rewrite decide_True by done.
    simpl. rewrite length_app. simpl. lia.
  - unfold to_EdgeData. rewrite (dict_at_set d _ h2 d) by lia.
    rewrite decide_True by done. simpl. f_equal.
    unfold Heap.list_at. simpl. by rewrite list_lookup_middle.
Qed.

Lemma filter_ext_in {A} (P Q : A → Prop) `{!∀ x, Decision (P x), !∀ x, Decision (Q x)}
    (l : list A) :
  Forall (λ x, P x ↔ Q x) l → filter P l = filter Q l.
Proof.
  induction 1 as [|x l Hx _ IH]; [done|]. rewrite !filter_cons, IH.
  destruct (decide (P x)), (decide (Q x)); tauto.
Qed.

Lemma filter_edges_spec max_step es : ∀ h rm h' rm',
  filter_edges max_step es h rm = (h', rm') →
  NoDup es.*2 → Forall (valid h) es.*2 →
  preserves es.*2 h h' ∧
  length (Heap.dicts h') = length (Heap.dicts h) ∧
  rm' = rm ++ (filter (λ e, kept max_step h e.2 = []) es).*1 ∧
  Forall (λ e, kept max_step h e.2 ≠ [] →
               to_EdgeData h' e.2 = filtered_data max_step (to_EdgeData h e.2)) es.
Proof.
  induction es as [|[[u v] d] es IH]; intros h rm h' rm' Hfe Hnd Hv.
  - simpl in Hfe. simplify_eq. split_and!; [apply preserves_refl|done| |done].
    by rewrite app_nil_r.
  - rewrite filter_edges_cons in Hfe. rewrite fmap_cons in Hnd, Hv.
    apply NoDup_cons in Hnd as [Hd Hnd]. apply Forall_cons in Hv as [Hvd Hv].
    simpl in Hd, Hvd. destruct (kept max_step h d) as [|i x] eqn:Hk.
    + apply IH in Hfe as (Hp & Hlen & Hrm & Hall); [|done..].
      split_and!; [|done| |].
      * eapply preserves_weaken; [|done]. rewrite fmap_cons.
        by apply list_subseteq_cons.
      * rewrite filter_cons_True by done. rewrite fmap_cons, Hrm.
        by rewrite <-(assoc_L (++)).
      * constructor; [|done]. simpl. by rewrite Hk.
    + rewrite <-Hk in Hfe.
      destruct (assign_kept_spec (kept max_step h d) d h Hvd)
        as (Hp1 & Hlen1 & Hvd1 & Hread1).
      set (h3 := assign_kept (kept max_step h d) d h) in *.
      assert (Forall (λ e, to_EdgeData h3 e.2 = to_EdgeData h e.2 ∧ valid h3 e.2) es)
        as Hsame.
      { apply Forall_forall. intros e He.
        assert (e.2 ∈ es.*2) as He2 by (apply list_elem_of_fmap; by exists e).
        destruct (to_EdgeData_preserved [d] h h3 e.2) as (_ & ? & ?); [done| |  |done].
        - by apply (proj1 (Forall_forall _ _) Hv).
        - intros Heq%list_elem_of_singleton. by rewrite Heq in He2. }
      apply IH in Hfe as (Hp & Hlen & Hrm & Hall); [|done|].
      2:{ apply Forall_fmap. eapply Forall_impl; [exact Hsame|]. by intros e [_ ?]. }
      split_and!.
      * eapply preserves_trans.
        -- eapply preserves_weaken; [|exact Hp1]. rewrite fmap_cons.
           apply list_subseteq_skip, list_subseteq_nil.
        -- pose proof Hp1 as (_ & Hn1 & _).
           destruct Hp as (Hl & Hn & Hdi). split_and!; [done..|].
           intros d' Hd' Hd''. rewrite fmap_cons in Hd''.
           apply not_elem_of_cons in Hd'' as [_ ?]. by apply Hdi.
      * lia.
      * rewrite filter_cons_False by (simpl; by rewrite Hk).
        rewrite Hrm. do 2 f_equal. apply filter_ext_in.
        eapply Forall_impl; [exact Hsame|]. intros e [He _]. unfold kept. by rewrite He.
      * constructor.
        -- intros _. simpl.
           destruct (to_EdgeData_preserved es.*2 h3 h' d) as (_ & -> & _); [done..|].
           rewrite Hread1. unfold filtered_data, kept. done.
        -- apply Forall_forall. intros e He Hke.
           pose proof (proj1 (Forall_forall _ _) Hsame e He) as [Heq _].
           pose proof (proj1 (Forall_forall _ _) Hall e He) as Hres.
           unfold kept in Hres, Hke. rewrite Heq in Hres. auto.
Qed.

(** ** Node attributes *)

Lemma node_attrs_fst g : (node_attrs g).*1 = nx.nodes g.
Proof.
  unfold node_attrs, nx.nodes. rewrite <-list_fmap_compose. by apply list_fmap_ext.
Qed.

Lemma node_attrs_same_shape g g' : same_shape g g' → node_attrs g' = node_attrs g.
Proof.
  induction 1 as [|[u e] [u' e'] g g' (? & ? & _) _ IH]; [done|].
  unfold node_attrs in *. rewrite !fmap_cons, IH. simpl in *. congruence.
Qed.

Lemma node_attrs_alter_node f n g :
  (∀ e, nx.attrs (f e) = nx.attrs e) → node_attrs (nx.alter_node f n g) = node_attrs g.
Proof.
  intros Hf. unfold node_attrs, nx.alter_node. rewrite <-list_fmap_compose.
  apply list_fmap_ext. intros _ [k e] _. simpl. case_bool_decide; simpl; by rewrite ?Hf.
Qed.

Lemma node_attrs_foldl_remove_edge (rm : list (string * string)) g :
  node_attrs (foldl (λ g e, nx.remove_edge e.1 e.2 g) g rm) = node_attrs g.
Proof.
  revert g. induction rm as [|[u v] rm IH]; intros g; simpl; [done|].
  rewrite IH. by apply node_attrs_alter_node.
Qed.

Lemma node_attrs_remove_node n g :
  node_attrs (nx.remove_node n g) = filter (λ p, p.1 ≠ n) (node_attrs g).
Proof.
  unfold node_attrs, nx.remove_node. rewrite <-list_fmap_compose.
  rewrite filter_fmap_comm. by apply list_fmap_ext.
Qed.

Lemma node_attrs_remove_nodes_from ns g :
  node_attrs (nx.remove_nodes_from ns g) = filter (λ p, p.1 ∉ ns) (node_attrs g).
Proof.
  unfold nx.remove_nodes_from. revert g.
  induction ns as [|n ns IH]; intros g; simpl.
  - symmetry. apply filter_all, Forall_forall. intros ? _. apply not_elem_of_nil.
  - rewrite IH, node_attrs_remove_node, list_filter_filter. apply list_filter_iff.
    intros p. rewrite not_elem_of_cons. tauto.
Qed.

Lemma convert_nodes_Ok g :
  all_attrs g → ∃ ns, convert_nodes g = Ok ns ∧ length ns = length g.
Proof.
  unfold all_attrs, node_attrs. induction g as [|[u e] g IH].
  - intros _. by exists [].
  - rewrite fmap_cons. intros [[md Hmd] Hall]%Forall_cons. simpl in *.
    destruct (IH Hall) as (ns & -> & Hlen). rewrite Hmd. simpl.
    eexists. split; [done|]. simpl. by rewrite Hlen.
Qed.

(** ** [filter_graph_by_step] on a valid graph *)

Lemma omap_view_item max_step h (es : list (string * string * loc)) :
  omap (view_item max_step) ((λ e, (e.1, to_EdgeData h e.2)) <$> es) =
  (λ e, (e.1, filtered_data max_step (to_EdgeData h e.2))) <$>
    filter (λ e, kept max_step h e.2 ≠ []) es.
Proof.
  induction es as [|e es IH]; [done|]. rewrite fmap_cons, filter_cons. csimpl.
  rewrite IH. unfold view_item at 1. simpl.
  destruct (decide (kept max_step h e.2 ≠ [])) as [Hk|Hk]; unfold kept in Hk;
    destruct (keep max_step _); [by destruct Hk|done|done|by destruct Hk].
Qed.

Lemma NoDup_fst_inj {A B} (l : list (A * B)) x y :
  NoDup l.*1 → x ∈ l → y ∈ l → x.1 = y.1 → x = y.
Proof.
  induction l as [|[a b] l IH]; [by intros _ ?%elem_of_nil|].
  rewrite fmap_cons, NoDup_cons. intros [Ha Hnd] Hx Hy Heq.
  apply elem_of_cons in Hx as [->|Hx]; apply elem_of_cons in Hy as [->|Hy];
    [done| | |by apply IH].
  - exfalso. apply Ha. simpl in *. rewrite Heq. apply list_elem_of_fmap. by exists y.
  - exfalso. apply Ha. simpl in *. rewrite <-Heq. apply list_elem_of_fmap. by exists x.
Qed.

Lemma wf_graph_foldl_remove_edge (rm : list (string * string)) g :
  wf_graph g → wf_graph (foldl (λ g e, nx.remove_edge e.1 e.2 g) g rm).
Proof.
  revert g. induction rm as [|[u v] rm IH]; intros g Hg; simpl; [done|].
  by apply IH, wf_graph_remove_edge.
Qed.

Lemma wf_graph_remove_node n g : wf_graph g → wf_graph (nx.remove_node n g).
Proof.
  intros [Hn Hs]. split.
  - rewrite nodes_remove_node. by apply NoDup_filter.
  - unfold nx.remove_node. apply Forall_fmap.
    apply (Forall_impl (λ p, NoDup (nx.succ p.2).*1)).
    + apply Forall_forall. intros p [_ Hp]%list_elem_of_filter.
      by apply (proj1 (Forall_forall _ _) Hs).
    + intros [k e] He. simpl in *. by apply NoDup_fst_filter.
Qed.

Lemma wf_graph_remove_nodes_from ns g :
  wf_graph g → wf_graph (nx.remove_nodes_from ns g).
Proof.
  unfold nx.remove_nodes_from. revert g.
  induction ns as [|n ns IH]; intros g Hg; simpl; [done|].
  by apply IH, wf_graph_remove_node.
Qed.

Lemma filter_graph_spec max_step self h g :
  built self = Some g → wf_graph g → graph_valid h g →
  ∃ view h',
    filter_graph_by_step max_step (self, h) = (Ok view, (self, h')) ∧
    edges_data h' view = omap (view_item max_step) (edges_data h g) ∧
    (∀ n, n ∈ nx.nodes view ↔
          n ∈ nx.nodes g ∧ ∃ e, e ∈ nx.edges view ∧ (e.1.1 = n ∨ e.1.2 = n)) ∧
    node_attrs view = filter (λ p, p.1 ∈ nx.nodes view) (node_attrs g) ∧
    wf_graph view ∧
    preserves [] h h'.
Proof.
  intros Hb Hwf Hv. unfold filter_graph_by_step. rewrite Hb.
  destruct (nx.copy g h) as [g1 h1] eqn:Hc.
  destruct (copy_read _ _ _ _ Hc Hv) as (Hsh & Hed & Hv1 & Hnd1 & Hge & Hp1).
  destruct (filter_edges max_step (nx.edges g1) h1 []) as [h2 rm] eqn:Hfe.
  destruct (filter_edges_spec _ _ _ _ _ _ Hfe Hnd1 Hv1) as (Hp2 & Hlen & Hrm & Hall).
  simpl in Hrm.
  set (g2 := foldl (λ g e, nx.remove_edge e.1 e.2 g) g1 rm).
  assert (wf_graph g1) as Hwf1 by by eapply same_shape_wf.
  assert (nx.edges g2 = filter (λ e, kept max_step h1 e.2 ≠ []) (nx.edges g1)) as He2.
  { unfold g2. rewrite edges_foldl_remove_edge. apply filter_ext_in, Forall_forall.
    intros e He. rewrite Hrm. split.
    - intros Hnin Hk. apply Hnin, list_elem_of_fmap. exists e. split; [done|].
      by apply list_elem_of_filter.
    - intros Hk (e' & Heq & [Hk' He']%list_elem_of_filter)%list_elem_of_fmap.
      apply Hk. rewrite (NoDup_fst_inj (nx.edges g1) e e'); auto using NoDup_edge_keys. }
  assert (nx.nodes g2 = nx.nodes g) as Hn2
    by (unfold g2; by rewrite nodes_foldl_remove_edge, (same_shape_nodes g g1)).
  assert (node_attrs g2 = node_attrs g) as Ha2
    by (unfold g2; by rewrite node_attrs_foldl_remove_edge, (node_attrs_same_shape g g1)).
  assert (wf_graph g2) as Hwf2 by by apply wf_graph_foldl_remove_edge.
  clearbody g2. eexists _, _. split; [done|]. split_and!.
  - unfold edges_data at 1. rewrite edges_remove_isolates, He2.
    rewrite <-Hed. unfold edges_data. rewrite omap_view_item.
    apply Forall_fmap_ext_1, Forall_forall. intros e [Hk He]%list_elem_of_filter.
    f_equal. by apply (proj1 (Forall_forall _ _) Hall e He).
  - intros n. by rewrite elem_of_nodes_remove_isolates, edges_remove_isolates, Hn2.
  - rewrite node_attrs_remove_nodes_from, nodes_remove_nodes_from, Ha2, Hn2.
    apply filter_ext_in, Forall_forall. intros p Hp. rewrite list_elem_of_filter.
    split; [|tauto]. intros Hiso. split; [done|]. rewrite <-node_attrs_fst.
    apply list_elem_of_fmap. by exists p.
  - by apply wf_graph_remove_nodes_from.
  - destruct Hp2 as (Hl2 & Hlen2 & Hd2). destruct Hp1 as (Hl1 & Hlen1 & Hd1).
    split_and!; [by etrans|lia|]. intros d Hd _.
    rewrite Hd2, Hd1; [done|done|apply not_elem_of_nil|lia|].
    intros Hin. apply (proj1 (Forall_forall _ _) Hge) in Hin. lia.
Qed.

(** ** [build_graph] *)

Lemma insert_by_step_perm m l : insert_by_step m l ≡ₚ m :: l.
Proof.
  induction l as [|m' l IH]; simpl; [done|]. case_bool_decide; [done|].
  rewrite IH. apply Permutation_swap.
Qed.

Lemma sorted_by_step_perm l : sorted_by_step l ≡ₚ l.
Proof.
  unfold sorted_by_step. induction l as [|m l IH]; simpl; [done|].
  by rewrite insert_by_step_perm, IH.
Qed.

Lemma sorted_by_step_length l : length (sorted_by_step l) = length l.
Proof. by rewrite sorted_by_step_perm. Qed.

Lemma store_inv_valid msgs h g : store_inv msgs h g → graph_valid h g.
Proof.
  intros (_ & _ & _ & Hall). apply Forall_fmap.
  eapply Forall_impl; [exact Hall|]. by intros e [? _].
Qed.

Lemma alter_meta_keys f k (nm : node_metadata_t) : (alter_meta f k nm).*1 = nm.*1.
Proof.
  unfold alter_meta. rewrite <-list_fmap_compose.
  apply list_fmap_ext. intros _ [??] _. simpl. by case_bool_decide.
Qed.

(** The second half of [_add_or_update_node] keeps the keys of
    [node_metadata] and does not touch the graph. *)
Lemma add_or_update_node_keys n m nm g r nm' g' :
  _add_or_update_node n m (nm, g) = (r, (nm', g')) →
  (n ∈ nm.*1 ∧ nm'.*1 = nm.*1 ∧ g' = g) ∨
  ((n ∉ nm.*1) ∧ nm'.*1 = nm.*1 ++ [n] ∧ g' = nx.add_node n g).
Proof.
  unfold _add_or_update_node. cbn [fst snd].
  destruct (decide (n ∈ nm.*1)) as [Hin|Hin].
  - rewrite bool_decide_eq_true_2 by done. intros Heq. left.
    repeat case_match; simplify_eq; by rewrite ?alter_meta_keys.
  - rewrite bool_decide_eq_false_2 by done. intros Heq. right.
    repeat case_match; simplify_eq; by rewrite ?alter_meta_keys, fmap_app.
Qed.

Lemma add_or_update_node_spec n m nm g r nm' g' :
  _add_or_update_node n m (nm, g) = (r, (nm', g')) →
  nx.nodes g = nm.*1 →
  nx.nodes g' = nm'.*1 ∧ n ∈ nx.nodes g' ∧ nx.edges g' = nx.edges g ∧
  (wf_graph g → wf_graph g') ∧ (∀ x, x ∈ nx.nodes g → x ∈ nx.nodes g') ∧
  (∀ u v, nx.get_edge u v g' = nx.get_edge u v g).
Proof.
  intros Heq Hn.
  destruct (add_or_update_node_keys _ _ _ _ _ _ _ Heq)
    as [(Hin & Hnm & ->)|(Hin & Hnm & ->)].
  - rewrite Hnm, Hn. done.
  - rewrite <-Hn in Hin. rewrite Hnm, <-Hn.
    destruct (add_node_spec n g) as [[_ ?]|[Hadd _]]; [done|].
    split_and!.
    + rewrite Hadd. unfold nx.nodes. by rewrite fmap_app.
    + apply elem_of_nodes_add_node. by left.
    + apply edges_add_node.
    + apply wf_graph_add_node.
    + intros x ?. apply elem_of_nodes_add_node. by right.
    + intros u v. apply get_edge_add_node.
Qed.

Lemma append_interaction_spec i d h (h' := append_interaction i d h) :
  valid h d →
  (valid h' d ∧ list_loc h' d = list_loc h d ∧
   to_EdgeData h' d =
     {| EdgeData.source := EdgeData.source (to_EdgeData h d);
        EdgeData.target := EdgeData.target (to_EdgeData h d);
        EdgeData.interactions := EdgeData.interactions (to_EdgeData h d) ++ [i];
        EdgeData.weight := EdgeData.weight (to_EdgeData h d) + 1 |}) ∧
  (∀ d', d' ≠ d → list_loc h d' ≠ list_loc h d → valid h d' →
         valid h' d' ∧ list_loc h' d' = list_loc h d' ∧
         to_EdgeData h' d' = to_EdgeData h d').
Proof.
  intros [Hd Hl]. unfold h', append_interaction.
  set (l := EdgeAttr.interactions (Heap.dict_at h d)) in *.
  set (h1 := Heap.set_list l _ h).
  assert (∀ d0, Heap.dict_at h1 d0 = Heap.dict_at h d0) as Hd1 by done.
  assert (length (Heap.lists h1) = length (Heap.lists h)) as Hlen1
    by (simpl; by rewrite length_insert).
  rewrite Hd1. split.
  - split_and!.
    + split; simpl; [by rewrite length_insert|].
      rewrite (dict_at_set d _ h1 d) by done. rewrite decide_True by done.
      simpl. by rewrite length_insert.
    + unfold list_loc. rewrite (dict_at_set d _ h1 d) by done.
      by rewrite decide_True by done.
    + unfold to_EdgeData. rewrite (dict_at_set d _ h1 d) by done.
      rewrite decide_True by done. simpl. f_equal.
      unfold Heap.list_at at 1. simpl. fold l. by rewrite list_lookup_insert_eq.
  - intros d' Hne Hlne [Hd' Hl']. unfold list_loc in *. fold l in Hlne.
    assert (Heap.dict_at (Heap.set_dict d (EdgeAttr.set_weight
              (EdgeAttr.weight (Heap.dict_at h d) + 1) (Heap.dict_at h d)) h1) d'
            = Heap.dict_at h d') as Heq.
    { rewrite (dict_at_set d _ h1 d') by done. by rewrite decide_False by done. }
    split_and!.
    + split; simpl; [by rewrite length_insert|].
      rewrite Heq. simpl. by rewrite length_insert.
    + by rewrite Heq.
    + unfold to_EdgeData. rewrite Heq. f_equal.
      unfold Heap.list_at. simpl. by rewrite list_lookup_insert_ne.
Qed.

Lemma NoDup_fmap_elem_inj {A B} (f : A → B) (l : list A) x y :
  NoDup (f <$> l) → x ∈ l → y ∈ l → f x = f y → x = y.
Proof.
  induction l as [|a l IH]; [by intros _ ?%elem_of_nil|].
  rewrite fmap_cons, NoDup_cons. intros [Ha Hnd] Hx Hy Heq.
  apply elem_of_cons in Hx as [->|Hx]; apply elem_of_cons in Hy as [->|Hy];
    [done| | |by apply IH].
  - exfalso. apply Ha. rewrite Heq. apply list_elem_of_fmap. by exists y.
  - exfalso. apply Ha. rewrite <-Heq. apply list_elem_of_fmap. by exists x.
Qed.

Lemma add_node_id n g : n ∈ nx.nodes g → nx.add_node n g = g.
Proof. intros Hn. unfold nx.add_node, nx.has_node. by rewrite bool_decide_eq_true_2. Qed.

Lemma wf_graph_add_succ u v d g :
  wf_graph g → nx.get_edge u v g = None →
  wf_graph
    (nx.alter_node (λ e, {| nx.attrs := nx.attrs e; nx.succ := nx.succ e ++ [(v, d)] |}) u g).
Proof.
  intros Hwf Hget. split; [rewrite nodes_alter_node; apply Hwf|].
  destruct Hwf as [Hn Hs]. unfold nx.get_edge in Hget.
  induction g as [|[k e] g IH]; [constructor|].
  rewrite alter_node_cons. unfold nx.nodes in Hn. rewrite fmap_cons in Hn.
  apply NoDup_cons in Hn as [Hk Hn]. apply Forall_cons in Hs as [He Hs].
  simpl in Hget, Hk, He. case_bool_decide as Hku.
  - subst k. constructor.
    + simpl in *. rewrite fmap_app. apply NoDup_app. split_and!; [done| |].
      * intros x Hx ->%list_elem_of_singleton. by apply get_None in Hget.
      * apply NoDup_singleton.
    + rewrite alter_node_notin by done. done.
  - constructor; [done|]. by apply IH.
Qed.

Lemma edge_inv_preserved msgs h h' e :
  preserves [] h h' → edge_inv msgs h e → edge_inv msgs h' e ∧ list_loc h' e.2 = list_loc h e.2.
Proof.
  intros Hp (Hv & Hrest).
  destruct (to_EdgeData_preserved [] h h' e.2 Hp Hv) as (Hd & Heq & Hv');
    [apply not_elem_of_nil|].
  split; [|unfold list_loc; by rewrite Hd]. split; [done|]. by rewrite Heq.
Qed.

Lemma add_interaction_inv msgs m g h g' h' :
  m ∈ msgs → truthy (Message.receiver m) = true →
  Message.sender m ∈ nx.nodes g →
  default "" (Message.receiver m) ∈ nx.nodes g →
  store_inv msgs h g →
  _add_interaction m (g, h) = (g', h') →
  store_inv msgs h' g' ∧ nx.nodes g' = nx.nodes g ∧ node_attrs g' = node_attrs g.
Proof.
  intros Hm Ht Hu Hr (Hwf & Hnd & Hndl & Hall). unfold _add_interaction.
  rewrite Ht. simpl.
  set (u := Message.sender m) in *. set (v := default "" (Message.receiver m)) in *.
  set (i := new_interaction m).
  destruct (nx.get_edge u v g) as [d|] eqn:Hget.
  - (* the edge exists *)
    change (Heap.set_dict d _ _) with (append_interaction i d h).
    intros [= <- <-]. split; [|done].
    apply get_edge_elem in Hget; [|done].
    pose proof (proj1 (Forall_forall _ _) Hall _ Hget) as (Hvd & Hsrc & Htgt & Hw & Hne & Hi).
    destruct (append_interaction_spec i d h Hvd) as ((Hvd' & Hl' & Hread) & Hother).
    assert (∀ e, e ∈ nx.edges g →
                 edge_inv msgs (append_interaction i d h) e ∧
                 list_loc (append_interaction i d h) e.2 = list_loc h e.2) as Hstep.
    { intros e He.
      pose proof (proj1 (Forall_forall _ _) Hall _ He) as (Hve & Hse & Hte & Hwe & Hnee & Hie).
      destruct (decide (e.2 = d)) as [Heq|Hneq].
      - rewrite Heq in *. split; [|done]. unfold edge_inv. rewrite Heq, Hread.
        simpl in *. split_and!; [done..| | |].
        + rewrite length_app, Hwe. simpl. lia.
        + by intros [? _]%app_eq_nil.
        + apply Forall_app. split; [done|]. apply Forall_singleton. by exists m.
      - destruct (Hother e.2) as (? & ? & Heq); [done| |done|].
        + intros Hleq. apply Hneq.
          apply (NoDup_fmap_elem_inj (list_loc h) (nx.edges g).*2); [done| | |done].
          * apply list_elem_of_fmap. by exists e.
          * apply list_elem_of_fmap. by exists (u, v, d).
        + split; [|done]. unfold edge_inv. rewrite Heq. done. }
    split_and!; [done..| |].
    + erewrite Forall_fmap_ext_1; [exact Hndl|]. apply Forall_fmap, Forall_forall.
      intros e He. by apply Hstep.
    + apply Forall_forall. intros e He. by apply Hstep.
  - (* a new edge *)
    unfold nx.add_edge. simpl. rewrite !add_node_id by (by rewrite ?add_node_id).
    rewrite Hget. simpl. intros [= <- <-].
    set (a := {| EdgeAttr.interactions := length (Heap.lists h); EdgeAttr.weight := 1;
                 EdgeAttr.source := u; EdgeAttr.target := v |}).
    set (h' := {| Heap.lists := Heap.lists h ++ [[i]]; Heap.dicts := Heap.dicts h ++ [a] |}).
    set (d := length (Heap.dicts h)).
    assert (preserves [] h h') as Hp.
    { split_and!; simpl; [by apply prefix_app_r|rewrite length_app; lia|].
      intros d' Hd' _. by rewrite lookup_app_l. }
    assert (Heap.dict_at h' d = a) as Hda
      by (unfold Heap.dict_at, h', d; simpl; by rewrite list_lookup_middle).
    assert (Forall (λ e, edge_inv msgs h' e ∧ list_loc h' e.2 = list_loc h e.2) (nx.edges g))
      as Hold.
    { eapply Forall_impl; [exact Hall|]. intros e He. by apply edge_inv_preserved. }
    assert (Forall (λ d0, d0 < d ∧ list_loc h d0 < length (Heap.lists h)) (nx.edges g).*2)
      as Hlt.
    { apply Forall_fmap. eapply Forall_impl; [exact Hall|]. by intros e [[? ?] _]. }
    pose proof (edges_add_succ u v d g (proj1 Hwf) Hu) as Hperm.
    split_and!.
    + split_and!.
      * by apply wf_graph_add_succ.
      * rewrite Hperm, fmap_app. apply NoDup_app. split_and!; [done| |apply NoDup_singleton].
        intros d0 Hd0 ->%list_elem_of_singleton. simpl in Hd0.
        apply (proj1 (Forall_forall _ _) Hlt) in Hd0 as [? _]. lia.
      * rewrite Hperm, !fmap_app. apply NoDup_app. split_and!.
        -- erewrite Forall_fmap_ext_1; [exact Hndl|]. apply Forall_fmap.
           eapply Forall_impl; [exact Hold|]. by intros e [_ ?].
        -- intros l0 (d0 & -> & Hd0)%list_elem_of_fmap Hl0%list_elem_of_singleton.
           simpl in Hl0. fold d in Hl0. unfold list_loc at 2 in Hl0. rewrite Hda in Hl0.
           simpl in Hl0.
           assert (list_loc h' d0 = list_loc h d0) as Heq.
           { apply list_elem_of_fmap in Hd0 as (e & -> & He).
             by apply (proj1 (Forall_forall _ _) Hold e He). }
           apply (proj1 (Forall_forall _ _) Hlt) in Hd0. lia.
        -- apply NoDup_singleton.
      * rewrite Hperm. apply Forall_app. split.
        -- eapply Forall_impl; [exact Hold|]. by intros e [? _].
        -- apply Forall_singleton. unfold edge_inv, valid, to_EdgeData. simpl.
           fold d. rewrite Hda. simpl.
           assert (Heap.list_at h' (length (Heap.lists h)) = [i]) as ->
             by (unfold Heap.list_at, h'; simpl; by rewrite list_lookup_middle).
           rewrite !length_app. simpl. split_and!; [unfold d; lia|lia|done..|].
           apply Forall_singleton. by exists m.
    + apply nodes_alter_node.
    + by apply node_attrs_alter_node.
Qed.

Lemma store_inv_edges_eq msgs h g g' :
  wf_graph g' → nx.edges g' = nx.edges g → store_inv msgs h g → store_inv msgs h g'.
Proof. intros Hwf Heq (_ & ? & ? & ?). unfold store_inv. by rewrite Heq. Qed.

Lemma build_step_inv msgs m st st' :
  m ∈ msgs → loop_inv msgs st →
  build_step st m = (Ok tt, st') →
  loop_inv msgs st' ∧
  (∀ x, x ∈ nx.nodes st.1.2 → x ∈ nx.nodes st'.1.2) ∧
  Message.sender m ∈ nx.nodes st'.1.2.
Proof.
  destruct st as [[nm g] h]. intros Hm [Hn Hinv]. unfold build_step. cbn [fst snd] in *.
  destruct (_add_or_update_node (Message.sender m) m (nm, g)) as [r1 [nm1 g1]] eqn:H1.
  destruct (add_or_update_node_spec _ _ _ _ _ _ _ H1 Hn)
    as (Hn1 & Hs1 & He1 & Hwf1 & Hmono1 & _).
  assert (store_inv msgs h g1) as Hinv1.
  { eapply store_inv_edges_eq; [|done..]. apply Hwf1, Hinv. }
  destruct r1 as [[]|]; [|done].
  destruct (truthy (Message.receiver m)) eqn:Ht.
  2:{ intros [= <-]. by split_and!. }
  destruct (_add_or_update_node _ m (nm1, g1)) as [r2 [nm2 g2]] eqn:H2.
  destruct (add_or_update_node_spec _ _ _ _ _ _ _ H2 Hn1)
    as (Hn2 & Hs2 & He2 & Hwf2 & Hmono2 & _).
  assert (store_inv msgs h g2) as Hinv2.
  { eapply store_inv_edges_eq; [|done..]. apply Hwf2, Hinv1. }
  destruct r2 as [[]|]; [|done].
  destruct (_add_interaction m (g2, h)) as [g3 h3] eqn:H3.
  destruct (add_interaction_inv msgs m g2 h g3 h3) as (Hinv3 & Hn3 & _); auto.
  intros [= <-]. cbn [fst snd]. split_and!.
  - split; cbn [fst snd]; [congruence|done].
  - intros x ?. rewrite Hn3. auto.
  - rewrite Hn3. auto.
Qed.

Lemma build_loop_inv msgs l : ∀ st st',
  (∀ m, m ∈ l → m ∈ msgs) → loop_inv msgs st →
  build_loop l st = (Ok tt, st') →
  loop_inv msgs st' ∧
  (∀ x, x ∈ nx.nodes st.1.2 → x ∈ nx.nodes st'.1.2) ∧
  (∀ m, m ∈ l → Message.sender m ∈ nx.nodes st'.1.2).
Proof.
  induction l as [|m l IH]; intros st st' Hsub Hinv; simpl.
  - intros [= <-]. split_and!; [done..|]. by intros m ?%elem_of_nil.
  - destruct (build_step st m) as [r st1] eqn:Hstep. destruct r as [[]|]; [|done].
    intros Hloop.
    destruct (build_step_inv msgs m st st1) as (Hinv1 & Hmono1 & Hs1); [|done..|].
    { apply Hsub. by left. }
    destruct (IH st1 st') as (Hinv2 & Hmono2 & Hs2); [|done..|].
    { intros m' ?. apply Hsub. by right. }
    split_and!; [done|auto|].
    intros m' [->|?]%elem_of_cons; auto.
Qed.

(** The last loop of [build_graph] attaches its dictionary to every node. *)
Lemma foldl_update_node (nm : node_metadata_t) : ∀ g,
  let g' := foldl (λ g p, nx.update_node p.1 p.2 g) g nm in
  nx.edges g' = nx.edges g ∧ nx.nodes g' = nx.nodes g ∧
  (wf_graph g → wf_graph g') ∧
  (Forall (λ p, p.1 ∈ nm.*1 ∨ is_Some p.2) (node_attrs g) → all_attrs g').
Proof.
  induction nm as [|[n md] nm IH]; intros g; simpl.
  - split_and!; [done..|]. intros Hall. eapply Forall_impl; [exact Hall|].
    by intros p [?%elem_of_nil|?].
  - destruct (IH (nx.update_node n md g)) as (He & Hn & Hwf & Hall).
    unfold nx.update_node in *.
    rewrite He, Hn, edges_alter_node_succ, nodes_alter_node by done.
    split_and!; [done..| |].
    + intros ?. apply Hwf. by apply wf_graph_alter_node.
    + intros Hg. apply Hall. unfold node_attrs, nx.alter_node in *.
      rewrite <-list_fmap_compose. apply Forall_fmap.
      apply Forall_fmap in Hg. eapply Forall_impl; [exact Hg|].
      intros [k e]. simpl. case_bool_decide; simpl; [by right|].
      intros [[?|?]%elem_of_cons|?]; [done|by left|by right].
Qed.

Lemma build_graph_cons m0 msgs0 self h0 :
  build_graph (m0 :: msgs0) (self, h0) =
  let messages' := sorted_by_step (m0 :: msgs0) in
  let '(r, (node_metadata, g, h)) := build_loop messages' ([], nx.empty, h0) in
  match r with
  | Raise x => (Raise x, ({| graph := Some g; messages := messages' |}, h))
  | Ok _ =>
      let g := foldl (λ g p, nx.update_node p.1 p.2 g) g node_metadata in
      (Ok g, ({| graph := Some g; messages := messages' |}, h))
  end.
Proof. done. Qed.

(** A graph that [build_graph] returns is stored in the builder and is well
    formed in the store the call leaves. *)
Lemma build_graph_Ok msgs self h0 base w :
  build_graph msgs (self, h0) = (Ok base, w) →
  msgs ≠ [] ∧
  w.1 = {| graph := Some base; messages := sorted_by_step msgs |} ∧
  store_inv msgs w.2 base ∧ all_attrs base ∧
  (∀ m, m ∈ msgs → Message.sender m ∈ nx.nodes base).
Proof.
  destruct msgs as [|m0 msgs0]; [done|]. rewrite build_graph_cons. cbn zeta.
  set (msgs := m0 :: msgs0).
  assert (∀ m, m ∈ sorted_by_step msgs → m ∈ msgs) as Hsub.
  { intros m. by rewrite sorted_by_step_perm. }
  assert (loop_inv msgs ([], nx.empty, h0)) as Hinit.
  { split; [done|]. split_and!; simpl; [split|..]; constructor. }
  destruct (build_loop (sorted_by_step msgs) _) as [r [[nm g] h]] eqn:Hloop.
  destruct r as [[]|]; [|done].
  destruct (build_loop_inv msgs _ _ _ Hsub Hinit Hloop) as ([Hn Hinv] & _ & Hs).
  cbn [fst snd] in *.
  destruct (foldl_update_node nm g) as (He & Hn' & Hwf & Hall).
  intros [= <- <-]. cbn [fst snd]. split_and!; [done..| | |].
  - eapply store_inv_edges_eq; [|done..]. apply Hwf, Hinv.
  - apply Hall. apply Forall_forall. intros p Hp. left. rewrite <-Hn, <-node_attrs_fst.
    apply list_elem_of_fmap. by exists p.
  - intros m Hm. rewrite Hn'. apply Hs. by rewrite sorted_by_step_perm.
Qed.

(** *** When the loop raises, and when it does not *)

Lemma datetime_max_same_kind a b :
  datetime.aware a = datetime.aware b →
  ∃ t, datetime.max a b = Some t ∧ datetime.aware t = datetime.aware b.
Proof.
  destruct a, b; intros Hk; try discriminate Hk; unfold datetime.max; simpl;
    (eexists; split; [reflexivity|]); by case_bool_decide.
Qed.

Lemma kind_inv_alter_meta k f n nm :
  (∀ md, datetime.aware (NodeMeta.last_activity md) = k →
         datetime.aware (NodeMeta.last_activity (f md)) = k) →
  kind_inv k nm → kind_inv k (alter_meta f n nm).
Proof.
  intros Hf Hnm. unfold kind_inv, alter_meta. apply Forall_fmap.
  eapply Forall_impl; [exact Hnm|]. intros [k' md] Hmd. simpl in *.
  case_bool_decide; simpl; auto.
Qed.

(** The key that [_add_or_update_node] reads is there: the call raises for
    no other reason than a naive and an aware [datetime] meeting in [max]. *)
Lemma add_or_update_node_result n m nm g :
  ∃ nm' g',
    (_add_or_update_node n m (nm, g) = (Ok tt, (nm', g')) ∨
     _add_or_update_node n m (nm, g) = (Raise naive_aware, (nm', g'))) ∧
    ∀ k, datetime.aware (Message.timestamp m) = k → kind_inv k nm →
         _add_or_update_node n m (nm, g) = (Ok tt, (nm', g')) ∧ kind_inv k nm'.
Proof.
  unfold _add_or_update_node. cbn [fst snd].
  set (st1 := if bool_decide (n ∈ nm.*1) then (nm, g) else _).
  assert (n ∈ st1.1.*1 ∧
          ∀ k, datetime.aware (Message.timestamp m) = k → kind_inv k nm →
               kind_inv k st1.1) as [Hin Hk1].
  { unfold st1. case_bool_decide; [done|]. cbn [fst]. split.
    - rewrite fmap_app. apply elem_of_app. right. by left.
    - intros k Hm Hnm. apply Forall_app. split; [done|]. by apply Forall_singleton. }
  destruct st1 as [nm1 g1]. cbn [fst] in *. case_bool_decide as Hs.
  2:{ exists nm1, g1. split; [by left|]. intros k Hm Hnm. split; [done|by apply Hk1]. }
  destruct (dict_get n (alter_meta bump_count n nm1)) as [md|] eqn:Hget.
  2:{ apply get_None in Hget. by rewrite alter_meta_keys in Hget. }
  apply get_elem_of in Hget.
  destruct (datetime.max (NodeMeta.last_activity md) (Message.timestamp m)) as [t|] eqn:Hmax.
  - eexists _, _. split; [by left|]. intros k Hm Hnm. split; [done|].
    assert (kind_inv k (alter_meta bump_count n nm1)) as Hk2.
    { apply kind_inv_alter_meta; [done|by apply Hk1]. }
    apply kind_inv_alter_meta; [|done]. intros md' _. simpl.
    pose proof (proj1 (Forall_forall _ _) Hk2 _ Hget) as Hmd. simpl in Hmd.
    destruct (datetime_max_same_kind (NodeMeta.last_activity md) (Message.timestamp m))
      as (t' & Ht' & Hkt'); congruence.
  - eexists _, _. split; [by right|]. intros k Hm Hnm. exfalso.
    assert (kind_inv k (alter_meta bump_count n nm1)) as Hk2.
    { apply kind_inv_alter_meta; [done|by apply Hk1]. }
    pose proof (proj1 (Forall_forall _ _) Hk2 _ Hget) as Hmd. simpl in Hmd.
    destruct (datetime_max_same_kind (NodeMeta.last_activity md) (Message.timestamp m))
      as (t' & Ht' & _); congruence.
Qed.

Lemma build_step_result m st :
  ∃ st',
    (build_step st m = (Ok tt, st') ∨ build_step st m = (Raise naive_aware, st')) ∧
    ∀ k, datetime.aware (Message.timestamp m) = k → kind_inv k st.1.1 →
         build_step st m = (Ok tt, st') ∧ kind_inv k st'.1.1.
Proof.
  destruct st as [[nm g] h]. unfold build_step. cbn [fst snd].
  destruct (add_or_update_node_result (Message.sender m) m nm g)
    as (nm1 & g1 & Hr1 & Hk1).
  destruct Hr1 as [Hr1|Hr1].
  2:{ rewrite Hr1. eexists. split; [by right|]. intros k Hm Hnm.
      destruct (Hk1 k Hm Hnm) as [Hok _]. congruence. }
  rewrite Hr1. destruct (truthy (Message.receiver m)).
  2:{ eexists. split; [by left|]. intros k Hm Hnm. split; [done|]. by apply Hk1. }
  destruct (add_or_update_node_result (default "" (Message.receiver m)) m nm1 g1)
    as (nm2 & g2 & Hr2 & Hk2).
  destruct Hr2 as [Hr2|Hr2].
  2:{ rewrite Hr2. eexists. split; [by right|]. intros k Hm Hnm.
      destruct (Hk1 k Hm Hnm) as [_ Hnm1].
      destruct (Hk2 k Hm Hnm1) as [Hok _]. congruence. }
  rewrite Hr2. destruct (_add_interaction m (g2, h)) as [g3 h3].
  eexists. split; [by left|]. intros k Hm Hnm. split; [done|].
  apply Hk2; [done|]. by apply Hk1.
Qed.

Lemma build_loop_result l : ∀ st,
  ∃ st',
    (build_loop l st = (Ok tt, st') ∨ build_loop l st = (Raise naive_aware, st')) ∧
    ∀ k, Forall (λ m, datetime.aware (Message.timestamp m) = k) l → kind_inv k st.1.1 →
         build_loop l st = (Ok tt, st').
Proof.
  induction l as [|m l IH]; intros st; simpl.
  - exists st. split; [by left|done].
  - destruct (build_step_result m st) as (st1 & [Hr1|Hr1] & Hk1); rewrite Hr1.
    + destruct (IH st1) as (st' & Hr & Hk). exists st'. split; [done|].
      intros k [Hm Hl]%Forall_cons Hnm. apply (Hk k); [done|].
      by destruct (Hk1 k Hm Hnm).
    + exists st1. split; [by right|]. intros k [Hm Hl]%Forall_cons Hnm.
      destruct (Hk1 k Hm Hnm) as [Hok _]. congruence.
Qed.

(** ** Built models *)

Lemma built_model msgs w0 base w :
  build_graph msgs w0 = (Ok base, w) →
  msgs ≠ [] ∧
  w.1 = {| graph := Some base; messages := sorted_by_step msgs |} ∧
  built w.1 = Some base ∧ store_inv msgs w.2 base ∧ all_attrs base.
Proof.
  destruct w0 as [self h0]. intros (Hne & Hw & Hinv & Hall & Hs)%build_graph_Ok.
  split_and!; [done..| |done|done]. rewrite Hw. unfold built. simpl.
  destruct base as [|p g]; [|done]. exfalso.
  destruct msgs as [|m msgs]; [done|].
  apply (not_elem_of_nil (Message.sender m)), (Hs m). by left.
Qed.

Lemma store_inv_preserved msgs h h' g :
  preserves [] h h' → store_inv msgs h g →
  store_inv msgs h' g ∧ edges_data h' g = edges_data h g.
Proof.
  intros Hp (Hwf & Hnd & Hndl & Hall).
  assert (Forall (λ e, edge_inv msgs h' e ∧ list_loc h' e.2 = list_loc h e.2 ∧
                       to_EdgeData h' e.2 = to_EdgeData h e.2) (nx.edges g)) as Hold.
  { eapply Forall_impl; [exact Hall|]. intros e He.
    destruct (edge_inv_preserved msgs h h' e Hp He) as [? ?].
    destruct He as [Hv _].
    destruct (to_EdgeData_preserved [] h h' e.2 Hp Hv) as (_ & ? & _);
      [apply not_elem_of_nil|done]. }
  split; [split_and!; [done..| |]|].
  - erewrite Forall_fmap_ext_1; [exact Hndl|]. apply Forall_fmap.
    eapply Forall_impl; [exact Hold|]. by intros e (_ & ? & _).
  - eapply Forall_impl; [exact Hold|]. by intros e (? & _).
  - apply Forall_fmap_ext_1. eapply Forall_impl; [exact Hold|].
    intros e (_ & _ & Heq). simpl. by rewrite Heq.
Qed.

(** [to_graph_snapshot] leaves the state as it was, or as its call of
    [filter_graph_by_step] left it; [get_graph_metrics] leaves it as it was. *)
Lemma to_graph_snapshot_world max_step w :
  (to_graph_snapshot max_step w).2 = w ∨
  ∃ K, (to_graph_snapshot max_step w).2 = (filter_graph_by_step K w).2.
Proof.
  destruct w as [self h]. unfold to_graph_snapshot.
  destruct (built self) as [g|] eqn:Hb; [|by left].
  destruct (truthy_int max_step).
  - right. exists (default 0%Z max_step).
    destruct (filter_graph_by_step _ _) as [r [self' h']]. simpl.
    destruct r as [v|]; [|done]. by destruct (convert_nodes v).
  - left. by destruct (convert_nodes g).
Qed.

Lemma get_graph_metrics_world w : (get_graph_metrics w).2 = w.
Proof. destruct w as [self h]. unfold get_graph_metrics. by destruct (built self). Qed.

(** A call of [filter_graph_by_step] on a built model returns, in whatever
    state the reading calls made before have left. *)
Lemma filter_intact msgs self h g max_step :
  built self = Some g → store_inv msgs h g →
  ∃ view h',
    filter_graph_by_step max_step (self, h) = (Ok view, (self, h')) ∧
    edges_data h' view = omap (view_item max_step) (edges_data h g) ∧
    (∀ n, n ∈ nx.nodes view ↔
          n ∈ nx.nodes g ∧ ∃ e, e ∈ nx.edges view ∧ (e.1.1 = n ∨ e.1.2 = n)) ∧
    node_attrs view = filter (λ p, p.1 ∈ nx.nodes view) (node_attrs g) ∧
    wf_graph view ∧
    preserves [] h h'.
Proof.
  intros Hb Hinv. apply filter_graph_spec; [done|apply Hinv|by eapply store_inv_valid].
Qed.

(** The reading calls leave the builder and every object of the built model
    as [build_graph] left them. *)
Lemma after_reads_intact msgs w0 base w wa :
  build_graph msgs w0 = (Ok base, w) → after_reads w wa →
  wa.1 = w.1 ∧ preserves [] w.2 wa.2.
Proof.
  intros (_ & _ & Hb & Hinv & _)%built_model.
  assert (∀ wa K, wa.1 = w.1 → preserves [] w.2 wa.2 →
            (filter_graph_by_step K wa).2.1 = w.1 ∧
            preserves [] w.2 (filter_graph_by_step K wa).2.2) as Hfilter.
  { intros [self h] K Hself Hp. simpl in Hself. subst self.
    destruct (store_inv_preserved _ _ _ _ Hp Hinv) as [Hinv' _].
    destruct (filter_intact msgs w.1 h base K Hb Hinv')
      as (view & h' & -> & _ & _ & _ & _ & Hp').
    simpl. split; [done|]. by eapply preserves_trans. }
  induction 1 as [|wa K r wb _ [IH1 IH2] Hcall|wa K r wb _ [IH1 IH2] Hcall
                  |wa r wb _ [IH1 IH2] Hcall].
  - split; [done|apply preserves_refl].
  - replace wb with (filter_graph_by_step K wa).2 by (by rewrite Hcall). by apply Hfilter.
  - replace wb with (to_graph_snapshot K wa).2 by (by rewrite Hcall).
    destruct (to_graph_snapshot_world K wa) as [->|[K' ->]]; [done|by apply Hfilter].
  - replace wb with (get_graph_metrics wa).2 by (by rewrite Hcall).
    by rewrite get_graph_metrics_world.
Qed.

Lemma filter_built msgs w0 base w wa max_step :
  build_graph msgs w0 = (Ok base, w) → after_reads w wa →
  ∃ view h',
    filter_graph_by_step max_step wa = (Ok view, (wa.1, h')) ∧
    edges_data h' view = omap (view_item max_step) (edges_data w.2 base) ∧
    (∀ n, n ∈ nx.nodes view ↔
          n ∈ nx.nodes base ∧ ∃ e, e ∈ nx.edges view ∧ (e.1.1 = n ∨ e.1.2 = n)) ∧
    node_attrs view = filter (λ p, p.1 ∈ nx.nodes view) (node_attrs base) ∧
    wf_graph view ∧
    preserves [] wa.2 h' ∧
    edges_data h' base = edges_data wa.2 base ∧
    store_inv msgs wa.2 base.
Proof.
  intros Hbuild Hreads.
  destruct (after_reads_intact _ _ _ _ _ Hbuild Hreads) as [Hself Hp].
  destruct (built_model _ _ _ _ Hbuild) as (_ & _ & Hb & Hinv & _).
  destruct (store_inv_preserved _ _ _ _ Hp Hinv) as [Hinv' Hed'].
  destruct wa as [self h]. simpl in *. subst self.
  destruct (filter_intact msgs w.1 h base max_step Hb Hinv')
    as (view & h' & Hf & Hed & Hn & Ha & Hwf & Hp').
  exists view, h'. split_and!; [done|by rewrite Hed, Hed'|done..| |done].
  by destruct (store_inv_preserved _ _ _ _ Hp' Hinv').
Qed.

Lemma elem_of_view_items max_step (items : list (string * string * EdgeData.t)) k ed :
  (k, ed) ∈ omap (view_item max_step) items ↔
  ∃ ed0, (k, ed0) ∈ items ∧ keep max_step (EdgeData.interactions ed0) ≠ [] ∧
         ed = filtered_data max_step ed0.
Proof.
  rewrite list_elem_of_omap. unfold view_item. split.
  - intros ([k0 ed0] & Hin & Hv). simpl in Hv.
    destruct (keep max_step _) eqn:Hk; simplify_eq. exists ed0. by rewrite Hk.
  - intros (ed0 & Hin & Hk & ->). exists (k, ed0). split; [done|]. simpl.
    by destruct (keep max_step _).
Qed.

Lemma edges_data_fst h g : (edges_data h g).*1 = (nx.edges g).*1.
Proof.
  unfold edges_data. rewrite <-list_fmap_compose. by apply list_fmap_ext.
Qed.

(** * The claims *)


(** C2. For every built model and bounds [K1 < K2], whatever reading calls
    were made before either call, the nodes and the edges of the view at [K1]
    are among those of the view at [K2], and an edge of the view at [K1] has
    at most as many interactions as it has at [K2]. *)
Theorem filter_monotone_in_bound msgs w0 base w K1 K2 wa1 view1 wb1 wa2 view2 wb2 :
  build_graph msgs w0 = (Ok base, w) →
  (K1 < K2)%Z →
  after_reads w wa1 → filter_graph_by_step K1 wa1 = (Ok view1, wb1) →
  after_reads w wa2 → filter_graph_by_step K2 wa2 = (Ok view2, wb2) →
  nx.nodes view1 ⊆ nx.nodes view2 ∧
  (nx.edges view1).*1 ⊆ (nx.edges view2).*1 ∧
  ∀ u v ed1,
    (u, v, ed1) ∈ edges_data wb1.2 view1 →
    ∃ ed2, (u, v, ed2) ∈ edges_data wb2.2 view2 ∧
           (length (EdgeData.interactions ed1) ≤ length (EdgeData.interactions ed2))%nat.
Proof.
  intros Hb HK Hr1 Hf1 Hr2 Hf2.
  destruct (filter_built _ _ _ _ _ K1 Hb Hr1) as (v1 & h1 & Hf1' & Hed1 & Hn1 & _).
  destruct (filter_built _ _ _ _ _ K2 Hb Hr2) as (v2 & h2 & Hf2' & Hed2 & Hn2 & _).
  rewrite Hf1 in Hf1'. rewrite Hf2 in Hf2'. simplify_eq. simpl.
  assert (∀ l, keep K1 l ⊆ keep K2 l ∧ (length (keep K1 l) ≤ length (keep K2 l))%nat)
    as Hkeep.
  { intros l. unfold keep. induction l as [|i l [IH1 IH2]]; [done|].
    rewrite !filter_cons. destruct (decide (Interaction.step_index i ≤ K1)%Z).
    - rewrite decide_True by lia. split; [by apply list_subseteq_skip|simpl; lia].
    - case_decide; [|done]. split; [by apply list_subseteq_cons|simpl; lia]. }
  assert (∀ u v ed1, (u, v, ed1) ∈ edges_data h1 v1 →
    ∃ ed2, (u, v, ed2) ∈ edges_data h2 v2 ∧
      (length (EdgeData.interactions ed1) ≤ length (EdgeData.interactions ed2))%nat)
    as Hedge.
  { intros u v ed1. rewrite Hed1, Hed2, elem_of_view_items.
    intros (ed0 & Hin & Hk & ->). exists (filtered_data K2 ed0). split.
    - apply elem_of_view_items. exists ed0. split_and!; [done| |done].
      destruct (Hkeep (EdgeData.interactions ed0)) as [Hsub _].
      destruct (keep K1 _) as [|i ?]; [done|]. intros Hnil.
      specialize (Hsub i). rewrite Hnil in Hsub. apply (not_elem_of_nil i), Hsub. by left.
    - simpl. apply Hkeep. }
  assert ((nx.edges v1).*1 ⊆ (nx.edges v2).*1) as Hsub.
  { intros [u v]. rewrite <-(edges_data_fst h1 v1), <-(edges_data_fst h2 v2).
    intros ([k ed1] & ? & Hin)%list_elem_of_fmap. simplify_eq/=.
    destruct (Hedge _ _ _ Hin) as (ed2 & ? & _).
    apply list_elem_of_fmap. by exists (u, v, ed2). }
  split_and!; [|done..].
  intros n. rewrite Hn1, Hn2. intros [? (e & He & Hor)]. split; [done|].
  assert (e.1 ∈ (nx.edges v2).*1) as (e2 & Heq & He2)%list_elem_of_fmap.
  { apply Hsub, list_elem_of_fmap. by exists e. }
  exists e2. split; [done|]. by rewrite <-Heq.
Qed.

(** C5. For every edge of the base model after [build_graph], and for every
    edge of every view that [filter_graph_by_step] makes of it, whatever
    reading calls were made before, the weight stored in the edge's
    dictionary is the length of the interaction list the dictionary refers
    to. *)
Theorem weight_is_interaction_count msgs w0 base w :
  build_graph msgs w0 = (Ok base, w) →
  (∀ u v ed, (u, v, ed) ∈ edges_data w.2 base →
             EdgeData.weight ed = Z.of_nat (length (EdgeData.interactions ed))) ∧
  (∀ wa max_step view wb,
      after_reads w wa →
      filter_graph_by_step max_step wa = (Ok view, wb) →
      (∀ u v ed, (u, v, ed) ∈ edges_data wb.2 view →
                 EdgeData.weight ed = Z.of_nat (length (EdgeData.interactions ed))) ∧
      (∀ u v ed, (u, v, ed) ∈ edges_data wb.2 base →
                 EdgeData.weight ed = Z.of_nat (length (EdgeData.interactions ed)))).
Proof.
  intros Hb.
  assert (∀ h, store_inv msgs h base →
               ∀ u v ed, (u, v, ed) ∈ edges_data h base →
                 EdgeData.weight ed = Z.of_nat (length (EdgeData.interactions ed)))
    as Hbase.
  { intros h (_ & _ & _ & Hall) u v ed ([k d] & ? & Hin)%list_elem_of_fmap.
    simplify_eq/=.
    by destruct (proj1 (Forall_forall _ _) Hall _ Hin) as (_ & _ & _ & ? & _). }
  split.
  - destruct (built_model _ _ _ _ Hb) as (_ & _ & _ & Hinv & _). by apply Hbase.
  - intros wa max_step view wb Hr Hf.
    destruct (filter_built _ _ _ _ _ max_step Hb Hr)
      as (vw & h' & Hf' & Hed & _ & _ & _ & Hp & Hed' & Hinv).
    rewrite Hf in Hf'. simplify_eq. simpl. split.
    + intros u v ed. rewrite Hed.
      by intros (ed0 & _ & _ & ->)%elem_of_view_items.
    + intros u v ed. rewrite Hed'. by apply Hbase.
Qed.

(** C9. A call of [filter_graph_by_step] on a built model, whatever reading
    calls were made before, leaves the builder object as [build_graph] left
    it, with the same graph (the same nodes and edges), and leaves every
    object of the store as it was: every dictionary and every list that
    existed before the call has the same contents after it, so every edge of
    the base model reads the same interaction list and the same weight as
    after [build_graph]. *)
Theorem filter_leaves_base_model_unchanged msgs w0 base w wa max_step view wb :
  build_graph msgs w0 = (Ok base, w) →
  after_reads w wa →
  filter_graph_by_step max_step wa = (Ok view, wb) →
  wb.1 = wa.1 ∧ wb.1 = w.1 ∧
  graph wb.1 = Some base ∧
  (∀ d a, Heap.dicts wa.2 !! d = Some a → Heap.dicts wb.2 !! d = Some a) ∧
  (∀ l x, Heap.lists wa.2 !! l = Some x → Heap.lists wb.2 !! l = Some x) ∧
  edges_data wb.2 base = edges_data wa.2 base ∧
  edges_data wb.2 base = edges_data w.2 base ∧
  (∀ u v d, (u, v, d) ∈ nx.edges base →
            Heap.dict_at wb.2 d = Heap.dict_at w.2 d ∧
            Heap.list_at wb.2 (list_loc wb.2 d) = Heap.list_at w.2 (list_loc w.2 d)).
Proof.
  intros Hb Hr Hf. destruct (built_model _ _ _ _ Hb) as (_ & Hw & _ & Hinv & _).
  destruct (after_reads_intact _ _ _ _ _ Hb Hr) as [Hself Hpa].
  destruct (filter_built _ _ _ _ _ max_step Hb Hr)
    as (vw & h' & Hf' & _ & _ & _ & _ & Hp & Hed' & Hinva).
  rewrite Hf in Hf'. simplify_eq. simpl.
  pose proof (preserves_trans _ _ _ _ Hpa Hp) as Hpw.
  pose proof (store_inv_valid _ _ _ Hinv) as Hv.
  destruct (store_inv_preserved _ _ _ _ Hpa Hinv) as [_ Heda].
  assert (∀ d, d ∈ (nx.edges base).*2 →
               Heap.dict_at h' d = Heap.dict_at w.2 d ∧
               to_EdgeData h' d = to_EdgeData w.2 d) as Hsame.
  { intros d Hd. destruct (to_EdgeData_preserved [] w.2 h' d) as (? & ? & _);
      [done|by apply (proj1 (Forall_forall _ _) Hv)|apply not_elem_of_nil|done]. }
  destruct Hp as (Hl & Hn & Hd). split_and!.
  - done.
  - done.
  - by rewrite Hself, Hw.
  - intros d a Hda. rewrite Hd; [done|by eapply lookup_lt_Some|apply not_elem_of_nil].
  - intros l x Hlx. by eapply prefix_lookup_Some.
  - done.
  - by rewrite Hed', Heda.
  - intros u v d Hin.
    destruct (Hsame d) as [Hda Hea]; [apply list_elem_of_fmap; by exists (u, v, d)|].
    split; [done|]. by apply (f_equal EdgeData.interactions) in Hea.
Qed.

(** C10. Every interaction that [build_graph] records comes from a message
    of the input, and its intent is the one [_infer_intent] gives for that
    message, which is one of delegation, coordination, information_response,
    feedback and unknown, and never information_request. *)
Theorem intent_never_information_request msgs w0 base w :
  build_graph msgs w0 = (Ok base, w) →
  (∀ m, _infer_intent m ∈
          [IntentLabel.DELEGATION; IntentLabel.COORDINATION;
           IntentLabel.INFORMATION_RESPONSE; IntentLabel.FEEDBACK; IntentLabel.UNKNOWN] ∧
        _infer_intent m ≠ IntentLabel.INFORMATION_REQUEST) ∧
  (∀ u v ed i,
      (u, v, ed) ∈ edges_data w.2 base → i ∈ EdgeData.interactions ed →
      (∃ m, m ∈ msgs ∧ i = new_interaction m ∧
            Interaction.intent i = _infer_intent m) ∧
      Interaction.intent i ∈
        [IntentLabel.DELEGATION; IntentLabel.COORDINATION;
         IntentLabel.INFORMATION_RESPONSE; IntentLabel.FEEDBACK; IntentLabel.UNKNOWN] ∧
      Interaction.intent i ≠ IntentLabel.INFORMATION_REQUEST).
Proof.
  intros Hb.
  assert (∀ m, _infer_intent m ∈
          [IntentLabel.DELEGATION; IntentLabel.COORDINATION;
           IntentLabel.INFORMATION_RESPONSE; IntentLabel.FEEDBACK; IntentLabel.UNKNOWN] ∧
        _infer_intent m ≠ IntentLabel.INFORMATION_REQUEST) as Hintent.
  { intros [? ? ? ? ty ?]. unfold _infer_intent. simpl.
    destruct ty; vm_compute; (split; [|done]); repeat constructor. }
  split; [done|].
  destruct (built_model _ _ _ _ Hb) as (_ & _ & _ & (_ & _ & _ & Hall) & _).
  intros u v ed i ([k d] & ? & Hin)%list_elem_of_fmap Hi. simplify_eq/=.
  destruct (proj1 (Forall_forall _ _) Hall _ Hin) as (_ & _ & _ & _ & _ & Hmsgs).
  destruct (proj1 (Forall_forall _ _) Hmsgs _ Hi) as (m & Hm & ->).
  split; [by exists m|]. apply Hintent.
Qed.

(** C8, counterexample: for two messages of one sender, the first with a
    naive and the second with an aware timestamp, [build_graph] raises the
    [TypeError] of [max]; the list is not empty. *)
Lemma build_raises_on_naive_and_aware_timestamps :
  naive_then_aware ≠ [] ∧
  (build_graph naive_then_aware world0).1 = Raise naive_aware.
Proof. split; [done|]. vm_compute. reflexivity. Qed.

(** C8, amended. [build_graph] raises [ValueError] exactly when the message
    list is empty, and then leaves the builder and the store as they were, so
    no model is committed; on every non-empty list whose timestamps are all
    naive or all aware it returns a graph, which it has stored in the builder
    together with the sorted messages. *)
Theorem build_fails_with_value_error_exactly_on_empty_input msgs w :
  ((∃ s w', build_graph msgs w = (Raise (ValueError s), w')) ↔ msgs = []) ∧
  (msgs = [] →
   build_graph msgs w =
     (Raise (ValueError "Cannot build graph from empty message list"), w)) ∧
  (msgs ≠ [] →
   (∃ k, Forall (λ m, datetime.aware (Message.timestamp m) = k) msgs) →
   ∃ g h, build_graph msgs w =
            (Ok g, ({| graph := Some g; messages := sorted_by_step msgs |}, h)) ∧
          built {| graph := Some g; messages := sorted_by_step msgs |} = Some g).
Proof.
  destruct w as [self h0]. destruct msgs as [|m msgs].
  { split_and!; [|done..]. split; [done|]. intros _. by eexists _, _. }
  destruct (build_loop_result (sorted_by_step (m :: msgs)) ([], nx.empty, h0))
    as ([[nm g] h] & Hr & Hk).
  split_and!; [split; [|done]|done|].
  - intros (s & w' & Hraise). rewrite build_graph_cons in Hraise. cbn zeta in Hraise.
    destruct Hr as [Hr|Hr]; rewrite Hr in Hraise; discriminate Hraise.
  - intros _ [k Hall].
    assert (build_loop (sorted_by_step (m :: msgs)) ([], nx.empty, h0) = (Ok tt, (nm, g, h)))
      as Hloop.
    { apply (Hk k); [by rewrite sorted_by_step_perm|constructor]. }
    pose proof (build_graph_cons m msgs self h0) as Hbuild. cbn zeta in Hbuild.
    rewrite Hloop in Hbuild. eexists _, _. split; [exact Hbuild|].
    by destruct (built_model _ _ _ _ Hbuild) as (_ & Hw & Hb & _).
Qed.

(** ** Snapshots *)

(** With a bound that is not zero, [to_graph_snapshot] converts the view that
    [filter_graph_by_step] returns. *)
Lemma to_graph_snapshot_filtered msgs w0 base w wa max_step :
  build_graph msgs w0 = (Ok base, w) → after_reads w wa → max_step ≠ 0%Z →
  ∃ view h' ns,
    filter_graph_by_step max_step wa = (Ok view, (wa.1, h')) ∧
    convert_nodes view = Ok ns ∧ length ns = length (nx.nodes view) ∧
    to_graph_snapshot (Some max_step) wa =
      (Ok {| GraphSnapshot.nodes := ns;
             GraphSnapshot.edges := convert_edges h' view;
             GraphSnapshot.current_step := Some max_step;
             GraphSnapshot.total_steps := max_step_index (messages wa.1);
             GraphSnapshot.metadata :=
               {| GraphSnapshot.node_count := Z.of_nat (length ns);
                  GraphSnapshot.edge_count := Z.of_nat (length (convert_edges h' view));
                  GraphSnapshot.message_count := Z.of_nat (length (messages wa.1)) |} |},
       (wa.1, h')).
Proof.
  intros Hb Hr HK. destruct (built_model _ _ _ _ Hb) as (_ & _ & Hbuilt & _ & Hall).
  destruct (after_reads_intact _ _ _ _ _ Hb Hr) as [Hself _].
  destruct (filter_built _ _ _ _ _ max_step Hb Hr) as (view & h' & Hf & _ & _ & Ha & _).
  assert (all_attrs view) as Hallv.
  { unfold all_attrs. rewrite Ha. apply Forall_forall.
    intros p [_ Hp]%list_elem_of_filter. by apply (proj1 (Forall_forall _ _) Hall). }
  destruct (convert_nodes_Ok view Hallv) as (ns & Hns & Hlen).
  exists view, h', ns.
  split_and!; [done..|unfold nx.nodes; by rewrite Hlen, length_fmap|].
  destruct wa as [self h]. unfold to_graph_snapshot, truthy_int.
  cbn [fst snd] in *. rewrite Hself, Hbuilt, <-Hself.
  rewrite bool_decide_eq_true_2 by done.
  change (default 0%Z (Some max_step)) with max_step. rewrite Hf, Hns. done.
Qed.

(** With the bound [0] the test [if max_step] fails as it does for [None]:
    the snapshot is the one of the whole graph, but for [current_step]. *)
Lemma to_graph_snapshot_zero w :
  to_graph_snapshot (Some 0%Z) w =
  match to_graph_snapshot None w with
  | (Ok s, w') =>
      (Ok {| GraphSnapshot.nodes := GraphSnapshot.nodes s;
             GraphSnapshot.edges := GraphSnapshot.edges s;
             GraphSnapshot.current_step := Some 0%Z;
             GraphSnapshot.total_steps := GraphSnapshot.total_steps s;
             GraphSnapshot.metadata := GraphSnapshot.metadata s |}, w')
  | (Raise x, w') => (Raise x, w')
  end.
Proof.
  destruct w as [self h]. unfold to_graph_snapshot. simpl.
  destruct (built self) as [g|]; [|done]. by destruct (convert_nodes g).
Qed.

Lemma build_scenario_A : build_graph scenario_A world0 = (Ok graph_A, world_A).
Proof. vm_compute. reflexivity. Qed.

(** C3, at the failing input: on the model of scenario A,
    [to_graph_snapshot] with [max_step = 0] returns all three edges with all
    their interactions, up to step 3, and all three nodes, with
    [current_step = 0], whereas [filter_graph_by_step 0] returns the single
    edge from A to B and the nodes A and B. *)
Theorem snapshot_at_step_zero_is_not_filtered :
  (λ s, (GraphSnapshot.current_step s,
         NodeData.id <$> GraphSnapshot.nodes s,
         edge_summary <$> GraphSnapshot.edges s))
    <$> returned (to_graph_snapshot (Some 0%Z) world_A) =
  Some (Some 0%Z, ["A"; "B"; "C"],
        [("A", "B", 1%Z, [0%Z]); ("A", "C", 1%Z, [3%Z]); ("B", "A", 2%Z, [1%Z; 2%Z])]) ∧
  (λ view, (nx.nodes view,
            edge_summary <$> convert_edges (filter_graph_by_step 0 world_A).2.2 view))
    <$> returned (filter_graph_by_step 0 world_A) =
  Some (["A"; "B"], [("A", "B", 1%Z, [0%Z])]).
Proof. split; vm_compute; reflexivity. Qed.

(** C4, at the failing input: on the model of scenario A every node of the
    snapshot has [messages_sent = 0] and [messages_received = 0], although A
    is the sender of two messages and the receiver of two; the builder only
    maintains [message_count]. *)
Theorem messages_sent_and_received_stay_zero :
  (λ s, (λ n, (NodeData.id n, NodeData.messages_sent n, NodeData.messages_received n,
               NodeData.message_count n)) <$> GraphSnapshot.nodes s)
    <$> returned (to_graph_snapshot None world_A) =
  Some [("A", 0%Z, 0%Z, 2%Z); ("B", 0%Z, 0%Z, 2%Z); ("C", 0%Z, 0%Z, 0%Z)] ∧
  length (filter (λ m, Message.sender m = "A") scenario_A) = 2 ∧
  length (filter (λ m, Message.receiver m = Some "A") scenario_A) = 2.
Proof. split_and!; vm_compute; reflexivity. Qed.

(** No node dictionary has the keys [messages_sent] and [messages_received]:
    whatever was built, the two fields of a converted node are 0. *)
Lemma to_NodeData_counters d n :
  to_NodeData d = Ok n → NodeData.messages_sent n = 0%Z ∧ NodeData.messages_received n = 0%Z.
Proof. destruct d; intros [= <-]; done. Qed.

(** C7, counterexample: on the model of scenario A the snapshot at
    [max_step = 1] reports [message_count = 4], the number of all messages,
    although only two messages have [step_index <= 1] and the view holds two
    interactions. *)
Lemma snapshot_message_count_is_of_base_model :
  GraphSnapshot.metadata <$> returned (to_graph_snapshot (Some 1%Z) world_A) =
    Some {| GraphSnapshot.node_count := 2; GraphSnapshot.edge_count := 2;
            GraphSnapshot.message_count := 4 |} ∧
  length (filter (λ m, (Message.step_index m ≤ 1)%Z) scenario_A) = 2 ∧
  (λ s, length (GraphSnapshot.edges s ≫= EdgeData.interactions))
    <$> returned (to_graph_snapshot (Some 1%Z) world_A) = Some 2 ∧
  (λ s, GraphSnapshot.message_count (GraphSnapshot.metadata s))
    <$> returned (to_graph_snapshot (Some 1%Z) world_A) ≠
  Some (Z.of_nat (length (filter (λ m, (Message.step_index m ≤ 1)%Z) scenario_A))).
Proof. split_and!; vm_compute; [reflexivity..|discriminate]. Qed.

(** C7, amended. For every built model, whatever reading calls were made
    before, and for every positive [max_step], the snapshot converts the
    nodes and edges of the view that [filter_graph_by_step] returns; its
    [node_count] and [edge_count] are the numbers of nodes and edges of that
    view, and its [message_count] is the number of all messages given to
    [build_graph]. *)
Theorem snapshot_counts_nodes_and_edges_of_view msgs w0 base w wa max_step :
  build_graph msgs w0 = (Ok base, w) →
  after_reads w wa →
  (0 < max_step)%Z →
  ∃ view wb s,
    filter_graph_by_step max_step wa = (Ok view, wb) ∧
    to_graph_snapshot (Some max_step) wa = (Ok s, wb) ∧
    convert_nodes view = Ok (GraphSnapshot.nodes s) ∧
    GraphSnapshot.edges s = convert_edges wb.2 view ∧
    GraphSnapshot.current_step s = Some max_step ∧
    GraphSnapshot.node_count (GraphSnapshot.metadata s) =
      Z.of_nat (length (nx.nodes view)) ∧
    GraphSnapshot.edge_count (GraphSnapshot.metadata s) =
      Z.of_nat (length (nx.edges view)) ∧
    GraphSnapshot.message_count (GraphSnapshot.metadata s) = Z.of_nat (length msgs).
Proof.
  intros Hb Hr HK. destruct (built_model _ _ _ _ Hb) as (_ & Hw & _).
  destruct (after_reads_intact _ _ _ _ _ Hb Hr) as [Hself _].
  destruct (to_graph_snapshot_filtered _ _ _ _ _ max_step Hb Hr)
    as (view & h' & ns & Hf & Hns & Hlen & ->); [lia|].
  eexists view, (wa.1, h'), _. split_and!; [done..| | |]; simpl.
  - by rewrite Hlen.
  - unfold convert_edges. by rewrite length_fmap.
  - rewrite Hself, Hw. cbn [messages]. by rewrite sorted_by_step_length.
Qed.

(** ** Metrics *)

Lemma centrality_of_values deg g :
  (1 < nx.number_of_nodes g)%Z → degree_products deg g (nx.centrality_of deg g).
Proof.
  intros Hn. unfold degree_products, nx.centrality_of.
  rewrite bool_decide_eq_false_2 by lia.
  apply Forall2_fmap_r, Forall_Forall2_diag, Forall_forall. by intros k _.
Qed.

Lemma centrality_of_one deg g :
  nx.number_of_nodes g = 1%Z → all_one g (nx.centrality_of deg g).
Proof.
  intros Hn. unfold all_one, nx.centrality_of. by rewrite bool_decide_eq_true_2 by lia.
Qed.

Lemma centrality_of_keys deg g : (nx.centrality_of deg g).*1 = nx.nodes g.
Proof.
  unfold nx.centrality_of.
  case_bool_decide; rewrite <-list_fmap_compose;
    (induction (nx.nodes g) as [|n l IH]; [done|]; rewrite fmap_cons, IH; done).
Qed.

(** C6, counterexample: the graph built from one broadcast message has one
    node, and its metrics contain the three centrality fields. *)
Lemma single_node_metrics_have_centrality :
  (λ m, (node_count m, degree_centrality m, in_degree_centrality m,
         out_degree_centrality m))
    <$> returned
          (get_graph_metrics
             (build_graph [msg 0 "A" None MessageType.THOUGHT] world0).2) =
  Some (1%Z, Some [("A", nx.Int 1)], Some [("A", nx.Int 1)], Some [("A", nx.Int 1)]).
Proof. vm_compute. reflexivity. Qed.

(** C6, amended. For every graph held by the builder with [n] nodes: when
    [n >= 1] the metrics contain the three centrality fields, each with one
    value for every node, in the order of the nodes; when [n = 1] the value
    is the [int] 1, and when [n > 1] it is the float product of the degree
    (in-degree, out-degree) and [1.0 / (n - 1.0)], which is not always the
    float quotient of the degree and [n - 1]: for the degree 49 of 50 nodes
    it is below [49.0 / 49.0].  When [n = 0] the call raises and there are
    no metrics. *)
Theorem centrality_present_for_nonempty_graph self h g :
  graph self = Some g →
  (nx.number_of_nodes g = 0%Z →
   get_graph_metrics (self, h) = (Raise not_built, (self, h))) ∧
  ((1 ≤ nx.number_of_nodes g)%Z →
   ∃ m, get_graph_metrics (self, h) = (Ok m, (self, h)) ∧
        node_count m = nx.number_of_nodes g ∧
        degree_centrality m = Some (nx.degree_centrality g) ∧
        in_degree_centrality m = Some (nx.in_degree_centrality g) ∧
        out_degree_centrality m = Some (nx.out_degree_centrality g)) ∧
  ((nx.degree_centrality g).*1 = nx.nodes g ∧
   (nx.in_degree_centrality g).*1 = nx.nodes g ∧
   (nx.out_degree_centrality g).*1 = nx.nodes g) ∧
  (nx.number_of_nodes g = 1%Z →
   all_one g (nx.degree_centrality g) ∧
   all_one g (nx.in_degree_centrality g) ∧
   all_one g (nx.out_degree_centrality g)) ∧
  ((1 < nx.number_of_nodes g)%Z →
   degree_products nx.degree g (nx.degree_centrality g) ∧
   degree_products nx.in_degree g (nx.in_degree_centrality g) ∧
   degree_products nx.out_degree g (nx.out_degree_centrality g)) ∧
  PrimFloat.ltb (nx.scaled 49 50)
    (PrimFloat.div (nx.float_of_int 49) (nx.float_of_int 49)) = true.
Proof.
  intros Hg. unfold get_graph_metrics, built. rewrite Hg. split_and!.
  - destruct g; [done|]. unfold nx.number_of_nodes. simpl. lia.
  - destruct g as [|p g]; [unfold nx.number_of_nodes; simpl; lia|]. intros _.
    rewrite bool_decide_eq_true_2 by (unfold nx.number_of_nodes; simpl; lia).
    by eexists.
  - apply centrality_of_keys.
  - apply centrality_of_keys.
  - apply centrality_of_keys.
  - intros Hn. split_and!; by apply centrality_of_one.
  - intros Hn. split_and!; by apply centrality_of_values.
  - vm_compute. reflexivity.
Qed.

(** ** The theorems at the sample model *)


Lemma build_fails_with_value_error_exactly_on_empty_input_witness :
  scenario_A ≠ [] ∧
  (∃ k, Forall (λ m, datetime.aware (Message.timestamp m) = k) scenario_A) ∧
  ∃ g h, build_graph scenario_A world0 =
           (Ok g, ({| graph := Some g; messages := sorted_by_step scenario_A |}, h)) ∧
         built {| graph := Some g; messages := sorted_by_step scenario_A |} = Some g.
Proof.
  assert (scenario_A ≠ []) as Hne by discriminate.
  assert (∃ k, Forall (λ m, datetime.aware (Message.timestamp m) = k) scenario_A) as Hk
    by (exists false; repeat constructor).
  split_and!; [exact Hne|exact Hk|].
  destruct (build_fails_with_value_error_exactly_on_empty_input scenario_A world0)
    as (_ & _ & Hok).
  exact (Hok Hne Hk).
Defined.

Lemma filter_monotone_in_bound_witness :
  build_graph scenario_A world0 = (Ok graph_A, world_A) ∧
  (0 < 1)%Z ∧
  after_reads world_A world_A ∧
  filter_graph_by_step 0 world_A = (Ok view_A_0, world_A_0) ∧
  after_reads world_A world_A_0 ∧
  filter_graph_by_step 1 world_A_0 = (Ok view_A_1, world_A_1) ∧
  nx.nodes view_A_0 ⊆ nx.nodes view_A_1 ∧
  (nx.edges view_A_0).*1 ⊆ (nx.edges view_A_1).*1 ∧
  ∀ u v ed1,
    (u, v, ed1) ∈ edges_data world_A_0.2 view_A_0 →
    ∃ ed2, (u, v, ed2) ∈ edges_data world_A_1.2 view_A_1 ∧
           (length (EdgeData.interactions ed1) ≤ length (EdgeData.interactions ed2))%nat.
Proof.
  assert (build_graph scenario_A world0 = (Ok graph_A, world_A)) as Hb
    by (vm_compute; reflexivity).
  assert (filter_graph_by_step 0 world_A = (Ok view_A_0, world_A_0)) as H0
    by (vm_compute; reflexivity).
  assert (filter_graph_by_step 1 world_A_0 = (Ok view_A_1, world_A_1)) as H1
    by (vm_compute; reflexivity).
  assert (0 < 1)%Z as H01 by lia.
  pose proof (after_nothing world_A) as Hr0.
  pose proof (after_filter _ _ _ _ _ Hr0 H0) as Hr1.
  pose proof (filter_monotone_in_bound scenario_A world0 graph_A world_A 0 1
                world_A view_A_0 world_A_0 world_A_0 view_A_1 world_A_1
                Hb H01 Hr0 H0 Hr1 H1) as (Hn & He & Hi).
  split_and!; assumption.
Defined.

Lemma weight_is_interaction_count_witness :
  build_graph scenario_A world0 = (Ok graph_A, world_A) ∧
  (∀ u v ed, (u, v, ed) ∈ edges_data world_A.2 graph_A →
             EdgeData.weight ed = Z.of_nat (length (EdgeData.interactions ed))) ∧
  after_reads world_A world_A_0 ∧
  filter_graph_by_step 1 world_A_0 = (Ok view_A_1, world_A_1) ∧
  (∀ u v ed, (u, v, ed) ∈ edges_data world_A_1.2 view_A_1 →
             EdgeData.weight ed = Z.of_nat (length (EdgeData.interactions ed))).
Proof.
  assert (build_graph scenario_A world0 = (Ok graph_A, world_A)) as Hb
    by (vm_compute; reflexivity).
  assert (filter_graph_by_step 0 world_A = (Ok view_A_0, world_A_0)) as H0
    by (vm_compute; reflexivity).
  assert (filter_graph_by_step 1 world_A_0 = (Ok view_A_1, world_A_1)) as H1
    by (vm_compute; reflexivity).
  pose proof (after_filter _ _ _ _ _ (after_nothing world_A) H0) as Hr1.
  destruct (weight_is_interaction_count scenario_A world0 graph_A world_A Hb)
    as [Hbase Hview].
  destruct (Hview world_A_0 1%Z view_A_1 world_A_1 Hr1 H1) as [Hv _].
  split_and!; assumption.
Defined.

Lemma filter_leaves_base_model_unchanged_witness :
  build_graph scenario_A world0 = (Ok graph_A, world_A) ∧
  after_reads world_A world_A_0 ∧
  filter_graph_by_step 1 world_A_0 = (Ok view_A_1, world_A_1) ∧
  world_A_1.1 = world_A.1 ∧
  graph world_A_1.1 = Some graph_A ∧
  edges_data world_A_1.2 graph_A = edges_data world_A.2 graph_A.
Proof.
  assert (build_graph scenario_A world0 = (Ok graph_A, world_A)) as Hb
    by (vm_compute; reflexivity).
  assert (filter_graph_by_step 0 world_A = (Ok view_A_0, world_A_0)) as H0
    by (vm_compute; reflexivity).
  assert (filter_graph_by_step 1 world_A_0 = (Ok view_A_1, world_A_1)) as H1
    by (vm_compute; reflexivity).
  pose proof (after_filter _ _ _ _ _ (after_nothing world_A) H0) as Hr1.
  destruct (filter_leaves_base_model_unchanged
              scenario_A world0 graph_A world_A world_A_0 1 view_A_1 world_A_1 Hb Hr1 H1)
    as (_ & Hw & Hg & _ & _ & _ & Hed & _).
  split_and!; assumption.
Defined.

Lemma intent_never_information_request_witness :
  build_graph scenario_A world0 = (Ok graph_A, world_A) ∧
  ∀ u v ed i,
    (u, v, ed) ∈ edges_data world_A.2 graph_A → i ∈ EdgeData.interactions ed →
    Interaction.intent i ≠ IntentLabel.INFORMATION_REQUEST.
Proof.
  assert (build_graph scenario_A world0 = (Ok graph_A, world_A)) as Hb
    by (vm_compute; reflexivity).
  split; [exact Hb|]. intros u v ed i Hin Hi.
  destruct (intent_never_information_request scenario_A world0 graph_A world_A Hb)
    as [_ Hall].
  destruct (Hall u v ed i Hin Hi) as (_ & _ & Hne). exact Hne.
Defined.

Lemma snapshot_counts_nodes_and_edges_of_view_witness :
  build_graph scenario_A world0 = (Ok graph_A, world_A) ∧
  after_reads world_A world_A ∧
  (0 < 1)%Z ∧
  ∃ view wb s,
    filter_graph_by_step 1 world_A = (Ok view, wb) ∧
    to_graph_snapshot (Some 1%Z) world_A = (Ok s, wb) ∧
    GraphSnapshot.node_count (GraphSnapshot.metadata s) =
      Z.of_nat (length (nx.nodes view)) ∧
    GraphSnapshot.edge_count (GraphSnapshot.metadata s) =
      Z.of_nat (length (nx.edges view)) ∧
    GraphSnapshot.message_count (GraphSnapshot.metadata s) =
      Z.of_nat (length scenario_A).
Proof.
  assert (build_graph scenario_A world0 = (Ok graph_A, world_A)) as Hb
    by (vm_compute; reflexivity).
  assert (0 < 1)%Z as H01 by lia.
  pose proof (after_nothing world_A) as Hr.
  split_and!; [exact Hb|exact Hr|exact H01|].
  destruct (snapshot_counts_nodes_and_edges_of_view
              scenario_A world0 graph_A world_A world_A 1 Hb Hr H01)
    as (view & wb & s & Hf & Hs & _ & _ & _ & Hn & He & Hm).
  exists view, wb, s. split_and!; assumption.
Defined.

Lemma centrality_present_for_nonempty_graph_witness :
  graph world_A.1 = Some graph_A ∧
  ∃ m, get_graph_metrics world_A = (Ok m, world_A) ∧
       node_count m = nx.number_of_nodes graph_A ∧
       degree_centrality m = Some (nx.degree_centrality graph_A) ∧
       in_degree_centrality m = Some (nx.in_degree_centrality graph_A) ∧
       out_degree_centrality m = Some (nx.out_degree_centrality graph_A).
Proof.
  assert (graph world_A.1 = Some graph_A) as Hg by reflexivity.
  split; [exact Hg|].
  destruct (centrality_present_for_nonempty_graph world_A.1 world_A.2 graph_A Hg)
    as (_ & Hpresent & _).
  apply Hpresent. vm_compute. discriminate.
Defined.

(** * The graph as a function of the messages *)

(** ** The edges *)

Lemma add_interaction_items msgs m g h g' h' :
  truthy (Message.receiver m) = true →
  Message.sender m ∈ nx.nodes g →
  default "" (Message.receiver m) ∈ nx.nodes g →
  store_inv msgs h g →
  _add_interaction m (g, h) = (g', h') →
  edges_data h' g' ≡ₚ record_interaction m (edges_data h g).
Proof.
  intros Ht Hu Hr (Hwf & Hnd & Hndl & Hall). unfold _add_interaction, record_interaction.
  rewrite Ht. simpl. unfold edge_key.
  set (u := Message.sender m) in *. set (v := default "" (Message.receiver m)) in *.
  set (i := new_interaction m).
  destruct (nx.get_edge u v g) as [d|] eqn:Hget.
  - change (Heap.set_dict d _ _) with (append_interaction i d h).
    intros [= <- <-].
    apply get_edge_elem in Hget; [|done].
    rewrite bool_decide_eq_true_2.
    2:{ rewrite edges_data_fst. apply list_elem_of_fmap. by exists (u, v, d). }
    pose proof (proj1 (Forall_forall _ _) Hall _ Hget) as (Hvd & _).
    destruct (append_interaction_spec i d h Hvd) as ((_ & _ & Hread) & Hother).
    unfold edges_data. rewrite <-list_fmap_compose.
    match goal with |- ?a ≡ₚ ?b => enough (a = b) as -> by done end.
    apply list_fmap_ext. intros _ e He%list_elem_of_lookup_2.
    simpl. case_bool_decide as Hk.
    + assert (e = (u, v, d)) as ->.
      { apply (NoDup_fst_inj (nx.edges g)); [by apply NoDup_edge_keys|done..]. }
      simpl. by rewrite Hread.
    + f_equal.
      pose proof (proj1 (Forall_forall _ _) Hall _ He) as (Hve & _).
      apply Hother; [| |done].
      * intros Heq. apply Hk.
        assert (e = (u, v, d)) as ->; [|done].
        apply (NoDup_fmap_elem_inj snd (nx.edges g)); done.
      * intros Hleq. apply Hk.
        assert (e.2 = d) as Heq.
        { apply (NoDup_fmap_elem_inj (list_loc h) (nx.edges g).*2); [done| | |done].
          - apply list_elem_of_fmap. by exists e.
          - apply list_elem_of_fmap. by exists (u, v, d). }
        assert (e = (u, v, d)) as ->; [|done].
        apply (NoDup_fmap_elem_inj snd (nx.edges g)); done.
  - unfold nx.add_edge. simpl. rewrite !add_node_id by (by rewrite ?add_node_id).
    rewrite Hget. simpl. intros [= <- <-].
    rewrite bool_decide_eq_false_2.
    2:{ rewrite edges_data_fst. intros ([[u' v'] d'] & [= <- <-] & Hin)%list_elem_of_fmap.
        apply get_edge_elem in Hin; [congruence|done]. }
    set (a := {| EdgeAttr.interactions := length (Heap.lists h); EdgeAttr.weight := 1;
                 EdgeAttr.source := u; EdgeAttr.target := v |}).
    set (h' := {| Heap.lists := Heap.lists h ++ [[i]]; Heap.dicts := Heap.dicts h ++ [a] |}).
    set (d := length (Heap.dicts h)).
    assert (preserves [] h h') as Hp.
    { split_and!; simpl; [by apply prefix_app_r|rewrite length_app; lia|].
      intros d' Hd' _. by rewrite lookup_app_l. }
    assert (Heap.dict_at h' d = a) as Hda
      by (unfold Heap.dict_at, h', d; simpl; by rewrite list_lookup_middle).
    pose proof (edges_add_succ u v d g (proj1 Hwf) Hu) as Hperm.
    unfold edges_data at 1. rewrite Hperm, fmap_app. apply Permutation_app.
    + match goal with |- ?a ≡ₚ ?b => enough (a = b) as -> by done end.
      apply list_fmap_ext. intros _ e He%list_elem_of_lookup_2.
      simpl. f_equal.
      pose proof (proj1 (Forall_forall _ _) Hall _ He) as (Hve & _).
      apply (to_EdgeData_preserved [] h h'); [done..|apply not_elem_of_nil].
    + simpl. unfold to_EdgeData. fold d. rewrite Hda. simpl.
      assert (Heap.list_at h' (length (Heap.lists h)) = [i]) as ->
        by (unfold Heap.list_at, h'; simpl; by rewrite list_lookup_middle).
      done.
Qed.

Lemma record_interaction_perm m items items' :
  items ≡ₚ items' → record_interaction m items ≡ₚ record_interaction m items'.
Proof.
  intros Hp. unfold record_interaction.
  destruct (truthy _); [|done].
  assert (edge_key m ∈ items.*1 ↔ edge_key m ∈ items'.*1) as Hiff by (by rewrite Hp).
  do 2 case_bool_decide; try tauto; by rewrite Hp.
Qed.

Lemma build_step_items msgs m st st' :
  m ∈ msgs → loop_inv msgs st →
  build_step st m = (Ok tt, st') →
  edges_data st'.2 st'.1.2 ≡ₚ record_interaction m (edges_data st.2 st.1.2).
Proof.
  destruct st as [[nm g] h]. intros Hm [Hn Hinv]. unfold build_step. cbn [fst snd] in *.
  destruct (_add_or_update_node (Message.sender m) m (nm, g)) as [r1 [nm1 g1]] eqn:H1.
  destruct (add_or_update_node_spec _ _ _ _ _ _ _ H1 Hn)
    as (Hn1 & Hs1 & He1 & Hwf1 & Hmono1 & _).
  assert (store_inv msgs h g1) as Hinv1.
  { eapply store_inv_edges_eq; [|done..]. apply Hwf1, Hinv. }
  destruct r1 as [[]|]; [|done].
  destruct (truthy (Message.receiver m)) eqn:Ht.
  2:{ intros [= <-]. cbn [fst snd]. unfold record_interaction. rewrite Ht.
      unfold edges_data. by rewrite He1. }
  destruct (_add_or_update_node _ m (nm1, g1)) as [r2 [nm2 g2]] eqn:H2.
  destruct (add_or_update_node_spec _ _ _ _ _ _ _ H2 Hn1)
    as (Hn2 & Hs2 & He2 & Hwf2 & Hmono2 & _).
  assert (store_inv msgs h g2) as Hinv2.
  { eapply store_inv_edges_eq; [|done..]. apply Hwf2, Hinv1. }
  destruct r2 as [[]|]; [|done].
  destruct (_add_interaction m (g2, h)) as [g3 h3] eqn:H3.
  intros [= <-]. cbn [fst snd].
  rewrite (add_interaction_items msgs m g2 h g3 h3); auto.
  unfold edges_data. by rewrite He2, He1.
Qed.

Lemma build_loop_items msgs l : ∀ st st',
  (∀ m, m ∈ l → m ∈ msgs) → loop_inv msgs st →
  build_loop l st = (Ok tt, st') →
  edges_data st'.2 st'.1.2 ≡ₚ record_all l (edges_data st.2 st.1.2).
Proof.
  induction l as [|m l IH]; intros st st' Hsub Hinv; simpl.
  - by intros [= <-].
  - destruct (build_step st m) as [r st1] eqn:Hstep. destruct r as [[]|]; [|done].
    intros Hloop.
    destruct (build_step_inv msgs m st st1) as (Hinv1 & _); [|done..|].
    { apply Hsub. by left. }
    rewrite (IH st1 st'); [|by intros m' ?; apply Hsub; right|done..].
    pose proof (build_step_items msgs m st st1 (Hsub m ltac:(by left)) Hinv Hstep) as Hp.
    clear -Hp. revert Hp. generalize (edges_data st1.2 st1.1.2).
    generalize (record_interaction m (edges_data st.2 st.1.2)).
    unfold record_all. induction l as [|m' l IH]; intros a b Hp; simpl; [done|].
    by apply IH, record_interaction_perm.
Qed.

Lemma from_to_snoc k l m :
  from_to k (l ++ [m]) =
  from_to k l ++ (if bool_decide (truthy (Message.receiver m) = true ∧ edge_key m = k)
                  then [m] else []).
Proof.
  unfold from_to. rewrite filter_app. f_equal.
  destruct k as [u v]. unfold edge_key, truthy. simpl.
  destruct (Message.receiver m) as [r|] eqn:Hr; simpl.
  - destruct (decide (Message.sender m = u ∧ r = v ∧ v ≠ "")) as [(Hs & Hrv & Hv)|Hn].
    + rewrite filter_cons_True by (by rewrite Hr, Hrv).
      rewrite bool_decide_eq_true_2; [done|]. subst.
      split; [by apply bool_decide_eq_true_2|done].
    + rewrite filter_cons_False by (rewrite Hr; intros (? & [= ?] & ?); tauto).
      rewrite bool_decide_eq_false_2; [done|].
      intros [Hv%bool_decide_eq_true [= ? ?]]. subst. tauto.
  - by rewrite filter_cons_False by (rewrite Hr; by intros (? & ? & ?)).
Qed.

Lemma with_interaction_edge_of k ms m :
  with_interaction (new_interaction m) (edge_of k ms) = edge_of k (ms ++ [m]).
Proof.
  unfold with_interaction, edge_of. simpl. rewrite fmap_app, length_app. simpl.
  f_equal. lia.
Qed.

Lemma record_interaction_spec l m items :
  edges_of_messages l items → edges_of_messages (l ++ [m]) (record_interaction m items).
Proof.
  intros [Hnd Hchar]. unfold record_interaction.
  destruct (truthy (Message.receiver m)) eqn:Ht.
  2:{ split; [done|]. intros k ed. rewrite from_to_snoc.
      rewrite bool_decide_eq_false_2 by (intros [? _]; congruence). by rewrite app_nil_r. }
  set (km := edge_key m). set (i := new_interaction m).
  assert (∀ k, from_to k (l ++ [m]) =
               if decide (k = km) then from_to k l ++ [m] else from_to k l) as Hft.
  { intros k. rewrite from_to_snoc. fold km. destruct (decide (k = km)) as [->|Hne].
    - by rewrite bool_decide_eq_true_2.
    - rewrite bool_decide_eq_false_2 by (intros [_ ?]; congruence). by rewrite app_nil_r. }
  case_bool_decide as Hin.
  - set (f := λ it : string * string * EdgeData.t,
              if bool_decide (it.1 = km) then (it.1, with_interaction i it.2) else it).
    assert ((f <$> items).*1 = items.*1) as Hkeys.
    { rewrite <-list_fmap_compose. apply list_fmap_ext. intros _ [k ed] _.
      unfold f. simpl. by case_bool_decide. }
    split; [by rewrite Hkeys|].
    intros k ed. rewrite Hft, list_elem_of_fmap. split.
    + intros ([k0 ed0] & Heq & Hit). apply Hchar in Hit as [Hne ->].
      unfold f in Heq. simpl in Heq. case_bool_decide as Hk; simplify_eq.
      * rewrite decide_True by done. split; [by intros [? _]%app_eq_nil|].
        apply with_interaction_edge_of.
      * by rewrite decide_False by done.
    + intros [Hne ->]. destruct (decide (k = km)) as [->|Hk].
      * apply list_elem_of_fmap in Hin as ([k0 ed0] & Hk0 & Hit). simpl in Hk0. subst k0.
        exists (km, ed0). split; [|done].
        apply Hchar in Hit as [_ ->]. unfold f. simpl.
        rewrite bool_decide_eq_true_2 by done. unfold i.
        by rewrite with_interaction_edge_of.
      * exists (k, edge_of k (from_to k l)). split; [|by apply Hchar].
        unfold f. simpl. by rewrite bool_decide_eq_false_2.
  - assert (from_to km l = []) as Hnil.
    { destruct (from_to km l) eqn:Heq; [done|]. exfalso. apply Hin.
      apply list_elem_of_fmap. exists (km, edge_of km (from_to km l)).
      split; [done|]. apply Hchar. by rewrite Heq. }
    split.
    + rewrite fmap_app. apply NoDup_app. split_and!; [done| |apply NoDup_singleton].
      by intros k ? ->%list_elem_of_singleton.
    + intros k ed. rewrite Hft, elem_of_app, list_elem_of_singleton, Hchar.
      destruct (decide (k = km)) as [->|Hk].
      * rewrite Hnil. simpl. split.
        -- intros [[? _]|[= ->]]; done.
        -- intros [_ ->]. by right.
      * split; [intros [?|[= ? ?]]; [done|congruence]|by left].
Qed.

Lemma record_all_spec l : edges_of_messages l (record_all l []).
Proof.
  induction l as [|m l IH] using rev_ind.
  - split; [constructor|]. intros k ed. split; [by intros ?%elem_of_nil|by intros [? _]].
  - unfold record_all. rewrite foldl_app. simpl. by apply record_interaction_spec.
Qed.

Lemma total_weight_perm items items' :
  items ≡ₚ items' → total_weight items = total_weight items'.
Proof.
  unfold total_weight. induction 1 as [|x l l' _ IH|x y l|l l' l'' _ IH1 _ IH2]; simpl;
    [done|by rewrite IH|lia|congruence].
Qed.

Lemma total_weight_app items items' :
  total_weight (items ++ items') = (total_weight items + total_weight items')%Z.
Proof. unfold total_weight. induction items as [|x l IH]; simpl; [done|]. rewrite IH. lia. Qed.

Lemma total_weight_record m items :
  NoDup items.*1 →
  total_weight (record_interaction m items) =
  (total_weight items + if truthy (Message.receiver m) then 1 else 0)%Z.
Proof.
  intros Hnd. unfold record_interaction. destruct (truthy _); [|lia].
  case_bool_decide as Hin.
  - induction items as [|[k ed] items IH]; [by apply elem_of_nil in Hin|].
    rewrite fmap_cons in Hnd. apply NoDup_cons in Hnd as [Hk Hnd].
    rewrite fmap_cons. simpl in *. case_bool_decide as Hkm.
    + subst k. simpl. 
      assert ((λ it : string * string * EdgeData.t,
                 if bool_decide (it.1 = edge_key m)
                 then (it.1, with_interaction (new_interaction m) it.2) else it) <$> items
              = items) as ->; [|lia].
      rewrite <-(list_fmap_id items) at 2. apply list_fmap_ext.
      intros _ [k' ed'] Hit%list_elem_of_lookup_2. simpl.
      rewrite bool_decide_eq_false_2; [done|]. intros ->. apply Hk.
      apply list_elem_of_fmap. by exists (edge_key m, ed').
    + apply elem_of_cons in Hin as [?|Hin]; [congruence|].
      specialize (IH Hnd Hin). unfold total_weight in *. simpl in *. lia.
  - rewrite total_weight_app. unfold total_weight. simpl. lia.
Qed.

Lemma total_weight_record_all l :
  total_weight (record_all l []) =
  Z.of_nat (length (filter (λ m, truthy (Message.receiver m) = true) l)).
Proof.
  induction l as [|m l IH] using rev_ind; [done|].
  unfold record_all. rewrite foldl_app. simpl.
  rewrite total_weight_record by apply (record_all_spec l).
  fold (record_all l []). rewrite IH, filter_app, length_app.
  destruct (truthy (Message.receiver m)) eqn:Ht.
  - rewrite (filter_cons_True _ m) by done. simpl. lia.
  - rewrite (filter_cons_False _ m) by (by rewrite Ht). simpl. lia.
Qed.

Lemma build_graph_items msgs w0 base w :
  build_graph msgs w0 = (Ok base, w) →
  edges_data w.2 base ≡ₚ record_all (sorted_by_step msgs) [].
Proof.
  destruct w0 as [self h0]. destruct msgs as [|m0 msgs0]; [done|].
  rewrite build_graph_cons. cbn zeta. set (msgs := m0 :: msgs0).
  assert (∀ m, m ∈ sorted_by_step msgs → m ∈ msgs) as Hsub.
  { intros m. by rewrite sorted_by_step_perm. }
  assert (loop_inv msgs ([], nx.empty, h0)) as Hinit.
  { split; [done|]. split_and!; simpl; [split|..]; constructor. }
  destruct (build_loop (sorted_by_step msgs) _) as [r [[nm g] h]] eqn:Hloop.
  destruct r as [[]|]; [|done].
  pose proof (build_loop_items msgs _ _ _ Hsub Hinit Hloop) as Hitems.
  cbn [fst snd] in Hitems.
  destruct (foldl_update_node nm g) as (He & _).
  intros [= <- <-]. cbn [fst snd]. unfold edges_data in *. by rewrite He.
Qed.

Lemma build_graph_edges msgs w0 base w :
  build_graph msgs w0 = (Ok base, w) →
  edges_of_messages (sorted_by_step msgs) (edges_data w.2 base).
Proof.
  intros Hb. pose proof (build_graph_items _ _ _ _ Hb) as Hp.
  destruct (record_all_spec (sorted_by_step msgs)) as [Hnd Hchar].
  split; [by rewrite Hp|]. intros k ed. by rewrite Hp.
Qed.

(** ** The nodes *)

Lemma datetime_lt_irrefl t : datetime.lt t t = Some false.
Proof. destruct t; simpl; f_equal; apply bool_decide_eq_false_2; lia. Qed.

Lemma latest_max la ts t l :
  latest la l → datetime.max la ts = Some t → latest t (l ++ [ts]).
Proof.
  intros [Hin Hall]. unfold datetime.max.
  destruct (datetime.lt la ts) as [c|] eqn:Hlt; [|done]. intros [= <-].
  destruct c.
  - split; [apply elem_of_app; right; by left|].
    apply Forall_app. split; [|apply Forall_singleton, datetime_lt_irrefl].
    eapply Forall_impl; [exact Hall|]. intros t' Ht'.
    destruct la, ts, t'; simpl in *; try done; simplify_eq; f_equal;
      apply bool_decide_eq_false_2;
      match goal with H : bool_decide _ = true |- _ => apply bool_decide_eq_true in H end;
      match goal with H : bool_decide _ = false |- _ => apply bool_decide_eq_false in H end;
      lia.
  - split; [apply elem_of_app; by left|].
    apply Forall_app. split; [done|]. by apply Forall_singleton.
Qed.

Lemma elem_of_alter_meta f n (nm : node_metadata_t) k md' :
  (k, md') ∈ alter_meta f n nm ↔
  (k ≠ n ∧ (k, md') ∈ nm) ∨ (k = n ∧ ∃ md, (n, md) ∈ nm ∧ md' = f md).
Proof.
  unfold alter_meta. rewrite list_elem_of_fmap. split.
  - intros ([k0 md0] & Heq & Hin). simpl in Heq. case_bool_decide; simplify_eq.
    + right. split; [done|]. by exists md0.
    + by left.
  - intros [[Hk Hin]|[-> (md & Hin & ->)]].
    + exists (k, md'). simpl. by rewrite bool_decide_eq_false_2.
    + exists (n, md). simpl. by rewrite bool_decide_eq_true_2.
Qed.

Lemma call_ok_other cs n k m md : k ≠ n → call_ok cs k md → call_ok (cs ++ [(n, m)]) k md.
Proof.
  intros Hk. unfold call_ok, calls_for, counted_for. rewrite !filter_app.
  rewrite !(filter_cons_False _ (n, m)) by (simpl; intros ?; intuition congruence).
  by rewrite !filter_nil, !app_nil_r.
Qed.

Lemma call_pre_existing cs n m md : n ∈ cs.*1 → call_ok cs n md → call_pre cs n m md.
Proof.
  intros Hin (? & ? & ? & ? & Hfa & ?). split_and!; [done..| |done].
  rewrite Hfa. unfold calls_for. rewrite filter_app.
  destruct (filter (λ c, c.1 = n) cs) as [|c l] eqn:Hf; [|done].
  exfalso. apply list_elem_of_fmap in Hin as ([n' m'] & Heq & Hin).
  simpl in Heq. subst n'.
  assert ((n, m') ∈ filter (λ c : string * Message.t, c.1 = n) cs) as Hin'
    by (by apply list_elem_of_filter).
  rewrite Hf in Hin'. by apply elem_of_nil in Hin'.
Qed.

Lemma call_pre_new cs n m :
  n ∉ cs.*1 → call_pre cs n m (new_node n (Message.timestamp m)).
Proof.
  intros Hin.
  assert (filter (λ c : string * Message.t, c.1 = n) cs = []) as Hf.
  { apply filter_none, Forall_forall. intros [n' m'] Hc ?. simpl in *. subst n'.
    apply Hin, list_elem_of_fmap. by exists (n, m'). }
  assert (counted_for n cs = []) as Hc.
  { unfold counted_for. apply filter_none, Forall_forall. intros [n' m'] Hc [? _].
    simpl in *. subst n'. apply Hin, list_elem_of_fmap. by exists (n, m'). }
  unfold call_pre, calls_for. rewrite filter_app, Hf, Hc. simpl.
  rewrite filter_cons_True by done. simpl.
  split_and!; [done..|]. split; [by left|]. apply Forall_singleton, datetime_lt_irrefl.
Qed.

Lemma call_ok_counted cs n m md t :
  Message.sender m = n → call_pre cs n m md →
  datetime.max (NodeMeta.last_activity md) (Message.timestamp m) = Some t →
  call_ok (cs ++ [(n, m)]) n (set_last_activity t (bump_count md)).
Proof.
  intros Hs (? & ? & ? & Hc & ? & Hla) Hmax. unfold call_ok, counted_for.
  rewrite filter_app, (filter_cons_True _ (n, m)) by done. simpl.
  split_and!; [done..| |done|].
  - rewrite Hc, length_app. unfold counted_for. simpl. lia.
  - rewrite fmap_app. simpl.
    apply (latest_max _ _ _ (NodeMeta.first_appearance md :: _) Hla Hmax).
Qed.

Lemma call_ok_not_counted cs n m md :
  Message.sender m ≠ n → call_pre cs n m md → call_ok (cs ++ [(n, m)]) n md.
Proof.
  intros Hs (? & ? & ? & Hc & ? & Hla). unfold call_ok, counted_for.
  rewrite filter_app, (filter_cons_False _ (n, m)) by (simpl; tauto).
  by rewrite filter_nil, app_nil_r.
Qed.

Lemma add_or_update_node_call cs n m nm g nm' g' :
  call_inv cs nm →
  _add_or_update_node n m (nm, g) = (Ok tt, (nm', g')) →
  call_inv (cs ++ [(n, m)]) nm'.
Proof.
  intros (Hnd & Hkeys & Hok). unfold _add_or_update_node. cbn [fst snd].
  fold (new_node n (Message.timestamp m)).
  set (nm0 := if bool_decide (n ∈ nm.*1) then nm
              else nm ++ [(n, new_node n (Message.timestamp m))]).
  assert (∃ md0, NoDup nm0.*1 ∧ (∀ k, k ∈ nm0.*1 ↔ k ∈ (cs ++ [(n, m)]).*1) ∧
            (∀ k md, k ≠ n → (k, md) ∈ nm0 → call_ok cs k md) ∧
            (∀ md, (n, md) ∈ nm0 ↔ md = md0) ∧ call_pre cs n m md0) as
    (md0 & Hnd0 & Hkeys0 & Hok0 & Hn0 & Hpre).
  { unfold nm0. case_bool_decide as Hin.
    - apply list_elem_of_fmap in Hin as ([n' md0] & Heq & Hin). simpl in Heq. subst n.
      exists md0. split_and!; [done| |by auto| |].
      + intros k. rewrite fmap_app, elem_of_app, <-Hkeys. simpl.
        rewrite list_elem_of_singleton. split; [by left|]. intros [?| ->]; [done|].
        apply list_elem_of_fmap. by exists (n', md0).
      + intros md. split; [|by intros ->]. intros Hmd.
        assert ((n', md) = (n', md0)) by (by apply (NoDup_fst_inj nm)).
        by simplify_eq.
      + apply call_pre_existing; [|by apply Hok]. apply Hkeys.
        apply list_elem_of_fmap. by exists (n', md0).
    - exists (new_node n (Message.timestamp m)). split_and!.
      + rewrite fmap_app. apply NoDup_app. split_and!; [done| |apply NoDup_singleton].
        by intros k ? ->%list_elem_of_singleton.
      + intros k. rewrite !fmap_app, !elem_of_app, Hkeys. done.
      + intros k md Hk [?|[= ? ?]%list_elem_of_singleton]%elem_of_app; [by auto|done].
      + intros md. rewrite elem_of_app, list_elem_of_singleton. split.
        * intros [Hmd|[= ->]]; [|done]. exfalso. apply Hin.
          apply list_elem_of_fmap. by exists (n, md).
        * intros ->. by right.
      + apply call_pre_new. by rewrite <-Hkeys. }
  assert ((if bool_decide (n ∈ nm.*1) then (nm, g)
           else (nm ++ [(n, new_node n (Message.timestamp m))], nx.add_node n g))
          = (nm0, if bool_decide (n ∈ nm.*1) then g else nx.add_node n g)) as ->
    by (unfold nm0; by case_bool_decide).
  clearbody nm0. clear Hnd Hkeys Hok.
  case_bool_decide as Hs.
  - destruct (dict_get n (alter_meta bump_count n nm0)) as [md1|] eqn:Hget; [|done].
    destruct (datetime.max _ _) as [t|] eqn:Hmax; [|done]. intros [= <- <-].
    apply get_elem_of, elem_of_alter_meta in Hget as [[? _]|[_ (md & Hmd & ->)]]; [done|].
    apply Hn0 in Hmd as ->. simpl in Hmax.
    split_and!.
    + by rewrite !alter_meta_keys.
    + intros k. by rewrite !alter_meta_keys.
    + intros k md. rewrite elem_of_alter_meta.
      intros [[Hk Hin]|[-> (md1 & Hin & ->)]].
      * apply elem_of_alter_meta in Hin as [[_ Hin]|[? _]]; [|done].
        apply call_ok_other; [done|]. by apply Hok0.
      * apply elem_of_alter_meta in Hin as [[? _]|[_ (md2 & Hin & ->)]]; [done|].
        apply Hn0 in Hin as ->. by apply call_ok_counted.
  - intros [= <- <-]. split_and!; [done..|].
    intros k md Hin. destruct (decide (k = n)) as [->|Hk].
    + apply Hn0 in Hin as ->. by apply call_ok_not_counted.
    + apply call_ok_other; [done|]. by apply Hok0.
Qed.

Lemma build_step_calls cs m st st' :
  call_inv cs st.1.1 → build_step st m = (Ok tt, st') →
  call_inv (cs ++ calls_of m) st'.1.1.
Proof.
  destruct st as [[nm g] h]. intros Hinv. unfold build_step, calls_of. cbn [fst snd] in *.
  destruct (_add_or_update_node (Message.sender m) m (nm, g)) as [r1 [nm1 g1]] eqn:H1.
  destruct r1 as [[]|]; [|done].
  pose proof (add_or_update_node_call _ _ _ _ _ _ _ Hinv H1) as Hinv1.
  destruct (truthy (Message.receiver m)) eqn:Ht.
  2:{ by intros [= <-]. }
  destruct (_add_or_update_node _ m (nm1, g1)) as [r2 [nm2 g2]] eqn:H2.
  destruct r2 as [[]|]; [|done].
  pose proof (add_or_update_node_call _ _ _ _ _ _ _ Hinv1 H2) as Hinv2.
  destruct (_add_interaction m (g2, h)) as [g3 h3].
  intros [= <-]. cbn [fst snd]. by rewrite <-app_assoc in Hinv2.
Qed.

Lemma build_loop_calls l : ∀ cs st st',
  call_inv cs st.1.1 → build_loop l st = (Ok tt, st') →
  call_inv (cs ++ (l ≫= calls_of)) st'.1.1.
Proof.
  induction l as [|m l IH]; intros cs st st' Hinv.
  - simpl. intros [= <-]. by rewrite app_nil_r.
  - rewrite bind_cons. cbn [build_loop].
    destruct (build_step st m) as [r st1] eqn:Hstep. destruct r as [[]|]; [|done].
    intros Hloop. rewrite app_assoc. eapply IH; [|done]. by eapply build_step_calls.
Qed.

Lemma foldl_update_node_lookup (nm : node_metadata_t) : ∀ g,
  NoDup nm.*1 →
  node_attrs (foldl (λ g p, nx.update_node p.1 p.2 g) g nm) =
  (λ p, (p.1, match dict_get p.1 nm with Some md => Some md | None => nx.attrs p.2 end)) <$> g.
Proof.
  induction nm as [|[n md] nm IH]; intros g Hnd; simpl.
  - unfold node_attrs. done.
  - rewrite fmap_cons in Hnd. apply NoDup_cons in Hnd as [Hn Hnd]. simpl in Hn.
    rewrite IH by done. unfold nx.update_node, nx.alter_node. rewrite <-list_fmap_compose.
    apply list_fmap_ext. intros _ [k e] _. simpl.
    destruct (decide (k = n)) as [->|Hk].
    + rewrite !bool_decide_eq_true_2 by done. simpl.
      by rewrite (proj2 (get_None n nm) Hn).
    + rewrite !bool_decide_eq_false_2 by done. done.
Qed.

Lemma foldl_update_node_attrs (nm : node_metadata_t) g :
  NoDup nm.*1 → nx.nodes g = nm.*1 →
  node_attrs (foldl (λ g p, nx.update_node p.1 p.2 g) g nm) = (λ p, (p.1, Some p.2)) <$> nm.
Proof.
  intros Hnd Hn. rewrite foldl_update_node_lookup by done.
  transitivity ((λ k, (k, dict_get k nm)) <$> nx.nodes g).
  - unfold nx.nodes. rewrite <-list_fmap_compose. apply list_fmap_ext.
    intros _ [k e] Hin%list_elem_of_lookup_2. simpl.
    assert (k ∈ nm.*1) as Hk.
    { rewrite <-Hn. apply list_elem_of_fmap. by exists (k, e). }
    destruct (dict_get k nm) eqn:Hget; [done|]. by apply get_None in Hget.
  - rewrite Hn, <-list_fmap_compose. apply list_fmap_ext.
    intros _ [k md] Hin%list_elem_of_lookup_2. simpl. f_equal. by apply get_Some.
Qed.

(** The local [node_metadata] at the end of a build that returns. *)
Lemma build_graph_nodes msgs w0 base w :
  build_graph msgs w0 = (Ok base, w) →
  ∃ nm, node_attrs base = (λ p, (p.1, Some p.2)) <$> nm ∧
        nx.nodes base = nm.*1 ∧
        call_inv (sorted_by_step msgs ≫= calls_of) nm.
Proof.
  destruct w0 as [self h0]. destruct msgs as [|m0 msgs0]; [done|].
  rewrite build_graph_cons. cbn zeta. set (msgs := m0 :: msgs0).
  assert (∀ m, m ∈ sorted_by_step msgs → m ∈ msgs) as Hsub.
  { intros m. by rewrite sorted_by_step_perm. }
  assert (loop_inv msgs ([], nx.empty, h0)) as Hinit.
  { split; [done|]. split_and!; simpl; [split|..]; constructor. }
  assert (call_inv [] []) as Hcall.
  { split_and!; [constructor|done|]. by intros n md ?%elem_of_nil. }
  destruct (build_loop (sorted_by_step msgs) _) as [r [[nm g] h]] eqn:Hloop.
  destruct r as [[]|]; [|done].
  destruct (build_loop_inv msgs _ _ _ Hsub Hinit Hloop) as ([Hn _] & _).
  pose proof (build_loop_calls _ [] ([], nx.empty, h0) _ Hcall Hloop) as Hinv.
  cbn [fst snd] in *. rewrite app_nil_l in Hinv.
  intros [= <- <-]. exists nm. split_and!; [|by rewrite (proj1 (proj2 (foldl_update_node nm g)))|done].
  apply foldl_update_node_attrs; [apply Hinv|done].
Qed.

Lemma calls_of_receiver m n :
  (truthy (Message.receiver m) = true ∧ default "" (Message.receiver m) = n) ↔
  (Message.receiver m = Some n ∧ n ≠ "").
Proof.
  unfold truthy. destruct (Message.receiver m) as [r|]; simpl.
  - rewrite bool_decide_eq_true. split; [by intros [? ->]|by intros [[= ->] ?]].
  - split; [by intros [? _]|by intros [? _]].
Qed.

Lemma calls_for_of n m :
  calls_for n (calls_of m) =
  (if bool_decide (Message.sender m = n) then [(n, m)] else []) ++
  (if bool_decide (Message.receiver m = Some n ∧ n ≠ "") then [(n, m)] else []).
Proof.
  unfold calls_for, calls_of. rewrite filter_cons. simpl.
  assert (filter (λ c : string * Message.t, c.1 = n)
            (if truthy (Message.receiver m) then [(default "" (Message.receiver m), m)] else [])
          = if bool_decide (Message.receiver m = Some n ∧ n ≠ "") then [(n, m)] else []) as ->.
  { pose proof (calls_of_receiver m n) as Hiff.
    destruct (truthy (Message.receiver m)).
    - destruct (decide (default "" (Message.receiver m) = n)) as [Heq|Hne].
      + rewrite filter_cons_True by done. rewrite bool_decide_eq_true_2 by tauto.
        by rewrite Heq.
      + rewrite filter_cons_False by done. by rewrite bool_decide_eq_false_2 by tauto.
    - rewrite bool_decide_eq_false_2; [done|]. intros ?. by destruct (proj2 Hiff). }
  case_decide as Hs.
  - rewrite (bool_decide_eq_true_2 (Message.sender m = n)) by done. by rewrite Hs.
  - by rewrite (bool_decide_eq_false_2 (Message.sender m = n)) by done.
Qed.

Lemma counted_for_of n m :
  counted_for n (calls_of m) =
  (if bool_decide (Message.sender m = n) then [(n, m)] else []) ++
  (if bool_decide (Message.sender m = n ∧ Message.receiver m = Some n ∧ n ≠ "")
   then [(n, m)] else []).
Proof.
  unfold counted_for.
  rewrite (filter_ext_in _ (λ c, Message.sender m = n ∧ c.1 = n) (calls_of m)).
  2:{ apply Forall_forall. intros [k m'] Hin. simpl.
      assert (m' = m) as ->; [|tauto].
      unfold calls_of in Hin. apply elem_of_cons in Hin as [[= ? ?]|Hin]; [done|].
      destruct (truthy _); [|by apply elem_of_nil in Hin].
      by apply list_elem_of_singleton in Hin as [= ? ?]. }
  destruct (decide (Message.sender m = n)) as [Hs|Hs].
  - rewrite (filter_ext_in _ (λ c, c.1 = n) (calls_of m))
      by (apply Forall_forall; intros; tauto).
    fold (calls_for n (calls_of m)). rewrite calls_for_of.
    rewrite (bool_decide_eq_true_2 _ Hs). f_equal.
    destruct (decide (Message.receiver m = Some n ∧ n ≠ "")).
    + by rewrite !bool_decide_eq_true_2 by tauto.
    + by rewrite !bool_decide_eq_false_2 by tauto.
  - rewrite filter_none by (apply Forall_forall; intros; tauto).
    by rewrite !bool_decide_eq_false_2 by tauto.
Qed.

Lemma elem_of_calls n l :
  n ∈ (l ≫= calls_of).*1 ↔
  ∃ m, m ∈ l ∧ (Message.sender m = n ∨ (Message.receiver m = Some n ∧ n ≠ "")).
Proof.
  rewrite list_elem_of_fmap. split.
  - intros ([k m'] & -> & (m & Hc & Hm)%list_elem_of_bind). exists m. split; [done|].
    unfold calls_of in Hc. apply elem_of_cons in Hc as [[= -> ->]|Hc]; [by left|].
    right. apply calls_of_receiver. destruct (truthy _); [|by apply elem_of_nil in Hc].
    by apply list_elem_of_singleton in Hc as [= -> ->].
  - intros (m & Hm & [<-|Hr]).
    + exists (Message.sender m, m). split; [done|]. apply list_elem_of_bind.
      exists m. split; [by left|done].
    + exists (n, m). split; [done|]. apply list_elem_of_bind. exists m. split; [|done].
      apply calls_of_receiver in Hr as [Ht <-]. unfold calls_of. rewrite Ht.
      right. by left.
Qed.

Lemma counted_for_length n l :
  length (counted_for n (l ≫= calls_of)) =
  (length (sent_by n l) + length (from_to (n, n) l))%nat.
Proof.
  unfold counted_for, sent_by, from_to.
  induction l as [|m l IH]; [done|].
  rewrite bind_cons, filter_app, length_app, IH. fold (counted_for n (calls_of m)).
  rewrite counted_for_of, !filter_cons. simpl.
  case_bool_decide; case_bool_decide; repeat case_decide; simpl; try tauto; lia.
Qed.

Lemma calls_for_head n l :
  (λ c : string * Message.t, Message.timestamp c.2) <$> head (calls_for n (l ≫= calls_of)) =
  Message.timestamp <$> head (naming n l).
Proof.
  unfold calls_for, naming. induction l as [|m l IH]; [done|].
  rewrite bind_cons, filter_app. fold (calls_for n (calls_of m)).
  rewrite calls_for_of, filter_cons.
  destruct (decide (Message.sender m = n ∨ (Message.receiver m = Some n ∧ n ≠ "")));
    do 2 case_bool_decide; simpl; try tauto; done.
Qed.

Lemma counted_for_timestamps n l t :
  t ∈ (λ c : string * Message.t, Message.timestamp c.2) <$> counted_for n (l ≫= calls_of) ↔
  t ∈ Message.timestamp <$> sent_by n l.
Proof.
  unfold counted_for, sent_by. induction l as [|m l IH]; [done|].
  rewrite bind_cons, filter_app, fmap_app, elem_of_app, IH.
  fold (counted_for n (calls_of m)). rewrite counted_for_of, filter_cons.
  destruct (decide (Message.sender m = n)); do 2 case_bool_decide; simpl; try tauto;
    rewrite ?fmap_cons, ?elem_of_cons; rewrite ?elem_of_nil; tauto.
Qed.

(** ** The built graph *)

Lemma filter_length_perm {A} (P : A → Prop) `{!∀ x, Decision (P x)} (l l' : list A) :
  l ≡ₚ l' → length (filter P l) = length (filter P l').
Proof. intros Hp. by rewrite Hp. Qed.

Lemma build_graph_edge_keys msgs w0 base w :
  build_graph msgs w0 = (Ok base, w) →
  ∀ u v, (u, v) ∈ (nx.edges base).*1 ↔
         ∃ m, m ∈ msgs ∧ Message.sender m = u ∧ Message.receiver m = Some v ∧ v ≠ "".
Proof.
  intros Hb. destruct (build_graph_edges _ _ _ _ Hb) as [_ Hchar].
  intros u v. rewrite <-(edges_data_fst w.2), list_elem_of_fmap. split.
  - intros ([k ed] & Hk & [Hne _]%Hchar). simpl in Hk. subst k.
    destruct (from_to (u, v) (sorted_by_step msgs)) as [|m l] eqn:Hft; [done|].
    assert (m ∈ from_to (u, v) (sorted_by_step msgs)) as Hm by (rewrite Hft; by left).
    apply list_elem_of_filter in Hm as [? Hm]. exists m. split; [|done].
    by rewrite <-(sorted_by_step_perm msgs).
  - intros (m & Hm & Hs & Hr & Hv).
    exists (u, v, edge_of (u, v) (from_to (u, v) (sorted_by_step msgs))).
    split; [done|]. apply Hchar. split; [|done].
    assert (m ∈ from_to (u, v) (sorted_by_step msgs)) as Hin.
    { apply list_elem_of_filter. split; [done|]. by rewrite (sorted_by_step_perm msgs). }
    intros Heq. rewrite Heq in Hin. by apply elem_of_nil in Hin.
Qed.

Lemma build_graph_node_names msgs w0 base w :
  build_graph msgs w0 = (Ok base, w) →
  ∀ n, n ∈ nx.nodes base ↔
       ∃ m, m ∈ msgs ∧
            (Message.sender m = n ∨ (Message.receiver m = Some n ∧ n ≠ "")).
Proof.
  intros Hb. destruct (build_graph_nodes _ _ _ _ Hb) as (nm & _ & Hn & Hnd & Hkeys & _).
  rewrite Hn. intros n. rewrite Hkeys, elem_of_calls.
  split; intros (m & Hm & ?); exists m; (split; [|done]).
  - by rewrite <-(sorted_by_step_perm msgs).
  - by rewrite (sorted_by_step_perm msgs).
Qed.

(** X1. The nodes of a built graph are, without repetition, the agents that
    the messages name: every sender, and every receiver that is a non-empty
    string. *)
Theorem nodes_are_the_named_agents msgs w0 base w :
  build_graph msgs w0 = (Ok base, w) →
  NoDup (nx.nodes base) ∧
  ∀ n, n ∈ nx.nodes base ↔
       ∃ m, m ∈ msgs ∧
            (Message.sender m = n ∨ (Message.receiver m = Some n ∧ n ≠ "")).
Proof.
  intros Hb. split; [|by apply (build_graph_node_names _ w0 _ w)].
  destruct (build_graph_nodes _ _ _ _ Hb) as (nm & _ & Hn & Hnd & _).
  by rewrite Hn.
Qed.

(** X2. The edges of a built graph are the pairs (sender, receiver) of the
    messages that name a receiver, one edge per pair; the edge carries one
    interaction per message of the pair, in the order of the step indices
    (the order of the input among equal ones), its weight is their number
    and its source and target are the pair. *)
Theorem edges_are_the_sender_receiver_pairs msgs w0 base w :
  build_graph msgs w0 = (Ok base, w) →
  NoDup (nx.edges base).*1 ∧
  (∀ u v, (u, v) ∈ (nx.edges base).*1 ↔
          ∃ m, m ∈ msgs ∧ Message.sender m = u ∧ Message.receiver m = Some v ∧ v ≠ "") ∧
  (∀ u v ed, (u, v, ed) ∈ edges_data w.2 base →
             ed = edge_of (u, v) (from_to (u, v) (sorted_by_step msgs))).
Proof.
  intros Hb. destruct (build_graph_edges _ _ _ _ Hb) as [Hnd Hchar].
  rewrite edges_data_fst in Hnd. split_and!; [done| |].
  - by apply (build_graph_edge_keys _ w0 _ w).
  - intros u v ed Hin. by apply Hchar in Hin as [_ ->].
Qed.

(** X3. Every node of a built graph carries its own name as [id] and as
    [label] and an empty [metadata]; its [message_count] is the number of
    messages it sent plus the number of messages it sent to itself: a
    self-addressed message is counted twice. *)
Theorem message_count_counts_self_addressed_twice msgs w0 base w :
  build_graph msgs w0 = (Ok base, w) →
  ∀ n a, (n, a) ∈ node_attrs base →
    ∃ md, a = Some md ∧
      NodeMeta.id md = n ∧ NodeMeta.label md = n ∧ NodeMeta.metadata md = [] ∧
      NodeMeta.message_count md =
        (Z.of_nat (length (sent_by n msgs)) + Z.of_nat (length (from_to (n, n) msgs)))%Z.
Proof.
  intros Hb n a Hin. destruct (build_graph_nodes _ _ _ _ Hb) as (nm & Ha & _ & _ & _ & Hok).
  rewrite Ha in Hin. apply list_elem_of_fmap in Hin as ([n' md] & [= -> ->] & Hin).
  simpl. exists md. split; [done|].
  destruct (Hok _ _ Hin) as (? & ? & ? & Hc & _). split_and!; [done..|].
  rewrite Hc, counted_for_length, Nat2Z.inj_add. unfold sent_by, from_to.
  by rewrite !(filter_length_perm _ _ _ (sorted_by_step_perm msgs)).
Qed.

(** X4. [first_appearance] of a node is the timestamp of the first message,
    in the order of the step indices, that names the node as sender or as
    receiver; [last_activity] is the latest of [first_appearance] and the
    timestamps of the messages the node sent, so for a node that sent
    nothing it is [first_appearance]. *)
Theorem first_appearance_and_last_activity msgs w0 base w :
  build_graph msgs w0 = (Ok base, w) →
  ∀ n md, (n, Some md) ∈ node_attrs base →
    Some (NodeMeta.first_appearance md) =
      Message.timestamp <$> head (naming n (sorted_by_step msgs)) ∧
    latest (NodeMeta.last_activity md)
      (NodeMeta.first_appearance md :: (Message.timestamp <$> sent_by n msgs)) ∧
    (sent_by n msgs = [] → NodeMeta.last_activity md = NodeMeta.first_appearance md).
Proof.
  intros Hb n md Hin. destruct (build_graph_nodes _ _ _ _ Hb) as (nm & Ha & _ & _ & _ & Hok).
  rewrite Ha in Hin. apply list_elem_of_fmap in Hin as ([n' md'] & [= -> ->] & Hin).
  simpl. destruct (Hok _ _ Hin) as (_ & _ & _ & _ & Hfa & [Hla1 Hla2]).
  assert (latest (NodeMeta.last_activity md')
            (NodeMeta.first_appearance md' :: (Message.timestamp <$> sent_by n' msgs)))
    as Hlatest.
  { assert (∀ t, t ∈ NodeMeta.first_appearance md' ::
                     ((λ c : string * Message.t, Message.timestamp c.2) <$>
                        counted_for n' (sorted_by_step msgs ≫= calls_of)) ↔
                 t ∈ NodeMeta.first_appearance md' ::
                     (Message.timestamp <$> sent_by n' msgs)) as Hiff.
    { intros t. rewrite !elem_of_cons, counted_for_timestamps. unfold sent_by.
      by rewrite (sorted_by_step_perm msgs). }
    split; [by apply Hiff|]. apply Forall_forall. intros t Ht%Hiff.
    by apply (proj1 (Forall_forall _ _) Hla2). }
  split_and!; [by rewrite Hfa, calls_for_head|done|].
  intros Hnil. destruct Hlatest as [Hl _]. rewrite Hnil in Hl. simpl in Hl.
  by apply list_elem_of_singleton in Hl.
Qed.

(** X5. The weights of the edges of a built graph add up to the number of
    messages that name a receiver. *)
Theorem weights_add_up_to_the_addressed_messages msgs w0 base w :
  build_graph msgs w0 = (Ok base, w) →
  total_weight (edges_data w.2 base) =
  Z.of_nat (length (filter (λ m, truthy (Message.receiver m) = true) msgs)).
Proof.
  intros Hb. rewrite (total_weight_perm _ _ (build_graph_items _ _ _ _ Hb)).
  rewrite total_weight_record_all.
  by rewrite (filter_length_perm _ _ _ (sorted_by_step_perm msgs)).
Qed.

(** ** Views *)

Lemma Forall_filter_keep {A} (P Q : A → Prop) `{!∀ x, Decision (P x)} (l : list A) :
  Forall Q l → Forall Q (filter P l).
Proof.
  rewrite !Forall_forall. intros Hall x [_ Hx]%list_elem_of_filter. by apply Hall.
Qed.

Lemma insert_by_step_sorted m l : by_step l → by_step (insert_by_step m l).
Proof.
  unfold by_step. induction 1 as [|m' l Hl IH Hm']; simpl.
  - repeat constructor.
  - case_bool_decide as Hle.
    + constructor; [by constructor|]. constructor; [done|].
      eapply Forall_impl; [exact Hm'|]. simpl. intros; lia.
    + constructor; [done|]. rewrite insert_by_step_perm. constructor; [lia|done].
Qed.

Lemma sorted_by_step_sorted l : by_step (sorted_by_step l).
Proof.
  unfold sorted_by_step. induction l as [|m l IH]; simpl; [constructor|].
  by apply insert_by_step_sorted.
Qed.

Lemma by_step_filter (P : Message.t → Prop) `{!∀ x, Decision (P x)} l :
  by_step l → by_step (filter P l).
Proof.
  unfold by_step. induction 1 as [|m l Hl IH Hm]; [constructor|].
  rewrite filter_cons. case_decide; [|done]. constructor; [done|].
  by apply Forall_filter_keep.
Qed.

Lemma insert_by_step_head m l :
  Forall (λ m', (Message.step_index m ≤ Message.step_index m')%Z) l →
  insert_by_step m l = m :: l.
Proof.
  destruct l as [|m' l]; [done|]. intros [Hle _]%Forall_cons. simpl.
  by rewrite bool_decide_eq_true_2.
Qed.

Lemma insert_by_step_filter (P : Message.t → Prop) `{!∀ x, Decision (P x)} m l :
  by_step l →
  filter P (insert_by_step m l) =
  if decide (P m) then insert_by_step m (filter P l) else filter P l.
Proof.
  unfold by_step. induction 1 as [|m' l Hl IH Hm']; simpl.
  - rewrite filter_cons, filter_nil. by case_decide.
  - case_bool_decide as Hle.
    + rewrite (filter_cons _ m). case_decide; [|done].
      rewrite insert_by_step_head; [done|]. apply Forall_filter_keep. constructor; [done|].
      eapply Forall_impl; [exact Hm'|]. simpl. intros; lia.
    + rewrite (filter_cons _ m'), IH, (filter_cons _ m').
      do 2 case_decide; simpl; try done. by rewrite bool_decide_eq_false_2.
Qed.

(** The stable sort commutes with a filter. *)
Lemma sorted_by_step_filter (P : Message.t → Prop) `{!∀ x, Decision (P x)} l :
  sorted_by_step (filter P l) = filter P (sorted_by_step l).
Proof.
  induction l as [|m l IH]; [done|].
  change (sorted_by_step (m :: l)) with (insert_by_step m (sorted_by_step l)).
  rewrite insert_by_step_filter by apply sorted_by_step_sorted.
  rewrite filter_cons. case_decide; [|done].
  change (sorted_by_step (m :: filter P l))
    with (insert_by_step m (sorted_by_step (filter P l))).
  by rewrite IH.
Qed.

Lemma in_step_order_new_interaction l : by_step l → in_step_order (new_interaction <$> l).
Proof.
  unfold by_step, in_step_order. induction 1 as [|m l Hl IH Hm]; [constructor|].
  rewrite fmap_cons. constructor; [done|]. by apply Forall_fmap.
Qed.

(** The filter of the view keeps a prefix of a list that is in step order. *)
Lemma keep_prefix max_step l : in_step_order l → keep max_step l `prefix_of` l.
Proof.
  unfold in_step_order, keep. induction 1 as [|i l Hl IH Hi]; [done|].
  rewrite filter_cons. case_decide as Hle; [by apply prefix_cons|].
  rewrite filter_none; [apply prefix_nil|].
  eapply Forall_impl; [exact Hi|]. simpl. intros; lia.
Qed.

Lemma keep_new_interaction max_step l :
  keep max_step (new_interaction <$> l) = new_interaction <$> up_to max_step l.
Proof. unfold keep, up_to. by rewrite filter_fmap_comm. Qed.

Lemma from_to_up_to k max_step l :
  up_to max_step (from_to k l) = from_to k (up_to max_step l).
Proof.
  unfold up_to, from_to. rewrite !list_filter_filter.
  apply filter_ext_in, Forall_forall. intros; tauto.
Qed.

Lemma filtered_data_edge_of max_step k ms :
  filtered_data max_step (edge_of k ms) = edge_of k (up_to max_step ms).
Proof.
  unfold filtered_data, edge_of. simpl. rewrite keep_new_interaction.
  by rewrite length_fmap.
Qed.

Lemma view_items_keys max_step (items : list (string * string * EdgeData.t)) k :
  k ∈ (omap (view_item max_step) items).*1 → k ∈ items.*1.
Proof.
  intros ([k' ed] & -> & Hin)%list_elem_of_fmap.
  apply elem_of_view_items in Hin as (ed0 & Hin & _).
  apply list_elem_of_fmap. by exists (k', ed0).
Qed.

Lemma view_items_NoDup max_step (items : list (string * string * EdgeData.t)) :
  NoDup items.*1 → NoDup (omap (view_item max_step) items).*1.
Proof.
  induction items as [|[k ed] items IH]; [done|].
  rewrite fmap_cons. intros [Hk Hnd]%NoDup_cons. simpl.
  unfold view_item at 1. simpl. destruct (keep max_step (EdgeData.interactions ed)).
  - by apply IH.
  - rewrite fmap_cons. apply NoDup_cons. split; [|by apply IH].
    intros ?%view_items_keys. done.
Qed.

(** The edges of the view at a bound are the edges that the messages up to
    the bound make. *)
Lemma view_items_spec max_step l items :
  edges_of_messages l items →
  edges_of_messages (up_to max_step l) (omap (view_item max_step) items).
Proof.
  intros [Hnd Hchar]. split; [by apply view_items_NoDup|].
  intros k ed. rewrite elem_of_view_items. split.
  - intros (ed0 & [Hne ->]%Hchar & Hkeep & ->). simpl in Hkeep.
    rewrite keep_new_interaction in Hkeep. rewrite filtered_data_edge_of.
    rewrite from_to_up_to in *. split; [|done].
    intros Heq. by rewrite Heq in Hkeep.
  - intros [Hne ->]. rewrite <-from_to_up_to in *.
    exists (edge_of k (from_to k l)). split_and!.
    + apply Hchar. split; [|done]. intros Heq. by rewrite Heq in Hne.
    + simpl. rewrite keep_new_interaction. intros Heq. apply Hne.
      by apply fmap_nil_inv in Heq.
    + by rewrite filtered_data_edge_of.
Qed.

Lemma edges_of_messages_perm l a b :
  edges_of_messages l a → edges_of_messages l b → a ≡ₚ b.
Proof.
  intros [Hnda Ha] [Hndb Hb]. apply NoDup_Permutation.
  - by apply (NoDup_fmap_1 fst).
  - by apply (NoDup_fmap_1 fst).
  - intros [k ed]. by rewrite Ha, Hb.
Qed.

Lemma max_step_index_ge l m :
  m ∈ l → (Message.step_index m ≤ max_step_index l)%Z.
Proof.
  destruct l as [|m0 l]; [by intros ?%elem_of_nil|]. simpl.
  assert (∀ a, (a ≤ foldl (λ a m', Z.max a (Message.step_index m')) a l)%Z ∧
               ∀ m, m ∈ l →
                 (Message.step_index m ≤
                    foldl (λ a m', Z.max a (Message.step_index m')) a l)%Z) as Hfold.
  { induction l as [|m1 l IH]; intros a; simpl.
    - split; [lia|]. by intros ? ?%elem_of_nil.
    - destruct (IH (Z.max a (Message.step_index m1))) as [H1 H2]. split; [lia|].
      intros m' [->|?]%elem_of_cons; [lia|auto]. }
  destruct (Hfold (Message.step_index m0)) as [H1 H2].
  intros [->|?]%elem_of_cons; [done|by apply H2].
Qed.

(** X6. The interactions of every edge of a built graph are in the order of
    their step indices, so the view at a bound keeps, of every edge it
    has, a prefix of the interactions of the edge in the base model. *)
Theorem view_keeps_a_prefix_of_every_edge msgs w0 base w wa max_step view wb :
  build_graph msgs w0 = (Ok base, w) →
  after_reads w wa →
  filter_graph_by_step max_step wa = (Ok view, wb) →
  (∀ u v ed0, (u, v, ed0) ∈ edges_data w.2 base →
              in_step_order (EdgeData.interactions ed0)) ∧
  (∀ u v ed, (u, v, ed) ∈ edges_data wb.2 view →
     ∃ ed0, (u, v, ed0) ∈ edges_data w.2 base ∧
            EdgeData.interactions ed `prefix_of` EdgeData.interactions ed0).
Proof.
  intros Hb Hr Hf. destruct (build_graph_edges _ _ _ _ Hb) as [_ Hchar].
  assert (∀ u v ed0, (u, v, ed0) ∈ edges_data w.2 base →
                     in_step_order (EdgeData.interactions ed0)) as Hsorted.
  { intros u v ed0 [_ ->]%Hchar. simpl. apply in_step_order_new_interaction.
    apply by_step_filter, sorted_by_step_sorted. }
  split; [done|]. intros u v ed Hin.
  destruct (filter_built _ _ _ _ _ max_step Hb Hr) as (view' & h' & Hf' & Hed & _).
  rewrite Hf in Hf'. injection Hf' as <- ->. simpl in Hin.
  rewrite Hed in Hin. apply elem_of_view_items in Hin as (ed0 & Hin & _ & ->).
  exists ed0. split; [done|]. simpl. apply keep_prefix. by eapply Hsorted.
Qed.

(** X7. The view at a bound has the edges that the messages up to the bound
    make: one edge per pair (sender, receiver) of such a message, with one
    interaction per such message; they are, in some order, the edges of the
    graph that [build_graph] makes of the messages up to the bound alone.
    Their weights add up to the number of these messages that name a
    receiver. *)
Theorem view_is_the_graph_of_the_messages_up_to_the_bound
    msgs w0 base w wa max_step view wb :
  build_graph msgs w0 = (Ok base, w) →
  after_reads w wa →
  filter_graph_by_step max_step wa = (Ok view, wb) →
  (∀ u v ed, (u, v, ed) ∈ edges_data wb.2 view ↔
     from_to (u, v) (up_to max_step (sorted_by_step msgs)) ≠ [] ∧
     ed = edge_of (u, v) (from_to (u, v) (up_to max_step (sorted_by_step msgs)))) ∧
  (∀ w0' base' w',
     build_graph (up_to max_step msgs) w0' = (Ok base', w') →
     edges_data wb.2 view ≡ₚ edges_data w'.2 base') ∧
  total_weight (edges_data wb.2 view) =
    Z.of_nat (length (filter (λ m, truthy (Message.receiver m) = true)
                             (up_to max_step msgs))).
Proof.
  intros Hb Hr Hf.
  destruct (filter_built _ _ _ _ _ max_step Hb Hr) as (view' & h' & Hf' & Hed & _).
  rewrite Hf in Hf'. injection Hf' as <- ->. simpl.
  pose proof (view_items_spec max_step _ _ (build_graph_edges _ _ _ _ Hb)) as Hview.
  rewrite <-Hed in Hview. split_and!.
  - intros u v ed. apply Hview.
  - intros w0' base' w' Hb'. apply (edges_of_messages_perm _ _ _ Hview).
    unfold up_to. rewrite <-sorted_by_step_filter. by apply (build_graph_edges _ w0').
  - rewrite (total_weight_perm _ (record_all (up_to max_step (sorted_by_step msgs)) [])).
    + rewrite total_weight_record_all. apply Nat2Z.inj_iff, filter_length_perm.
      unfold up_to. by rewrite (sorted_by_step_perm msgs).
    + apply (edges_of_messages_perm _ _ _ Hview), record_all_spec.
Qed.

Lemma omap_all_id {A} (f : A → option A) (l : list A) :
  Forall (λ x, f x = Some x) l → omap f l = l.
Proof.
  induction 1 as [|x l Hx _ IH]; [done|].
  change (omap f (x :: l)) with (match f x with Some y => y :: omap f l | None => omap f l end).
  by rewrite Hx, IH.
Qed.

Lemma omap_all_none {A B} (f : A → option B) (l : list A) :
  Forall (λ x, f x = None) l → omap f l = [].
Proof.
  induction 1 as [|x l Hx _ IH]; [done|].
  change (omap f (x :: l)) with (match f x with Some y => y :: omap f l | None => omap f l end).
  by rewrite Hx.
Qed.

Lemma edges_key_of_nodes (g : nx.DiGraph) (ks : list (string * string)) n :
  (nx.edges g).*1 = ks →
  (∃ e, e ∈ nx.edges g ∧ (e.1.1 = n ∨ e.1.2 = n)) ↔ ∃ k, k ∈ ks ∧ (k.1 = n ∨ k.2 = n).
Proof.
  intros <-. split.
  - intros (e & He & Hn). exists e.1. split; [|done]. apply list_elem_of_fmap. by exists e.
  - intros (k & (e & -> & He)%list_elem_of_fmap & Hn). by exists e.
Qed.

(** X8. At a bound that no step index exceeds, such as [total_steps], the
    view has all the edges of the base model with all their data; its nodes
    are the agents that some message with a named receiver has as sender or
    as receiver, so an agent that only sent broadcasts, a node of the base
    model, is missing from the view. *)
Theorem view_at_the_last_step_lacks_the_broadcasters msgs w0 base w wa max_step view wb :
  build_graph msgs w0 = (Ok base, w) →
  after_reads w wa →
  (max_step_index (messages w.1) ≤ max_step)%Z →
  filter_graph_by_step max_step wa = (Ok view, wb) →
  edges_data wb.2 view = edges_data w.2 base ∧
  (∀ n, n ∈ nx.nodes view ↔
        ∃ m r, m ∈ msgs ∧ Message.receiver m = Some r ∧ r ≠ "" ∧
               (Message.sender m = n ∨ r = n)) ∧
  (∀ n, n ∈ nx.nodes base → n ∉ nx.nodes view →
        ∀ m, m ∈ msgs → Message.sender m = n → truthy (Message.receiver m) = false).
Proof.
  intros Hb Hr Hmax Hf.
  destruct (filter_built _ _ _ _ _ max_step Hb Hr) as (view' & h' & Hf' & Hed & Hn & _).
  rewrite Hf in Hf'. injection Hf' as <- ->. simpl.
  destruct (built_model _ _ _ _ Hb) as (_ & Hw & _).
  destruct (build_graph_edges _ _ _ _ Hb) as [_ Hchar].
  assert (∀ m, m ∈ sorted_by_step msgs → (Message.step_index m ≤ max_step)%Z) as Hle.
  { intros m Hm. rewrite Hw in Hmax. simpl in Hmax.
    pose proof (max_step_index_ge _ _ Hm). lia. }
  assert (edges_data h' view = edges_data w.2 base) as Heq.
  { rewrite Hed. apply omap_all_id, Forall_forall. intros [k ed] [Hne ->]%Hchar.
    assert (up_to max_step (from_to k (sorted_by_step msgs)) =
            from_to k (sorted_by_step msgs)) as Hall.
    { apply filter_all, Forall_forall. intros m [_ Hm]%list_elem_of_filter. by apply Hle. }
    unfold view_item. simpl. rewrite keep_new_interaction, Hall.
    destruct (from_to k (sorted_by_step msgs)) eqn:Hft; [done|]. simpl.
    rewrite <-Hft at 2. by rewrite filtered_data_edge_of, Hall, Hft. }
  assert (∀ n, n ∈ nx.nodes view ↔
               ∃ m r, m ∈ msgs ∧ Message.receiver m = Some r ∧ r ≠ "" ∧
                      (Message.sender m = n ∨ r = n)) as Hnodes.
  { intros n. rewrite Hn.
    rewrite (edges_key_of_nodes view (nx.edges base).*1)
      by (by rewrite <-(edges_data_fst h'), Heq, edges_data_fst).
    split.
    - intros [_ ([u v] & Hk & Huv)]. simpl in Huv.
      apply (build_graph_edge_keys _ _ _ _ Hb) in Hk as (m & Hm & Hs & Hrv & Hv).
      exists m, v. split_and!; [done..|]. by rewrite Hs.
    - intros (m & r & Hm & Hrv & Hne & Hsr). split.
      + apply (build_graph_node_names _ _ _ _ Hb). exists m. split; [done|].
        destruct Hsr as [?| ->]; [by left|by right].
      + exists (Message.sender m, r). split; [|simpl; tauto].
        apply (build_graph_edge_keys _ _ _ _ Hb). by exists m. }
  split_and!; [done..|].
  intros n _ Hnot m Hm Hs. destruct (truthy (Message.receiver m)) eqn:Ht; [|done].
  exfalso. apply Hnot, Hnodes.
  unfold truthy in Ht. destruct (Message.receiver m) as [r|] eqn:Hrv; [|done].
  apply bool_decide_eq_true in Ht. exists m, r. split_and!; auto.
Qed.

(** X9. At a bound below every step index the view is the empty graph, and
    for such a bound other than 0 the snapshot has no node and no edge. *)
Theorem view_before_the_first_step_is_empty msgs w0 base w wa max_step view wb :
  build_graph msgs w0 = (Ok base, w) →
  after_reads w wa →
  (∀ m, m ∈ msgs → (max_step < Message.step_index m)%Z) →
  filter_graph_by_step max_step wa = (Ok view, wb) →
  view = nx.empty ∧
  (max_step ≠ 0%Z →
   ∃ s, to_graph_snapshot (Some max_step) wa = (Ok s, wb) ∧
        GraphSnapshot.nodes s = [] ∧ GraphSnapshot.edges s = []).
Proof.
  intros Hb Hr Hlt Hf.
  destruct (filter_built _ _ _ _ _ max_step Hb Hr) as (view' & h' & Hf' & Hed & Hn & _).
  rewrite Hf in Hf'. injection Hf' as <- ->. simpl in *.
  destruct (build_graph_edges _ _ _ _ Hb) as [_ Hchar].
  assert (edges_data h' view = []) as Heq.
  { rewrite Hed. apply omap_all_none, Forall_forall. intros [k ed] [Hne ->]%Hchar.
    unfold view_item. simpl. rewrite keep_new_interaction.
    assert (up_to max_step (from_to k (sorted_by_step msgs)) = []) as ->; [|done].
    apply filter_none, Forall_forall. intros m [_ Hm]%list_elem_of_filter.
    rewrite (sorted_by_step_perm msgs) in Hm. apply Hlt in Hm. lia. }
  assert (nx.edges view = []) as He by (by apply fmap_nil_inv in Heq).
  assert (view = nx.empty) as ->.
  { destruct view as [|[n e] view]; [done|]. exfalso.
    destruct (proj1 (Hn n)) as [_ (e' & He' & _)]; [by left|].
    rewrite He in He'. by apply elem_of_nil in He'. }
  split; [done|]. intros Hne.
  destruct (to_graph_snapshot_filtered _ _ _ _ _ max_step Hb Hr Hne)
    as (view' & h'' & ns & Hf' & Hns & _ & Hs).
  rewrite Hf in Hf'. injection Hf' as <- <-. simpl in Hns. injection Hns as <-.
  eexists. split; [exact Hs|]. done.
Qed.

Lemma by_step_strict l :
  by_step l → NoDup (Message.step_index <$> l) →
  StronglySorted (λ a b, (Message.step_index a < Message.step_index b)%Z) l.
Proof.
  unfold by_step. induction 1 as [|m l Hl IH Hm]; [constructor|].
  rewrite fmap_cons. intros [Hnotin Hnd]%NoDup_cons. constructor; [by apply IH|].
  apply Forall_forall. intros m' Hm'.
  pose proof (proj1 (Forall_forall _ _) Hm _ Hm') as Hle. simpl in Hle.
  assert (Message.step_index m ≠ Message.step_index m'); [|lia].
  intros Heq. apply Hnotin. rewrite Heq. apply list_elem_of_fmap. by exists m'.
Qed.

Lemma sorted_by_step_unique l1 l2 :
  l1 ≡ₚ l2 → NoDup (Message.step_index <$> l1) → sorted_by_step l1 = sorted_by_step l2.
Proof.
  intros Hp Hnd.
  assert (AntiSymm eq (λ a b, (Message.step_index a < Message.step_index b)%Z)) as Hanti.
  { intros a b ??. lia. }
  apply (StronglySorted_unique (λ a b, (Message.step_index a < Message.step_index b)%Z)).
  - apply by_step_strict; [apply sorted_by_step_sorted|].
    by rewrite (sorted_by_step_perm l1).
  - apply by_step_strict; [apply sorted_by_step_sorted|].
    by rewrite (sorted_by_step_perm l2), <-Hp.
  - by rewrite !sorted_by_step_perm.
Qed.

(** X10. When no two messages have the same step index, [build_graph] does
    not depend on the order of its input: on two lists with the same
    messages it returns the same graph and leaves the same state. *)
Theorem build_does_not_depend_on_the_order_of_the_input msgs1 msgs2 w :
  msgs1 ≡ₚ msgs2 →
  NoDup (Message.step_index <$> msgs1) →
  build_graph msgs1 w = build_graph msgs2 w.
Proof.
  intros Hp Hnd. pose proof (sorted_by_step_unique _ _ Hp Hnd) as Hs.
  destruct w as [self h].
  destruct msgs1 as [|m1 l1], msgs2 as [|m2 l2].
  - done.
  - by apply Permutation_nil_cons in Hp.
  - symmetry in Hp. by apply Permutation_nil_cons in Hp.
  - rewrite !build_graph_cons. cbn zeta. by rewrite Hs.
Qed.

(** ** Snapshots and metrics of built models *)

Lemma filter_ne_length (l : list string) u :
  NoDup l → u ∈ l → S (length (filter (λ v, v ≠ u) l)) = length l.
Proof.
  induction 1 as [|x l Hx Hnd IH]; [by intros ?%elem_of_nil|].
  rewrite filter_cons. intros [->|Hin]%elem_of_cons.
  - rewrite decide_False by (by intros ?). rewrite filter_all; [done|].
    apply Forall_forall. by intros v Hv ->.
  - rewrite decide_True by (by intros ->). simpl. by rewrite IH.
Qed.

Lemma bind_length_const {A B} (f : A → list B) (l : list A) c :
  Forall (λ x, length (f x) = c) l → length (l ≫= f) = (length l * c)%nat.
Proof.
  induction 1 as [|x l Hx _ IH]; [done|]. rewrite bind_cons, length_app, Hx, IH. simpl. lia.
Qed.

Lemma off_diagonal_length (l : list string) :
  NoDup l → S (length (off_diagonal l)) = S (length l * (length l - 1))%nat.
Proof.
  intros Hnd. unfold off_diagonal. f_equal. apply bind_length_const, Forall_forall.
  intros u Hu. rewrite length_fmap. pose proof (filter_ne_length l u Hnd Hu). lia.
Qed.

(** A graph without loops whose edges join nodes has at most [n (n - 1)]
    edges. *)
Lemma edges_bound (g : nx.DiGraph) :
  wf_graph g →
  (∀ u v, (u, v) ∈ (nx.edges g).*1 → u ≠ v ∧ u ∈ nx.nodes g ∧ v ∈ nx.nodes g) →
  (nx.number_of_edges g ≤ nx.number_of_nodes g * (nx.number_of_nodes g - 1))%Z.
Proof.
  intros Hwf Hends. unfold nx.number_of_edges, nx.number_of_nodes.
  assert (length (nx.edges g) ≤ length (off_diagonal (nx.nodes g)))%nat as Hle.
  { rewrite <-(length_fmap fst (nx.edges g)). apply submseteq_length, NoDup_submseteq.
    - by apply NoDup_edge_keys.
    - intros [u v] (Hne & Hu & Hv)%Hends. unfold off_diagonal.
      apply list_elem_of_bind. exists u. split; [|done].
      apply list_elem_of_fmap. exists v. split; [done|].
      apply list_elem_of_filter. split; [by intros ->|done]. }
  pose proof (off_diagonal_length (nx.nodes g) (proj1 Hwf)) as Hlen.
  unfold nx.nodes in *. rewrite length_fmap in Hlen. nia.
Qed.

Lemma density_bounds (g : nx.DiGraph) :
  (0 <= nx.density g)%Q ∧
  ((nx.number_of_edges g ≤ nx.number_of_nodes g * (nx.number_of_nodes g - 1))%Z →
   (nx.density g <= 1)%Q).
Proof.
  unfold nx.density. cbn zeta.
  set (n := nx.number_of_nodes g). set (m := nx.number_of_edges g).
  assert (0 ≤ m)%Z as Hm by (unfold m, nx.number_of_edges; lia).
  case_bool_decide as Hc; [split; [done|by intros _]|].
  assert (0 < n * (n - 1))%Z as Hpos by nia.
  assert (0 < inject_Z (n * (n - 1)))%Q as Hqpos by (by rewrite <-(Zlt_Qlt 0)).
  split.
  - apply Qle_shift_div_l; [done|]. rewrite Qmult_0_l. by rewrite <-(Zle_Qle 0).
  - intros Hle. apply Qle_shift_div_r; [done|]. rewrite Qmult_1_l. by rewrite <-Zle_Qle.
Qed.

(** X11. On a built model [get_graph_metrics] returns and leaves the state
    as it is; [node_count] and [edge_count] are the numbers of nodes and
    edges of the base model, whatever views were made before; the density is
    never negative, and it is at most 1 when no message is addressed to its
    own sender. *)
Theorem density_is_at_most_one_without_self_addressed_messages msgs w0 base w wa :
  build_graph msgs w0 = (Ok base, w) →
  after_reads w wa →
  ∃ mt, get_graph_metrics wa = (Ok mt, wa) ∧
        node_count mt = Z.of_nat (length (nx.nodes base)) ∧
        edge_count mt = Z.of_nat (length (nx.edges base)) ∧
        (0 <= density mt)%Q ∧
        ((∀ m, m ∈ msgs → Message.receiver m ≠ Some (Message.sender m)) →
         (density mt <= 1)%Q).
Proof.
  intros Hb Hr.
  destruct (built_model _ _ _ _ Hb) as (_ & _ & Hbuilt & (Hwf & _) & _).
  destruct (after_reads_intact _ _ _ _ _ Hb Hr) as [Hself _].
  destruct wa as [self h]. simpl in Hself. subst self.
  unfold get_graph_metrics. rewrite Hbuilt.
  assert (nx.number_of_nodes base > 0)%Z as Hpos.
  { unfold built in Hbuilt. destruct (graph w.1) as [[|p g]|]; simplify_eq.
    unfold nx.number_of_nodes. simpl. lia. }
  rewrite bool_decide_eq_true_2 by done. eexists. split; [reflexivity|]. simpl.
  destruct (density_bounds base) as [H0 H1].
  split_and!; [unfold nx.number_of_nodes, nx.nodes; by rewrite length_fmap|done|done|].
  intros Hself. apply H1, edges_bound; [done|].
  intros u v (m & Hm & Hs & Hrv & Hne)%(build_graph_edge_keys _ _ _ _ Hb).
  split_and!.
  - intros ->. apply (Hself m Hm). by rewrite Hrv, Hs.
  - apply (build_graph_node_names _ _ _ _ Hb). exists m. split; [done|by left].
  - apply (build_graph_node_names _ _ _ _ Hb). exists m. split; [done|by right].
Qed.

Lemma convert_nodes_spec g ns :
  convert_nodes g = Ok ns ↔ Forall2 (λ p nd, to_NodeData p.2 = Ok nd) (node_attrs g) ns.
Proof.
  revert ns. induction g as [|[n e] g IH]; intros ns; simpl.
  - split; [intros [= <-]; constructor|by intros ->%Forall2_nil_inv_l].
  - destruct (to_NodeData (nx.attrs e)) as [nd|x] eqn:Hnd.
    + destruct (convert_nodes g) as [ns'|x] eqn:Hc.
      * split.
        -- intros [= <-]. constructor; [done|]. by apply IH.
        -- intros (nd' & ns'' & Hnd' & Hall & ->)%Forall2_cons_inv_l. simpl in Hnd'.
           apply IH in Hall. congruence.
      * split; [done|].
        intros (nd' & ns'' & _ & Hall & ->)%Forall2_cons_inv_l. by apply IH in Hall.
    + split; [done|].
      intros (nd' & ns'' & Hnd' & _ & ->)%Forall2_cons_inv_l. simpl in Hnd'. congruence.
Qed.

Lemma convert_nodes_ids g ns :
  (∀ n a, (n, a) ∈ node_attrs g → ∃ md, a = Some md ∧ NodeMeta.id md = n) →
  convert_nodes g = Ok ns → NodeData.id <$> ns = nx.nodes g.
Proof.
  intros Hid Hc%convert_nodes_spec. rewrite <-node_attrs_fst.
  induction Hc as [|[n a] nd l ns Hnd _ IH]; [done|].
  rewrite !fmap_cons. f_equal.
  - destruct (Hid n a) as (md & -> & <-); [by left|]. simpl in Hnd. by injection Hnd as <-.
  - apply IH. intros n' a' ?. apply Hid. by right.
Qed.

Lemma convert_nodes_sublist g g' ns ns' :
  node_attrs g' `sublist_of` node_attrs g →
  convert_nodes g = Ok ns → convert_nodes g' = Ok ns' → ns' `sublist_of` ns.
Proof.
  intros Hsub Hc%convert_nodes_spec Hc'%convert_nodes_spec.
  revert ns ns' Hc Hc'.
  induction Hsub as [|p l' l _ IH|p l' l _ IH]; intros ns ns' Hc Hc'.
  - apply Forall2_nil_inv_l in Hc' as ->. apply sublist_nil_l.
  - apply Forall2_cons_inv_l in Hc as (nd & ns0 & Hnd & Hc & ->).
    apply Forall2_cons_inv_l in Hc' as (nd' & ns0' & Hnd' & Hc' & ->).
    assert (nd' = nd) as -> by congruence. apply sublist_skip. by apply IH.
  - apply Forall2_cons_inv_l in Hc as (nd & ns0 & Hnd & Hc & ->).
    apply sublist_cons. by apply IH.
Qed.

Lemma max_step_index_attained l :
  l ≠ [] → ∃ m, m ∈ l ∧ Message.step_index m = max_step_index l.
Proof.
  destruct l as [|m0 l]; [done|]. intros _. simpl.
  assert (∀ a, (∃ m, m ∈ l ∧
                  Message.step_index m =
                    foldl (λ a m', Z.max a (Message.step_index m')) a l) ∨
               a = foldl (λ a m', Z.max a (Message.step_index m')) a l) as Hfold.
  { induction l as [|m1 l IH]; intros a; simpl; [by right|].
    destruct (IH (Z.max a (Message.step_index m1))) as [(m & Hm & Heq)|Heq].
    - left. exists m. split; [by right|done].
    - destruct (Z.max_spec a (Message.step_index m1)) as [[_ Hmax]|[_ Hmax]].
      + left. exists m1. split; [by left|]. by rewrite <-Heq.
      + right. by rewrite <-Heq. }
  destruct (Hfold (Message.step_index m0)) as [(m & Hm & Heq)|Heq].
  - exists m. split; [by right|done].
  - exists m0. split; [by left|done].
Qed.

Lemma snapshot_parts l h g ns :
  wf_graph g → edges_of_messages l (edges_data h g) →
  (∀ u v, (u, v) ∈ (nx.edges g).*1 → u ∈ nx.nodes g ∧ v ∈ nx.nodes g) →
  (∀ n a, (n, a) ∈ node_attrs g → ∃ md, a = Some md ∧ NodeMeta.id md = n) →
  convert_nodes g = Ok ns →
  NoDup (NodeData.id <$> ns) ∧
  NoDup ((λ e, (EdgeData.source e, EdgeData.target e)) <$> convert_edges h g) ∧
  ∀ e, e ∈ convert_edges h g →
    EdgeData.source e ∈ NodeData.id <$> ns ∧ EdgeData.target e ∈ NodeData.id <$> ns ∧
    EdgeData.interactions e ≠ [] ∧
    EdgeData.weight e = Z.of_nat (length (EdgeData.interactions e)).
Proof.
  intros Hwf [Hnd Hchar] Hends Hid Hc. rewrite (convert_nodes_ids g ns Hid Hc).
  assert (convert_edges h g = (edges_data h g).*2) as Hce.
  { unfold convert_edges, edges_data. rewrite <-list_fmap_compose. done. }
  assert (∀ it, it ∈ edges_data h g →
                (EdgeData.source it.2, EdgeData.target it.2) = it.1 ∧
                EdgeData.interactions it.2 ≠ [] ∧
                EdgeData.weight it.2 = Z.of_nat (length (EdgeData.interactions it.2)))
    as Hit.
  { intros [[u v] ed] [Hne ->]%Hchar. simpl. split_and!; [done| |by rewrite length_fmap].
    by intros ?%fmap_nil_inv. }
  split_and!.
  - apply Hwf.
  - rewrite Hce, <-list_fmap_compose.
    rewrite (list_fmap_ext _ fst (edges_data h g)); [done|].
    intros _ it Hin%list_elem_of_lookup_2. simpl. by apply Hit.
  - intros e. rewrite Hce. intros (it & -> & Hin)%list_elem_of_fmap.
    destruct (Hit it Hin) as (Hk & Hne & Hw).
    destruct (Hends (EdgeData.source it.2) (EdgeData.target it.2)) as [Hu Hv].
    { rewrite Hk, <-(edges_data_fst h). apply list_elem_of_fmap. by exists it. }
    done.
Qed.

Lemma build_graph_attr_ids msgs w0 base w :
  build_graph msgs w0 = (Ok base, w) →
  ∀ n a, (n, a) ∈ node_attrs base → ∃ md, a = Some md ∧ NodeMeta.id md = n.
Proof.
  intros Hb n a Hin. destruct (build_graph_nodes _ _ _ _ Hb) as (nm & Ha & _ & _ & _ & Hok).
  rewrite Ha in Hin. apply list_elem_of_fmap in Hin as ([n' md] & [= -> ->] & Hin).
  exists md. split; [done|]. by destruct (Hok _ _ Hin) as (? & _).
Qed.

Lemma build_graph_edge_ends msgs w0 base w :
  build_graph msgs w0 = (Ok base, w) →
  ∀ u v, (u, v) ∈ (nx.edges base).*1 → u ∈ nx.nodes base ∧ v ∈ nx.nodes base.
Proof.
  intros Hb u v (m & Hm & Hs & Hrv & Hne)%(build_graph_edge_keys _ _ _ _ Hb).
  split; apply (build_graph_node_names _ _ _ _ Hb); exists m; (split; [done|]);
    [by left|by right].
Qed.

(** The snapshot of the whole graph, in a state that reading calls left. *)
Lemma to_graph_snapshot_whole msgs w0 base w wa max_step :
  build_graph msgs w0 = (Ok base, w) → after_reads w wa →
  truthy_int max_step = false →
  ∃ ns, convert_nodes base = Ok ns ∧
    to_graph_snapshot max_step wa =
      (Ok {| GraphSnapshot.nodes := ns;
             GraphSnapshot.edges := convert_edges wa.2 base;
             GraphSnapshot.current_step := max_step;
             GraphSnapshot.total_steps := max_step_index (messages wa.1);
             GraphSnapshot.metadata :=
               {| GraphSnapshot.node_count := Z.of_nat (length ns);
                  GraphSnapshot.edge_count := Z.of_nat (length (convert_edges wa.2 base));
                  GraphSnapshot.message_count := Z.of_nat (length (messages wa.1)) |} |},
       wa).
Proof.
  intros Hb Hr Ht. destruct (built_model _ _ _ _ Hb) as (_ & _ & Hbuilt & _ & Hall).
  destruct (after_reads_intact _ _ _ _ _ Hb Hr) as [Hself _].
  destruct (convert_nodes_Ok base Hall) as (ns & Hns & _). exists ns. split; [done|].
  destruct wa as [self h]. unfold to_graph_snapshot. cbn [fst snd] in *.
  rewrite Hself, Hbuilt, <-Hself, Ht, Hns. done.
Qed.

(** X12. On a built model [to_graph_snapshot] returns for every [max_step],
    given or not, and the snapshot is well formed: the ids of its nodes are
    unique, so are the pairs (source, target) of its edges, both ends of
    every edge are ids of nodes of the snapshot, and every edge has at least
    one interaction and their number as weight.  [total_steps] is the
    largest step index of the messages, whatever the bound. *)
Theorem snapshots_are_well_formed msgs w0 base w wa max_step :
  build_graph msgs w0 = (Ok base, w) →
  after_reads w wa →
  ∃ s wb, to_graph_snapshot max_step wa = (Ok s, wb) ∧
          well_formed_snapshot s ∧
          GraphSnapshot.current_step s = max_step ∧
          (∀ m, m ∈ msgs → (Message.step_index m ≤ GraphSnapshot.total_steps s)%Z) ∧
          (∃ m, m ∈ msgs ∧ Message.step_index m = GraphSnapshot.total_steps s).
Proof.
  intros Hb Hr.
  destruct (built_model _ _ _ _ Hb) as (Hne & Hw & _ & Hinv & _).
  destruct (after_reads_intact _ _ _ _ _ Hb Hr) as [Hself Hpres].
  assert (messages wa.1 = sorted_by_step msgs) as Hmsgs by (by rewrite Hself, Hw).
  assert ((∀ m, m ∈ msgs → (Message.step_index m ≤ max_step_index (messages wa.1))%Z) ∧
          (∃ m, m ∈ msgs ∧ Message.step_index m = max_step_index (messages wa.1)))
    as [Hmax1 Hmax2].
  { rewrite Hmsgs. split.
    - intros m Hm. apply max_step_index_ge. by rewrite (sorted_by_step_perm msgs).
    - destruct (max_step_index_attained (sorted_by_step msgs)) as (m & Hm & Heq).
      + intros Hnil. apply Hne. apply Permutation_nil. by rewrite <-Hnil, sorted_by_step_perm.
      + exists m. split; [|done]. by rewrite <-(sorted_by_step_perm msgs). }
  destruct (truthy_int max_step) eqn:Ht.
  - destruct max_step as [K|]; [|done]. unfold truthy_int in Ht.
    apply bool_decide_eq_true in Ht.
    destruct (to_graph_snapshot_filtered _ _ _ _ _ K Hb Hr Ht)
      as (view & h' & ns & Hf & Hns & _ & Hs).
    destruct (filter_built _ _ _ _ _ K Hb Hr)
      as (view' & h'' & Hf' & Hed & Hn & Ha & Hwf & _).
    rewrite Hf in Hf'. injection Hf' as <- <-.
    eexists _, _. split; [exact Hs|]. split_and!; [|done..]. cbn [GraphSnapshot.nodes
      GraphSnapshot.edges well_formed_snapshot]. unfold well_formed_snapshot. simpl.
    apply (snapshot_parts (up_to K (sorted_by_step msgs)) h' view ns); [done| | | |done].
    + rewrite Hed. apply view_items_spec. by eapply build_graph_edges.
    + intros u v Hk.
      assert ((u, v) ∈ (nx.edges base).*1) as Hkb.
      { rewrite <-(edges_data_fst h'), Hed in Hk. apply view_items_keys in Hk.
        by rewrite edges_data_fst in Hk. }
      destruct (build_graph_edge_ends _ _ _ _ Hb u v Hkb) as [Hu Hv].
      apply list_elem_of_fmap in Hk as (e & Heq & He).
      split; apply Hn; (split; [done|]); exists e; (split; [done|]);
        rewrite <-Heq; simpl; tauto.
    + intros n a Hin. rewrite Ha in Hin. apply list_elem_of_filter in Hin as [_ Hin].
      by apply (build_graph_attr_ids _ _ _ _ Hb).
  - destruct (to_graph_snapshot_whole _ _ _ _ _ max_step Hb Hr Ht) as (ns & Hns & Hs).
    eexists _, _. split; [exact Hs|]. split_and!; [|done..].
    unfold well_formed_snapshot. simpl.
    destruct (store_inv_preserved _ _ _ _ Hpres Hinv) as [[Hwf _] Hed].
    apply (snapshot_parts (sorted_by_step msgs) wa.2 base ns); [done| | | |done].
    + rewrite Hed. by eapply build_graph_edges.
    + by apply (build_graph_edge_ends _ _ _ _ Hb).
    + by apply (build_graph_attr_ids _ _ _ _ Hb).
Qed.

(** X13. A snapshot at a bound does not recompute the nodes: its nodes are
    nodes of the snapshot of the whole graph, in the same order and with the
    same fields, so [message_count], [first_appearance] and [last_activity]
    are those of the whole conversation, not of the messages up to the
    bound. *)
Theorem filtered_snapshot_keeps_the_node_data_of_the_whole_graph
    msgs w0 base w wa max_step sK wb s wc :
  build_graph msgs w0 = (Ok base, w) →
  after_reads w wa →
  to_graph_snapshot (Some max_step) wa = (Ok sK, wb) →
  to_graph_snapshot None wb = (Ok s, wc) →
  GraphSnapshot.nodes sK `sublist_of` GraphSnapshot.nodes s ∧
  GraphSnapshot.total_steps sK = GraphSnapshot.total_steps s ∧
  GraphSnapshot.message_count (GraphSnapshot.metadata sK) =
    GraphSnapshot.message_count (GraphSnapshot.metadata s).
Proof.
  intros Hb Hr HsK Hs.
  assert (after_reads w wb) as Hrb by (by eapply after_snapshot).
  destruct (after_reads_intact _ _ _ _ _ Hb Hr) as [Hself _].
  destruct (after_reads_intact _ _ _ _ _ Hb Hrb) as [Hselfb _].
  destruct (to_graph_snapshot_whole _ _ _ _ _ None Hb Hrb eq_refl) as (ns & Hns & Hs').
  rewrite Hs in Hs'. injection Hs' as -> _.
  destruct (decide (max_step = 0%Z)) as [->|Hne].
  - destruct (to_graph_snapshot_whole _ _ _ _ _ (Some 0%Z) Hb Hr eq_refl)
      as (ns' & Hns' & HsK').
    rewrite HsK in HsK'. injection HsK' as -> _. simpl.
    rewrite Hself, Hselfb. split_and!; [|done..].
    rewrite Hns in Hns'. by injection Hns' as ->.
  - destruct (to_graph_snapshot_filtered _ _ _ _ _ max_step Hb Hr Hne)
      as (view & h' & ns' & Hf & Hns' & _ & HsK').
    rewrite HsK in HsK'. injection HsK' as -> _. simpl.
    rewrite Hself, Hselfb. split_and!; [|done..].
    destruct (filter_built _ _ _ _ _ max_step Hb Hr)
      as (view' & h'' & Hf' & _ & _ & Ha & _).
    rewrite Hf in Hf'. injection Hf' as <- <-.
    apply (convert_nodes_sublist base view); [|done..].
    rewrite Ha. apply sublist_filter.
Qed.

(** * The session manager *)

Section dictionary_updates.
Context {A : Type}.
Implicit Types (d : list (string * A)) (k : string).

Lemma dict_set_keys k x d :
  (dict_set k x d).*1 = if bool_decide (k ∈ d.*1) then d.*1 else d.*1 ++ [k].
Proof.
  induction d as [|[k' y] d IH]; [done|]. cbn [dict_set]. rewrite !fmap_cons. cbn [fst].
  destruct (decide (k' = k)) as [->|Hk].
  - rewrite (bool_decide_eq_true_2 (k = k)) by done.
    by rewrite bool_decide_eq_true_2 by (by left).
  - rewrite (bool_decide_eq_false_2 (k' = k)) by done. rewrite fmap_cons, IH. cbn [fst].
    destruct (decide (k ∈ d.*1)) as [Hin|Hin].
    + by rewrite !bool_decide_eq_true_2 by (done || by right).
    + rewrite (bool_decide_eq_false_2 (k ∈ d.*1)) by done.
      rewrite bool_decide_eq_false_2; [done|].
      intros [?|?]%elem_of_cons; [congruence|done].
Qed.

Lemma dict_get_set k k' x d :
  dict_get k' (dict_set k x d) = if bool_decide (k' = k) then Some x else dict_get k' d.
Proof.
  induction d as [|[k0 y] d IH]; cbn [dict_set dict_get].
  - destruct (decide (k' = k)) as [->|Hk].
    + by rewrite !bool_decide_eq_true_2.
    + by rewrite !bool_decide_eq_false_2 by congruence.
  - destruct (decide (k0 = k)) as [->|H0].
    + rewrite (bool_decide_eq_true_2 (k = k)) by done. cbn [dict_get].
      destruct (decide (k' = k)) as [->|Hk].
      * by rewrite !bool_decide_eq_true_2.
      * by rewrite !bool_decide_eq_false_2 by congruence.
    + rewrite (bool_decide_eq_false_2 (k0 = k)) by done. cbn [dict_get]. rewrite IH.
      destruct (decide (k0 = k')) as [->|H1].
      * rewrite (bool_decide_eq_true_2 (k' = k')) by done.
        by rewrite bool_decide_eq_false_2 by done.
      * by rewrite (bool_decide_eq_false_2 (k0 = k')) by done.
Qed.

Lemma dict_set_length k x d :
  length (dict_set k x d) = if bool_decide (k ∈ d.*1) then length d else S (length d).
Proof.
  rewrite <-(length_fmap fst), dict_set_keys.
  case_bool_decide; rewrite ?length_app, !length_fmap; simpl; lia.
Qed.

Lemma dict_get_del k k' d :
  dict_get k' (dict_del k d) = if bool_decide (k' = k) then None else dict_get k' d.
Proof.
  unfold dict_del. induction d as [|[k0 y] d IH]; cbn [dict_get].
  - by case_bool_decide.
  - rewrite filter_cons. cbn [fst]. destruct (decide (k0 = k)) as [->|H0].
    + rewrite decide_False by (by intros ?). rewrite IH.
      destruct (decide (k' = k)) as [->|Hk].
      * by rewrite !bool_decide_eq_true_2.
      * by rewrite !bool_decide_eq_false_2 by congruence.
    + rewrite decide_True by done. cbn [dict_get]. rewrite IH.
      destruct (decide (k0 = k')) as [->|H1].
      * rewrite (bool_decide_eq_true_2 (k' = k')) by done.
        by rewrite bool_decide_eq_false_2 by done.
      * by rewrite (bool_decide_eq_false_2 (k0 = k')) by done.
Qed.

Lemma dict_del_keys k d : (dict_del k d).*1 = filter (λ k', k' ≠ k) d.*1.
Proof. unfold dict_del. by rewrite filter_fmap_comm. Qed.

End dictionary_updates.

Lemma Forall_dict_set {A} (P : string * A → Prop) k x d :
  Forall P d → P (k, x) → Forall P (dict_set k x d).
Proof.
  intros Hd Hx. induction Hd as [|[k' y] d Hy Hd IH]; cbn [dict_set].
  - by constructor.
  - case_bool_decide as Hk; [subst k'|]; by constructor.
Qed.

Lemma NoDup_dict_set {A} k (x : A) d : NoDup d.*1 → NoDup (dict_set k x d).*1.
Proof.
  intros Hnd. rewrite dict_set_keys. case_bool_decide as Hin; [done|].
  apply NoDup_app. split_and!; [done| |apply NoDup_singleton].
  by intros k' ? ->%list_elem_of_singleton.
Qed.

Lemma sessions_inv_del k self : sessions_inv self → sessions_inv (dict_del k self).
Proof.
  intros [Hnd Hall]. split.
  - rewrite dict_del_keys. by apply NoDup_filter.
  - unfold dict_del. by apply Forall_filter_keep.
Qed.

Lemma sessions_inv_set k s self :
  sessions_inv self → Session.id s = k →
  datetime.aware (Session.created_at s) = false →
  datetime.aware (Session.last_accessed s) = false →
  sessions_inv (dict_set k s self).
Proof.
  intros [Hnd Hall] ???. split; [by apply NoDup_dict_set|]. by apply Forall_dict_set.
Qed.

(** Every state of a session manager satisfies the invariant. *)
Lemma managed_inv self : managed self → sessions_inv self.
Proof.
  induction 1 as [|uuid4 now1 now2 messages framework gb self _ IH
                  |now sid self _ IH|sid self _ IH|cfg now self _ IH].
  - split; constructor.
  - by apply sessions_inv_set.
  - unfold SessionManager.get_session.
    destruct (dict_get sid self) as [s|] eqn:Hget; [|done]. simpl.
    apply get_elem_of in Hget.
    destruct (proj1 (Forall_forall _ _) (proj2 IH) _ Hget) as (? & ? & ?).
    by apply sessions_inv_set.
  - unfold SessionManager.delete_session. case_bool_decide; [|done].
    by apply sessions_inv_del.
  - unfold SessionManager.cleanup_expired_sessions.
    destruct (SessionManager.expired_sessions _ self) as [expired|x]; [|done]. simpl.
    clear -IH. revert self IH. induction expired as [|k l IHl]; intros self IH; [done|].
    simpl. by apply IHl, sessions_inv_del.
Qed.

Lemma expired_sessions_naive z (items : list (string * Session.t)) :
  Forall (λ p, datetime.aware (Session.last_accessed p.2) = false) items →
  SessionManager.expired_sessions (datetime.Naive z) items =
  Ok (filter (λ p, datetime.lt (Session.last_accessed p.2) (datetime.Naive z) = Some true)
        items).*1.
Proof.
  induction 1 as [|[sid s] items Hs _ IH]; [done|]. cbn [SessionManager.expired_sessions].
  rewrite IH, filter_cons. cbn [snd] in *.
  destruct (Session.last_accessed s) as [t|t]; [|done]. cbn [datetime.lt].
  case_bool_decide; case_decide; try done; congruence.
Qed.

Lemma foldl_dict_del {A} (ks : list string) (d : list (string * A)) :
  foldl (λ d sid, dict_del sid d) d ks = filter (λ p, p.1 ∉ ks) d.
Proof.
  revert d. induction ks as [|k ks IH]; intros d; simpl.
  - symmetry. apply filter_all, Forall_forall. intros ? _. apply not_elem_of_nil.
  - rewrite IH. unfold dict_del. rewrite list_filter_filter.
    apply filter_ext_in, Forall_forall. intros p _. rewrite not_elem_of_cons. tauto.
Qed.

Lemma filter_length_split {A} (P : A → Prop)
    (H1 : ∀ x, Decision (P x)) (H2 : ∀ x, Decision (¬ P x)) (l : list A) :
  Z.of_nat (length (@filter _ _ _ P H1 l)) =
  (Z.of_nat (length l) - Z.of_nat (length (@filter _ _ _ (λ x, ¬ P x) H2 l)))%Z.
Proof.
  induction l as [|x l IH]; [done|]. rewrite !filter_cons.
  destruct (decide (P x)), (decide (¬ P x)); try tauto; simpl; lia.
Qed.

Lemma cleanup_spec cfg now self :
  sessions_inv self →
  let expiry_time := datetime.Naive (now - timedelta_hours (SESSION_EXPIRY_HOURS cfg)) in
  SessionManager.cleanup_expired_sessions cfg now self =
    (Ok (Z.of_nat (length self) - Z.of_nat (length (alive expiry_time self)))%Z,
     alive expiry_time self).
Proof.
  intros [Hnd Hall] expiry_time. unfold SessionManager.cleanup_expired_sessions.
  cbn [datetime_sub]. fold expiry_time. unfold expiry_time at 1.
  rewrite expired_sessions_naive
    by (eapply Forall_impl; [exact Hall|]; by intros p (_ & _ & ?)).
  fold expiry_time. rewrite foldl_dict_del.
  set (E := λ p : string * Session.t,
              datetime.lt (Session.last_accessed p.2) expiry_time = Some true).
  assert (∀ p, p ∈ self → (p.1 ∉ (filter E self).*1) ↔ ¬ E p) as Hal.
  { intros p Hp. split.
    - intros Hnot HE. apply Hnot, list_elem_of_fmap. exists p. split; [done|].
      by apply list_elem_of_filter.
    - intros HnE (q & Hk & [HE Hq]%list_elem_of_filter)%list_elem_of_fmap.
      assert (p = q) as -> by (by apply (NoDup_fst_inj self)). done. }
  assert (alive expiry_time self = filter (λ x, ¬ E x) self) as -> by done.
  f_equal.
  - f_equal. rewrite length_fmap. apply filter_length_split.
  - apply filter_ext_in, Forall_forall. intros p Hp. by apply Hal.
Qed.

(** X14. A session that [create_session] made is found by [get_session]
    and [get_graph_builder] under the id the call returned, the first eight
    characters of the uuid, with the messages, the framework and the builder
    it was given; the other sessions are as they were.  When the id is that
    of an existing session, that session is replaced and the number of
    sessions stays the same. *)
Theorem a_created_session_is_found uuid4 now1 now2 now messages framework gb self :
  let sid := String.substring 0 8 uuid4 in
  let created := SessionManager.create_session uuid4 now1 now2 messages framework gb self in
  created.1 = sid ∧
  (SessionManager.get_session now sid created.2).1 =
    Some {| Session.id := sid;
            Session.messages := messages;
            Session.framework := framework;
            Session.graph_builder := gb;
            Session.created_at := datetime.Naive now1;
            Session.last_accessed := datetime.Naive now;
            Session.metadata := [] |} ∧
  (SessionManager.get_graph_builder now sid created.2).1 = Some gb ∧
  (∀ k, k ≠ sid → dict_get k created.2 = dict_get k self) ∧
  SessionManager.get_session_count created.2 =
    (if bool_decide (sid ∈ self.*1) then SessionManager.get_session_count self
     else SessionManager.get_session_count self + 1)%Z.
Proof.
  intros sid created. unfold created, SessionManager.create_session. fold sid. cbn [fst snd].
  set (s := {| Session.id := sid; Session.messages := messages;
               Session.framework := framework; Session.graph_builder := gb;
               Session.created_at := datetime.Naive now1;
               Session.last_accessed := datetime.Naive now2;
               Session.metadata := [] |}).
  assert (dict_get sid (dict_set sid s self) = Some s) as Hget
    by (by rewrite dict_get_set, bool_decide_eq_true_2).
  split_and!.
  - done.
  - unfold SessionManager.get_session. by rewrite Hget.
  - unfold SessionManager.get_graph_builder, SessionManager.get_session. by rewrite Hget.
  - intros k Hk. by rewrite dict_get_set, bool_decide_eq_false_2.
  - unfold SessionManager.get_session_count. rewrite dict_set_length.
    case_bool_decide; lia.
Qed.

(** X15. [delete_session] returns [True] exactly when the manager has the
    session; afterwards the session is not found, the other sessions are as
    they were, the number of sessions is smaller by one if there was one to
    delete, and a second call returns [False] and changes nothing. *)
Theorem delete_session_removes_the_session sid self :
  managed self →
  let r := SessionManager.delete_session sid self in
  (r.1 = true ↔ is_Some (dict_get sid self)) ∧
  (∀ now, SessionManager.get_session now sid r.2 = (None, r.2)) ∧
  (∀ k, k ≠ sid → dict_get k r.2 = dict_get k self) ∧
  SessionManager.get_session_count r.2 =
    (SessionManager.get_session_count self - if r.1 then 1 else 0)%Z ∧
  SessionManager.delete_session sid r.2 = (false, r.2).
Proof.
  intros [Hnd _]%managed_inv r. unfold r, SessionManager.delete_session.
  destruct (decide (sid ∈ self.*1)) as [Hin|Hin].
  - rewrite (bool_decide_eq_true_2 _ Hin). cbn [fst snd].
    assert (dict_get sid (dict_del sid self) = None) as Hnone
      by (by rewrite dict_get_del, bool_decide_eq_true_2).
    split_and!.
    + split; [intros _|done]. destruct (dict_get sid self) eqn:Hget; [done|].
      by apply get_None in Hget.
    + intros now. unfold SessionManager.get_session. by rewrite Hnone.
    + intros k Hk. by rewrite dict_get_del, bool_decide_eq_false_2.
    + unfold SessionManager.get_session_count.
      rewrite <-(length_fmap fst (dict_del sid self)), dict_del_keys.
      pose proof (filter_ne_length self.*1 sid Hnd Hin) as Hlen.
      rewrite length_fmap in Hlen. lia.
    + rewrite bool_decide_eq_false_2; [done|]. by apply get_None.
  - rewrite (bool_decide_eq_false_2 _ Hin). cbn [fst snd].
    assert (dict_get sid self = None) as Hnone by (by apply get_None).
    split_and!.
    + rewrite Hnone. split; [done|by intros [? ?]].
    + intros now. unfold SessionManager.get_session. by rewrite Hnone.
    + done.
    + lia.
    + by rewrite bool_decide_eq_false_2.
Qed.

(** X16. In every state of a session manager [cleanup_expired_sessions]
    returns; it removes the sessions that were last accessed more than
    [SESSION_EXPIRY_HOURS] before the reading of the clock, and no other: a
    session last accessed exactly that long ago stays.  The number it
    returns is the number of sessions it removed, and the sessions that stay
    are as they were and in the order they were in. *)
Theorem cleanup_removes_the_expired_sessions cfg now self :
  managed self →
  ∃ n self',
    SessionManager.cleanup_expired_sessions cfg now self = (Ok n, self') ∧
    n = (SessionManager.get_session_count self - SessionManager.get_session_count self')%Z ∧
    (0 ≤ n)%Z ∧
    self' `sublist_of` self ∧
    ∀ sid s, (sid, s) ∈ self →
      ((sid, s) ∈ self' ↔
       ∃ z, Session.last_accessed s = datetime.Naive z ∧
            (now - timedelta_hours (SESSION_EXPIRY_HOURS cfg) ≤ z)%Z).
Proof.
  intros Hinv%managed_inv. pose proof (cleanup_spec cfg now self Hinv) as Hc.
  cbn zeta in Hc. destruct Hinv as [Hnd Hall].
  eexists _, _. split; [exact Hc|]. unfold SessionManager.get_session_count.
  split_and!; [done| |apply sublist_filter|].
  - apply Z.le_0_sub, Nat2Z.inj_le, sublist_length, sublist_filter.
  - intros sid s Hin. unfold alive. rewrite list_elem_of_filter. cbn [snd].
    destruct (proj1 (Forall_forall _ _) Hall _ Hin) as (_ & _ & Hnaive). cbn [snd] in Hnaive.
    destruct (Session.last_accessed s) as [z|z]; [|done]. cbn [datetime.lt].
    split.
    + intros [Hlt _]. exists z. split; [done|].
      destruct (decide (now - timedelta_hours (SESSION_EXPIRY_HOURS cfg) ≤ z)%Z); [done|].
      exfalso. apply Hlt. f_equal. apply bool_decide_eq_true_2. lia.
    + intros (z' & [= <-] & Hle). split; [|done].
      intros [= Hlt%bool_decide_eq_true]. lia.
Qed.

(** X17. Reading a session refreshes it: after [get_session] or
    [get_graph_builder] found a session, a cleanup within
    [SESSION_EXPIRY_HOURS] of that reading keeps it, however long ago the
    session was made or accessed before. *)
Theorem a_session_read_in_time_survives_the_cleanup cfg now now' sid self :
  managed self →
  is_Some (dict_get sid self) →
  (now' - timedelta_hours (SESSION_EXPIRY_HOURS cfg) ≤ now)%Z →
  (SessionManager.get_graph_builder now sid self).2 =
    (SessionManager.get_session now sid self).2 ∧
  ∃ n self2 s,
    SessionManager.cleanup_expired_sessions cfg now'
      (SessionManager.get_session now sid self).2 = (Ok n, self2) ∧
    dict_get sid self2 = Some s ∧
    Session.last_accessed s = datetime.Naive now.
Proof.
  intros Hm [s0 Hget] Hle.
  split; [unfold SessionManager.get_graph_builder; by destruct (SessionManager.get_session _ _ _)|].
  pose proof (managed_get now sid self Hm) as Hm1.
  pose proof (managed_inv _ Hm1) as Hinv1.
  pose proof (cleanup_spec cfg now' _ Hinv1) as Hc. cbn zeta in Hc.
  unfold SessionManager.get_session in *. rewrite Hget in *. cbn [snd] in *.
  set (s1 := Session.set_last_accessed (datetime.Naive now) s0) in *.
  eexists _, _, s1. split; [exact Hc|].
  split; [|done]. apply get_Some.
  - unfold alive. apply NoDup_fst_filter, Hinv1.
  - apply list_elem_of_filter. split.
    + cbn [snd Session.last_accessed s1 Session.set_last_accessed datetime.lt].
      intros [= Hlt%bool_decide_eq_true]. lia.
    + apply get_elem_of. by rewrite dict_get_set, bool_decide_eq_true_2.
Qed.

(** X18. In every state of a session manager the ids of the sessions are
    unique and every session is filed under its own id; [list_sessions]
    lists the sessions once each, under these ids and in the order of the
    dictionary, and there are [get_session_count] of them. *)
Theorem sessions_are_filed_under_their_ids isoformat self :
  managed self →
  NoDup self.*1 ∧
  (∀ sid s, dict_get sid self = Some s → Session.id s = sid) ∧
  SessionInfo.id <$> SessionManager.list_sessions isoformat self = self.*1 ∧
  Z.of_nat (length (SessionManager.list_sessions isoformat self)) =
    SessionManager.get_session_count self.
Proof.
  intros [Hnd Hall]%managed_inv. split_and!; [done| | |].
  - intros sid s Hin%get_elem_of. by destruct (proj1 (Forall_forall _ _) Hall _ Hin).
  - unfold SessionManager.list_sessions. rewrite <-list_fmap_compose.
    apply list_fmap_ext. intros _ p Hin%list_elem_of_lookup_2. simpl.
    by destruct (proj1 (Forall_forall _ _) Hall _ Hin).
  - unfold SessionManager.list_sessions, SessionManager.get_session_count.
    by rewrite length_fmap.
Qed.

(** ** The properties at the sample models *)

Lemma nodes_are_the_named_agents_witness :
  build_graph scenario_B world0 = (Ok graph_B, world_B) ∧
  NoDup (nx.nodes graph_B) ∧
  ∀ n, n ∈ nx.nodes graph_B ↔
       ∃ m, m ∈ scenario_B ∧
            (Message.sender m = n ∨ (Message.receiver m = Some n ∧ n ≠ "")).
Proof.
  assert (build_graph scenario_B world0 = (Ok graph_B, world_B)) as Hb
    by (vm_compute; reflexivity).
  split; [exact Hb|].
  exact (nodes_are_the_named_agents scenario_B world0 graph_B world_B Hb).
Defined.

Lemma edges_are_the_sender_receiver_pairs_witness :
  build_graph scenario_B world0 = (Ok graph_B, world_B) ∧
  NoDup (nx.edges graph_B).*1 ∧
  ∀ u v ed, (u, v, ed) ∈ edges_data world_B.2 graph_B →
            ed = edge_of (u, v) (from_to (u, v) (sorted_by_step scenario_B)).
Proof.
  assert (build_graph scenario_B world0 = (Ok graph_B, world_B)) as Hb
    by (vm_compute; reflexivity).
  destruct (edges_are_the_sender_receiver_pairs scenario_B world0 graph_B world_B Hb)
    as (Hnd & _ & Hed).
  split_and!; assumption.
Defined.

Lemma message_count_counts_self_addressed_twice_witness :
  build_graph scenario_B world0 = (Ok graph_B, world_B) ∧
  ∀ n a, (n, a) ∈ node_attrs graph_B →
    ∃ md, a = Some md ∧
      NodeMeta.message_count md =
        (Z.of_nat (length (sent_by n scenario_B)) +
         Z.of_nat (length (from_to (n, n) scenario_B)))%Z.
Proof.
  assert (build_graph scenario_B world0 = (Ok graph_B, world_B)) as Hb
    by (vm_compute; reflexivity).
  split; [exact Hb|]. intros n a Hin.
  destruct (message_count_counts_self_addressed_twice
              scenario_B world0 graph_B world_B Hb n a Hin)
    as (md & Ha & _ & _ & _ & Hc).
  exists md. split; assumption.
Defined.

Lemma first_appearance_and_last_activity_witness :
  build_graph scenario_B world0 = (Ok graph_B, world_B) ∧
  ∀ n md, (n, Some md) ∈ node_attrs graph_B →
    Some (NodeMeta.first_appearance md) =
      Message.timestamp <$> head (naming n (sorted_by_step scenario_B)) ∧
    latest (NodeMeta.last_activity md)
      (NodeMeta.first_appearance md :: (Message.timestamp <$> sent_by n scenario_B)).
Proof.
  assert (build_graph scenario_B world0 = (Ok graph_B, world_B)) as Hb
    by (vm_compute; reflexivity).
  split; [exact Hb|]. intros n md Hin.
  destruct (first_appearance_and_last_activity scenario_B world0 graph_B world_B Hb n md Hin)
    as (Hfa & Hla & _).
  split; assumption.
Defined.

Lemma weights_add_up_to_the_addressed_messages_witness :
  build_graph scenario_B world0 = (Ok graph_B, world_B) ∧
  total_weight (edges_data world_B.2 graph_B) = 3%Z.
Proof.
  assert (build_graph scenario_B world0 = (Ok graph_B, world_B)) as Hb
    by (vm_compute; reflexivity).
  split; [exact Hb|].
  exact (weights_add_up_to_the_addressed_messages scenario_B world0 graph_B world_B Hb).
Defined.

Lemma view_keeps_a_prefix_of_every_edge_witness :
  build_graph scenario_A world0 = (Ok graph_A, world_A) ∧
  after_reads world_A world_A_0 ∧
  filter_graph_by_step 1 world_A_0 = (Ok view_A_1, world_A_1) ∧
  ∀ u v ed, (u, v, ed) ∈ edges_data world_A_1.2 view_A_1 →
    ∃ ed0, (u, v, ed0) ∈ edges_data world_A.2 graph_A ∧
           EdgeData.interactions ed `prefix_of` EdgeData.interactions ed0.
Proof.
  assert (build_graph scenario_A world0 = (Ok graph_A, world_A)) as Hb
    by (vm_compute; reflexivity).
  assert (filter_graph_by_step 0 world_A = (Ok view_A_0, world_A_0)) as H0
    by (vm_compute; reflexivity).
  assert (filter_graph_by_step 1 world_A_0 = (Ok view_A_1, world_A_1)) as H1
    by (vm_compute; reflexivity).
  pose proof (after_filter _ _ _ _ _ (after_nothing world_A) H0) as Hr1.
  destruct (view_keeps_a_prefix_of_every_edge
              scenario_A world0 graph_A world_A world_A_0 1 view_A_1 world_A_1 Hb Hr1 H1)
    as [_ Hprefix].
  split_and!; assumption.
Defined.

Lemma view_is_the_graph_of_the_messages_up_to_the_bound_witness :
  build_graph scenario_B world0 = (Ok graph_B, world_B) ∧
  after_reads world_B world_B ∧
  filter_graph_by_step 3 world_B = (Ok view_B_3, world_B_3) ∧
  (∀ w0' base' w',
     build_graph (up_to 3 scenario_B) w0' = (Ok base', w') →
     edges_data world_B_3.2 view_B_3 ≡ₚ edges_data w'.2 base') ∧
  total_weight (edges_data world_B_3.2 view_B_3) = 2%Z.
Proof.
  assert (build_graph scenario_B world0 = (Ok graph_B, world_B)) as Hb
    by (vm_compute; reflexivity).
  assert (filter_graph_by_step 3 world_B = (Ok view_B_3, world_B_3)) as H3
    by (vm_compute; reflexivity).
  pose proof (after_nothing world_B) as Hr.
  destruct (view_is_the_graph_of_the_messages_up_to_the_bound
              scenario_B world0 graph_B world_B world_B 3 view_B_3 world_B_3 Hb Hr H3)
    as (_ & Hperm & Hw).
  split_and!; assumption.
Defined.

Lemma view_at_the_last_step_lacks_the_broadcasters_witness :
  build_graph scenario_B world0 = (Ok graph_B, world_B) ∧
  after_reads world_B world_B ∧
  (max_step_index (messages world_B.1) ≤ 4)%Z ∧
  ∃ view wb,
    filter_graph_by_step 4 world_B = (Ok view, wb) ∧
    edges_data wb.2 view = edges_data world_B.2 graph_B ∧
    "C" ∈ nx.nodes graph_B ∧ "C" ∉ nx.nodes view.
Proof.
  assert (build_graph scenario_B world0 = (Ok graph_B, world_B)) as Hb
    by (vm_compute; reflexivity).
  assert (max_step_index (messages world_B.1) ≤ 4)%Z as Hmax by (vm_compute; discriminate).
  pose proof (after_nothing world_B) as Hr.
  assert (∃ view wb, filter_graph_by_step 4 world_B = (Ok view, wb)) as (view & wb & Hf)
    by (eexists _, _; vm_compute; reflexivity).
  destruct (view_at_the_last_step_lacks_the_broadcasters
              scenario_B world0 graph_B world_B world_B 4 view wb Hb Hr Hmax Hf)
    as (Hed & Hn & _).
  split_and!; [exact Hb|exact Hr|exact Hmax|].
  exists view, wb. split_and!; [exact Hf|exact Hed| |].
  - apply (bool_decide_unpack ("C" ∈ nx.nodes graph_B)). vm_compute. exact I.
  - intros (m & r & Hm & Hrv & _ & Hsr)%Hn.
    repeat (apply elem_of_cons in Hm as [->|Hm];
            [vm_compute in Hrv, Hsr; destruct Hsr; congruence|]).
    exact (False_ind _ (not_elem_of_nil _ Hm)).
Defined.

Lemma view_before_the_first_step_is_empty_witness :
  build_graph scenario_A world0 = (Ok graph_A, world_A) ∧
  after_reads world_A world_A ∧
  (∀ m, m ∈ scenario_A → (-1 < Message.step_index m)%Z) ∧
  ∃ wb s,
    filter_graph_by_step (-1) world_A = (Ok nx.empty, wb) ∧
    to_graph_snapshot (Some (-1)%Z) world_A = (Ok s, wb) ∧
    GraphSnapshot.nodes s = [] ∧ GraphSnapshot.edges s = [].
Proof.
  assert (build_graph scenario_A world0 = (Ok graph_A, world_A)) as Hb
    by (vm_compute; reflexivity).
  assert (∀ m, m ∈ scenario_A → (-1 < Message.step_index m)%Z) as Hlt.
  { intros m Hm.
    repeat (apply elem_of_cons in Hm as [->|Hm]; [vm_compute; reflexivity|]).
    exact (False_ind _ (not_elem_of_nil _ Hm)). }
  pose proof (after_nothing world_A) as Hr.
  assert (∃ view wb, filter_graph_by_step (-1) world_A = (Ok view, wb)) as (view & wb & Hf)
    by (eexists _, _; vm_compute; reflexivity).
  destruct (view_before_the_first_step_is_empty
              scenario_A world0 graph_A world_A world_A (-1) view wb Hb Hr Hlt Hf)
    as (-> & Hs).
  destruct Hs as (s & Hs & Hn & He); [discriminate|].
  split_and!; [exact Hb|exact Hr|exact Hlt|].
  exists wb, s. split_and!; assumption.
Defined.

Lemma build_does_not_depend_on_the_order_of_the_input_witness :
  reverse scenario_A ≡ₚ scenario_A ∧
  NoDup (Message.step_index <$> reverse scenario_A) ∧
  build_graph (reverse scenario_A) world0 = build_graph scenario_A world0.
Proof.
  assert (reverse scenario_A ≡ₚ scenario_A) as Hp by apply reverse_Permutation.
  assert (NoDup (Message.step_index <$> reverse scenario_A)) as Hnd.
  { apply (bool_decide_unpack (NoDup (Message.step_index <$> reverse scenario_A))).
    vm_compute. exact I. }
  split_and!; [exact Hp|exact Hnd|].
  exact (build_does_not_depend_on_the_order_of_the_input
           (reverse scenario_A) scenario_A world0 Hp Hnd).
Defined.

Lemma density_is_at_most_one_without_self_addressed_messages_witness :
  build_graph scenario_A world0 = (Ok graph_A, world_A) ∧
  after_reads world_A world_A_1 ∧
  (∀ m, m ∈ scenario_A → Message.receiver m ≠ Some (Message.sender m)) ∧
  ∃ mt, get_graph_metrics world_A_1 = (Ok mt, world_A_1) ∧
        (0 <= density mt)%Q ∧ (density mt <= 1)%Q.
Proof.
  assert (build_graph scenario_A world0 = (Ok graph_A, world_A)) as Hb
    by (vm_compute; reflexivity).
  assert (filter_graph_by_step 0 world_A = (Ok view_A_0, world_A_0)) as H0
    by (vm_compute; reflexivity).
  assert (filter_graph_by_step 1 world_A_0 = (Ok view_A_1, world_A_1)) as H1
    by (vm_compute; reflexivity).
  pose proof (after_filter _ _ _ _ _ (after_filter _ _ _ _ _ (after_nothing world_A) H0) H1)
    as Hr.
  assert (∀ m, m ∈ scenario_A → Message.receiver m ≠ Some (Message.sender m)) as Hself.
  { intros m Hm.
    repeat (apply elem_of_cons in Hm as [->|Hm]; [vm_compute; discriminate|]).
    exact (False_ind _ (not_elem_of_nil _ Hm)). }
  destruct (density_is_at_most_one_without_self_addressed_messages
              scenario_A world0 graph_A world_A world_A_1 Hb Hr)
    as (mt & Hm & _ & _ & Hge & Hle).
  split_and!; [exact Hb|exact Hr|exact Hself|].
  exists mt. split_and!; [exact Hm|exact Hge|exact (Hle Hself)].
Defined.

Lemma snapshots_are_well_formed_witness :
  build_graph scenario_B world0 = (Ok graph_B, world_B) ∧
  after_reads world_B world_B_3 ∧
  ∃ s wb, to_graph_snapshot (Some 2%Z) world_B_3 = (Ok s, wb) ∧
          well_formed_snapshot s ∧
          GraphSnapshot.total_steps s = 4%Z.
Proof.
  assert (build_graph scenario_B world0 = (Ok graph_B, world_B)) as Hb
    by (vm_compute; reflexivity).
  assert (filter_graph_by_step 3 world_B = (Ok view_B_3, world_B_3)) as H3
    by (vm_compute; reflexivity).
  pose proof (after_filter _ _ _ _ _ (after_nothing world_B) H3) as Hr.
  destruct (snapshots_are_well_formed scenario_B world0 graph_B world_B world_B_3
              (Some 2%Z) Hb Hr)
    as (s & wb & Hs & Hwf & _ & Hle & m & Hm & Heq).
  split_and!; [exact Hb|exact Hr|].
  exists s, wb. split_and!; [exact Hs|exact Hwf|].
  apply Z.le_antisymm.
  - rewrite <-Heq.
    repeat (apply elem_of_cons in Hm as [->|Hm]; [vm_compute; discriminate|]).
    exact (False_ind _ (not_elem_of_nil _ Hm)).
  - apply (Hle (msg 4 "B" (Some "A") MessageType.RESPONSE)).
    unfold scenario_B. rewrite !elem_of_cons. auto 10.
Defined.

Lemma filtered_snapshot_keeps_the_node_data_of_the_whole_graph_witness :
  build_graph scenario_A world0 = (Ok graph_A, world_A) ∧
  after_reads world_A world_A_0 ∧
  ∃ sK wb s wc,
    to_graph_snapshot (Some 1%Z) world_A_0 = (Ok sK, wb) ∧
    to_graph_snapshot None wb = (Ok s, wc) ∧
    GraphSnapshot.nodes sK `sublist_of` GraphSnapshot.nodes s.
Proof.
  assert (build_graph scenario_A world0 = (Ok graph_A, world_A)) as Hb
    by (vm_compute; reflexivity).
  assert (filter_graph_by_step 0 world_A = (Ok view_A_0, world_A_0)) as H0
    by (vm_compute; reflexivity).
  pose proof (after_filter _ _ _ _ _ (after_nothing world_A) H0) as Hr.
  assert (∃ sK wb, to_graph_snapshot (Some 1%Z) world_A_0 = (Ok sK, wb))
    as (sK & wb & HsK) by (eexists _, _; vm_compute; reflexivity).
  assert (∃ s wc, to_graph_snapshot None wb = (Ok s, wc)) as (s & wc & Hs).
  { assert (wb = (to_graph_snapshot (Some 1%Z) world_A_0).2) as -> by (by rewrite HsK).
    eexists _, _. vm_compute. reflexivity. }
  destruct (filtered_snapshot_keeps_the_node_data_of_the_whole_graph
              scenario_A world0 graph_A world_A world_A_0 1 sK wb s wc Hb Hr HsK Hs)
    as (Hsub & _).
  split_and!; [exact Hb|exact Hr|].
  exists sK, wb, s, wc. split_and!; assumption.
Defined.

Lemma sessions_AB_managed : managed sessions_AB.
Proof.
  exact (managed_create "9f1c2d3e-0000-4000-8000-000000000002" 2000 2001
           scenario_B "autogen" world_B.1 _
           (managed_create "5b6a7c8d-0000-4000-8000-000000000001" 1000 1001
              scenario_A "autogen" world_A.1 _ managed_new)).
Qed.

Lemma delete_session_removes_the_session_witness :
  managed sessions_AB ∧
  (SessionManager.delete_session "5b6a7c8d" sessions_AB).1 = true ∧
  SessionManager.get_session_count (SessionManager.delete_session "5b6a7c8d" sessions_AB).2
    = 1%Z.
Proof.
  pose proof sessions_AB_managed as Hm.
  destruct (delete_session_removes_the_session "5b6a7c8d" sessions_AB Hm)
    as (Hiff & _ & _ & Hcount & _).
  split_and!; [exact Hm| |].
  - apply Hiff. vm_compute. eexists. reflexivity.
  - rewrite Hcount. vm_compute. reflexivity.
Defined.

Lemma cleanup_removes_the_expired_sessions_witness :
  managed sessions_AB ∧
  ∃ n self',
    SessionManager.cleanup_expired_sessions settings (86400000000 + 1500) sessions_AB
      = (Ok n, self') ∧
    n = 1%Z ∧ self'.*1 = ["9f1c2d3e"].
Proof.
  pose proof sessions_AB_managed as Hm. split; [exact Hm|].
  destruct (cleanup_removes_the_expired_sessions settings (86400000000 + 1500)
              sessions_AB Hm) as (n & self' & Hc & Hn & _).
  exists n, self'. split; [exact Hc|].
  assert ((SessionManager.cleanup_expired_sessions settings (86400000000 + 1500)
             sessions_AB).2 = self') as <- by (by rewrite Hc).
  split; [rewrite Hn|]; vm_compute; reflexivity.
Defined.

Lemma a_session_read_in_time_survives_the_cleanup_witness :
  managed sessions_AB ∧
  is_Some (dict_get "5b6a7c8d" sessions_AB) ∧
  (86400000000 + 1500 - timedelta_hours (SESSION_EXPIRY_HOURS settings) ≤ 5000)%Z ∧
  ∃ n self2 s,
    SessionManager.cleanup_expired_sessions settings (86400000000 + 1500)
      (SessionManager.get_session 5000 "5b6a7c8d" sessions_AB).2 = (Ok n, self2) ∧
    dict_get "5b6a7c8d" self2 = Some s.
Proof.
  pose proof sessions_AB_managed as Hm.
  assert (is_Some (dict_get "5b6a7c8d" sessions_AB)) as Hsome
    by (vm_compute; eexists; reflexivity).
  assert (86400000000 + 1500 - timedelta_hours (SESSION_EXPIRY_HOURS settings) ≤ 5000)%Z
    as Hle by (vm_compute; discriminate).
  destruct (a_session_read_in_time_survives_the_cleanup settings 5000
              (86400000000 + 1500) "5b6a7c8d" sessions_AB Hm Hsome Hle)
    as (_ & n & self2 & s & Hc & Hget & _).
  split_and!; [exact Hm|exact Hsome|exact Hle|].
  exists n, self2, s. split; assumption.
Defined.

Lemma sessions_are_filed_under_their_ids_witness :
  managed sessions_AB ∧
  NoDup sessions_AB.*1 ∧
  SessionInfo.id <$> SessionManager.list_sessions (λ _, "") sessions_AB =
    ["5b6a7c8d"; "9f1c2d3e"].
Proof.
  pose proof sessions_AB_managed as Hm.
  destruct (sessions_are_filed_under_their_ids (λ _, "") sessions_AB Hm)
    as (Hnd & _ & Hids & _).
  split_and!; [exact Hm|exact Hnd|]. rewrite Hids. vm_compute. reflexivity.
Defined.

(** * The AutoGen parser *)

Lemma first_timestamp_absent fromtimestamp fromisoformat fields entry :
  (∀ f, f ∈ fields → f ∉ entry.*1) →
  AutoGenParser.first_timestamp fromtimestamp fromisoformat fields entry = None.
Proof.
  induction fields as [|f fields IH]; intros Habs; [done|]. simpl.
  rewrite (proj2 (get_None f entry)) by (apply Habs; by left).
  apply IH. intros f' ?. apply Habs. by right.
Qed.

(** X19. For an entry with none of the four time fields [_extract_timestamp]
    makes the time of the step index: for the steps 0 to 999 it is the naive
    time [step_index] milliseconds after the start of 2024, so later steps
    get later times; from the step 1000 on the call raises and returns
    nothing, with [ValueError] as long as the number of microseconds fits a
    C [int]. *)
Theorem inferred_timestamps_stop_at_step_1000 fromtimestamp fromisoformat entry :
  (∀ f, f ∈ AutoGenParser.timestamp_fields → f ∉ entry.*1) →
  (∀ step, (0 ≤ step < 1000)%Z →
     AutoGenParser._extract_timestamp fromtimestamp fromisoformat entry step =
       pyexc.Returns (datetime.Naive (AutoGenParser.base_time + step * 1000))) ∧
  (∀ s1 s2 t1 t2, (0 ≤ s1 < s2)%Z → (s2 < 1000)%Z →
     AutoGenParser._extract_timestamp fromtimestamp fromisoformat entry s1 = pyexc.Returns t1 →
     AutoGenParser._extract_timestamp fromtimestamp fromisoformat entry s2 = pyexc.Returns t2 →
     datetime.lt t1 t2 = Some true) ∧
  (∀ step, (1000 ≤ step)%Z →
     ∃ e, AutoGenParser._extract_timestamp fromtimestamp fromisoformat entry step =
            pyexc.Throws e ∧
          ((step ≤ 2147483)%Z → e = pyexc.ValueError)).
Proof.
  intros Habs.
  assert (∀ step, AutoGenParser._extract_timestamp fromtimestamp fromisoformat entry step =
                  AutoGenParser.replace_microsecond (step * 1000)) as Heq.
  { intros step. unfold AutoGenParser._extract_timestamp.
    by rewrite first_timestamp_absent. }
  assert (∀ step, (0 ≤ step < 1000)%Z →
            AutoGenParser.replace_microsecond (step * 1000) =
            pyexc.Returns (datetime.Naive (AutoGenParser.base_time + step * 1000))) as Hin.
  { intros step Hs. unfold AutoGenParser.replace_microsecond.
    by rewrite bool_decide_eq_true_2 by lia. }
  split_and!.
  - intros step Hs. by rewrite Heq, Hin.
  - intros s1 s2 t1 t2 H1 H2. rewrite !Heq, !Hin by lia. intros [= <-] [= <-].
    simpl. f_equal. apply bool_decide_eq_true_2. lia.
  - intros step Hs. rewrite Heq. unfold AutoGenParser.replace_microsecond.
    rewrite bool_decide_eq_false_2 by lia. case_bool_decide as Hc.
    + by eexists.
    + eexists. split; [done|]. intros ?. lia.
Qed.

Lemma inferred_timestamps_stop_at_step_1000_witness :
  (∀ f, f ∈ AutoGenParser.timestamp_fields → f ∉ entry_plain.*1) ∧
  AutoGenParser._extract_timestamp (λ _, pyexc.Throws pyexc.OSError)
    (λ _, pyexc.Throws pyexc.OSError) entry_plain 999 =
    pyexc.Returns (datetime.Naive (AutoGenParser.base_time + 999 * 1000)) ∧
  ∃ e, AutoGenParser._extract_timestamp (λ _, pyexc.Throws pyexc.OSError)
         (λ _, pyexc.Throws pyexc.OSError) entry_plain 1000 = pyexc.Throws e.
Proof.
  assert (∀ f, f ∈ AutoGenParser.timestamp_fields → f ∉ entry_plain.*1) as Habs.
  { intros f Hf.
    repeat (apply elem_of_cons in Hf as [->|Hf];
            [apply (bool_decide_unpack _); vm_compute; exact I|]).
    by apply elem_of_nil in Hf. }
  destruct (inferred_timestamps_stop_at_step_1000 (λ _, pyexc.Throws pyexc.OSError)
              (λ _, pyexc.Throws pyexc.OSError) entry_plain Habs) as (Hret & _ & Hthrow).
  split_and!; [exact Habs|apply Hret; lia|].
  destruct (Hthrow 1000%Z) as (e & He & _); [lia|]. by exists e.
Defined.

Lemma lower_ascii_idemp c : lower_ascii (lower_ascii c) = lower_ascii c.
Proof.
  unfold lower_ascii. cbn zeta.
  destruct (decide (65 ≤ Ascii.N_of_ascii c ≤ 90)%N) as [Hc|Hc].
  - rewrite (bool_decide_eq_true_2 _ Hc).
    rewrite Ascii.N_ascii_embedding by lia. by rewrite bool_decide_eq_false_2 by lia.
  - rewrite (bool_decide_eq_false_2 _ Hc). by rewrite (bool_decide_eq_false_2 _ Hc).
Qed.

Lemma lower_idemp s : lower (lower s) = lower s.
Proof. induction s as [|c s IH]; [done|]. simpl. by rewrite lower_ascii_idemp, IH. Qed.

Lemma lower_app s1 s2 : lower (s1 +:+ s2) = lower s1 +:+ lower s2.
Proof. induction s1 as [|c s1 IH]; [done|]. simpl. by rewrite IH. Qed.

Lemma prefix_app_r k s b : String.prefix k s = true → String.prefix k (s +:+ b) = true.
Proof.
  revert k. induction s as [|c s IH]; intros k; destruct k as [|ck k]; simpl; try done.
  - intros _. by destruct b.
  - destruct (Ascii.ascii_dec ck c); [apply IH|done].
Qed.

Lemma contains_app_r k s b : contains k s = true → contains k (s +:+ b) = true.
Proof.
  induction s as [|c s IH]; simpl.
  - rewrite orb_false_r. destruct k; [|done]. intros _. by destruct b.
  - intros [Hp|Hc]%orb_true_iff; apply orb_true_iff.
    + left. by apply (prefix_app_r k (String c s) b).
    + right. by apply IH.
Qed.

Lemma contains_app_l k a s : contains k s = true → contains k (a +:+ s) = true.
Proof.
  intros Hc. induction a as [|c a IH]; [done|]. simpl. apply orb_true_iff. by right.
Qed.

Lemma any_in_app keywords a s b :
  AutoGenParser.any_in keywords s = true →
  AutoGenParser.any_in keywords (a +:+ s +:+ b) = true.
Proof.
  unfold AutoGenParser.any_in. rewrite !existsb_exists.
  intros (k & Hk & Hc). exists k. split; [done|]. by apply contains_app_l, contains_app_r.
Qed.

(** X20. [_infer_message_type] raises nothing but [AttributeError], and only
    for an entry whose [type] or [role] is not a string; it returns
    [OBSERVATION] only when the entry's [type] says so, in any letter case;
    and for an entry without [type] and [role] it returns one of
    [DELEGATION], [THOUGHT], [ACTION] and [RESPONSE]. *)
Theorem message_type_is_inferred_within_bounds entry content :
  ascii_entry entry → is_ascii content = true →
  (∀ e, AutoGenParser._infer_message_type entry content = pyexc.Throws e →
        e = pyexc.AttributeError ∧
        ∃ k x, k ∈ ["type"; "role"] ∧ dict_get k entry = Some x ∧ ∀ s, x ≠ json.Str s) ∧
  (AutoGenParser._infer_message_type entry content = pyexc.Returns MessageType.OBSERVATION →
   ∃ s, dict_get "type" entry = Some (json.Str s) ∧ lower s = "observation") ∧
  ("type" ∉ entry.*1 → "role" ∉ entry.*1 →
   ∃ t, AutoGenParser._infer_message_type entry content = pyexc.Returns t ∧
        t ∈ [MessageType.DELEGATION; MessageType.THOUGHT; MessageType.ACTION;
             MessageType.RESPONSE]).
Proof.
  intros _ _. unfold AutoGenParser._infer_message_type. split_and!.
  - intros e.
    destruct (dict_get "type" entry) as [x|] eqn:Htype.
    + destruct x; simpl; try (intros [= <-]; split; [done|];
        eexists "type", _; split_and!; [by left|done|by intros ?]).
      destruct (MessageType_of_value (lower s)); [done|].
      destruct (dict_get "role" entry) as [y|] eqn:Hrole; simpl.
      * destruct y; simpl; try (intros [= <-]; split; [done|];
          eexists "role", _; split_and!; [right; by left|done|by intros ?]).
        repeat case_match; done.
      * repeat case_match; done.
    + destruct (dict_get "role" entry) as [y|] eqn:Hrole; simpl.
      * destruct y; simpl; try (intros [= <-]; split; [done|];
          eexists "role", _; split_and!; [right; by left|done|by intros ?]).
        repeat case_match; done.
      * repeat case_match; done.
  - destruct (dict_get "type" entry) as [x|] eqn:Htype.
    + destruct x; simpl; try done.
      destruct (MessageType_of_value (lower s)) as [t|] eqn:Hv.
      * intros [= ->]. exists s. split; [done|]. unfold MessageType_of_value in Hv.
        repeat case_bool_decide; simplify_eq; done.
      * destruct (AutoGenParser.value_lower _); [|done]. repeat case_match; done.
    + destruct (AutoGenParser.value_lower _); [|done]. repeat case_match; done.
  - intros Htype%get_None Hrole%get_None. rewrite Htype, Hrole.
    cbn [AutoGenParser.value_lower default].
    rewrite (bool_decide_eq_false_2 (lower "" = "system")) by done.
    destruct (AutoGenParser.any_in AutoGenParser.delegation_keywords (lower content));
      [eexists; split; [done|]; rewrite !elem_of_cons; auto|].
    destruct (AutoGenParser.any_in AutoGenParser.thought_keywords (lower content));
      [eexists; split; [done|]; rewrite !elem_of_cons; auto|].
    destruct (_ || _); eexists; (split; [done|]); rewrite !elem_of_cons; auto 10.
Qed.

(** X21. The letter case of the content does not matter to
    [_infer_message_type], and a keyword counts wherever it stands: a
    content that makes the result [DELEGATION] still does so with any text
    before and after it. *)
Theorem delegation_keywords_count_anywhere entry a content b :
  is_ascii a = true → is_ascii content = true → is_ascii b = true →
  AutoGenParser._infer_message_type entry (lower content) =
    AutoGenParser._infer_message_type entry content ∧
  (AutoGenParser._infer_message_type entry content = pyexc.Returns MessageType.DELEGATION →
   AutoGenParser._infer_message_type entry (a +:+ content +:+ b) =
     pyexc.Returns MessageType.DELEGATION).
Proof.
  intros _ _ _. unfold AutoGenParser._infer_message_type. split.
  - by rewrite lower_idemp.
  - destruct (match dict_get "type" entry with Some x => _ | None => _ end)
      as [[t|]|e]; [done| |done].
    destruct (AutoGenParser.value_lower _) as [role|e]; [|done].
    case_bool_decide; [done|].
    destruct (AutoGenParser.any_in AutoGenParser.delegation_keywords (lower content))
      eqn:Hd.
    + intros _. rewrite !lower_app. by rewrite any_in_app.
    + repeat case_match; done.
Qed.

Lemma message_type_is_inferred_within_bounds_witness :
  ascii_entry entry_bare ∧
  is_ascii "Please implement the login page" = true ∧
  ∃ t, AutoGenParser._infer_message_type entry_bare "Please implement the login page" =
         pyexc.Returns t ∧
       t ∈ [MessageType.DELEGATION; MessageType.THOUGHT; MessageType.ACTION;
            MessageType.RESPONSE].
Proof.
  assert (ascii_entry entry_bare) as Hentry.
  { intros k s Hk. repeat (apply elem_of_cons in Hk as [->|Hk]; [vm_compute; discriminate|]).
    by apply elem_of_nil in Hk. }
  assert (is_ascii "Please implement the login page" = true) as Hc
    by (vm_compute; reflexivity).
  destruct (message_type_is_inferred_within_bounds entry_bare
              "Please implement the login page" Hentry Hc) as (_ & _ & Hrange).
  split_and!; [exact Hentry|exact Hc|].
  apply Hrange; apply (bool_decide_unpack _); vm_compute; exact I.
Defined.

Lemma delegation_keywords_count_anywhere_witness :
  is_ascii "Could you " = true ∧ is_ascii "PLEASE build it" = true ∧
  is_ascii " today" = true ∧
  AutoGenParser._infer_message_type entry_plain "PLEASE build it" =
    pyexc.Returns MessageType.DELEGATION ∧
  AutoGenParser._infer_message_type entry_plain ("Could you " +:+ "PLEASE build it" +:+ " today")
    = pyexc.Returns MessageType.DELEGATION.
Proof.
  assert (is_ascii "Could you " = true) as Ha by (vm_compute; reflexivity).
  assert (is_ascii "PLEASE build it" = true) as Hc by (vm_compute; reflexivity).
  assert (is_ascii " today" = true) as Hb by (vm_compute; reflexivity).
  assert (AutoGenParser._infer_message_type entry_plain "PLEASE build it" =
          pyexc.Returns MessageType.DELEGATION) as Hd by (vm_compute; reflexivity).
  destruct (delegation_keywords_count_anywhere entry_plain "Could you " "PLEASE build it"
              " today" Ha Hc Hb) as [_ Hmono].
  split_and!; [exact Ha|exact Hc|exact Hb|exact Hd|exact (Hmono Hd)].
Defined.

(** * The endpoints *)

Lemma build_graph_returns msgs w0 :
  msgs ≠ [] →
  (∃ k, Forall (λ m, datetime.aware (Message.timestamp m) = k) msgs) →
  ∃ g w, build_graph msgs w0 = (Ok g, w).
Proof.
  destruct w0 as [self h0]. destruct msgs as [|m msgs]; [done|]. intros _ [k Hall].
  destruct (build_loop_result (sorted_by_step (m :: msgs)) ([], nx.empty, h0))
    as ([[nm g] h] & _ & Hk).
  assert (build_loop (sorted_by_step (m :: msgs)) ([], nx.empty, h0) = (Ok tt, (nm, g, h)))
    as Hloop.
  { apply (Hk k); [by rewrite sorted_by_step_perm|constructor]. }
  pose proof (build_graph_cons m msgs self h0) as Hbuild. cbn zeta in Hbuild.
  rewrite Hloop in Hbuild. by eexists _, _.
Qed.

(** On a built model [to_graph_snapshot] returns and leaves the builder. *)
Lemma to_graph_snapshot_returns msgs w0 base w wa max_step :
  build_graph msgs w0 = (Ok base, w) → after_reads w wa →
  ∃ s h, to_graph_snapshot max_step wa = (Ok s, (wa.1, h)) ∧ after_reads w (wa.1, h) ∧
         GraphSnapshot.total_steps s = max_step_index (messages wa.1) ∧
         (truthy_int max_step = false →
          convert_nodes base = Ok (GraphSnapshot.nodes s) ∧
          GraphSnapshot.edges s = convert_edges wa.2 base).
Proof.
  intros Hb Hr. destruct (truthy_int max_step) eqn:Ht.
  - destruct max_step as [K|]; [|done]. unfold truthy_int in Ht.
    apply bool_decide_eq_true in Ht.
    destruct (to_graph_snapshot_filtered _ _ _ _ _ K Hb Hr Ht)
      as (view & h' & ns & _ & _ & _ & Hs).
    eexists _, h'. split_and!; [exact Hs| |done|done].
    by eapply after_snapshot.
  - destruct (to_graph_snapshot_whole _ _ _ _ _ max_step Hb Hr Ht) as (ns & Hns & Hs).
    destruct wa as [self h]. eexists _, h. split_and!; [exact Hs| |done|done].
    by eapply after_snapshot.
Qed.

(** The handler after the two checks and the parser, when [build_graph]
    returns. *)
Lemma upload_log_file_built cfg parse file size framework uuid4 now1 now2 app msgs base w :
  framework ∈ ParserService.get_available_parsers →
  truthy_int size && bool_decide (default 0 size > MAX_UPLOAD_SIZE cfg)%Z = false →
  parse file = Parsed msgs →
  build_graph msgs (__init__, heap app) = (Ok base, w) →
  ∃ ns,
    convert_nodes base = Ok ns ∧
    upload.upload_log_file cfg parse file size framework uuid4 now1 now2 app =
      (Return
         {| UploadResponse.graph_id := String.substring 0 8 uuid4;
            UploadResponse.message_count := Z.of_nat (length msgs);
            UploadResponse.node_count := Z.of_nat (length ns);
            UploadResponse.edge_count := Z.of_nat (length (convert_edges w.2 base));
            UploadResponse.total_steps := max_step_index (messages w.1);
            UploadResponse.framework := framework |},
       {| session_manager :=
            (SessionManager.create_session uuid4 now1 now2 msgs framework w.1
               (session_manager app)).2;
          heap := w.2 |}).
Proof.
  intros Hfw Hsize Hparse Hb. destruct w as [gb h].
  destruct (to_graph_snapshot_returns _ _ _ _ _ None Hb (after_nothing _))
    as (s & h' & Hs & _ & Hsteps & Hparts).
  destruct (Hparts eq_refl) as [Hns Hedges]. cbn [fst snd] in *.
  pose proof (to_graph_snapshot_world None (gb, h)) as Hworld.
  assert (h' = h) as ->.
  { destruct Hworld as [Hw|[K Hw]]; rewrite Hs in Hw; cbn [snd] in Hw.
    - by injection Hw.
    - unfold to_graph_snapshot in Hs. destruct (built gb); [|done]. cbn in Hs.
      destruct (convert_nodes _); by injection Hs. }
  exists (GraphSnapshot.nodes s). split; [done|].
  unfold upload.upload_log_file.
  rewrite (bool_decide_eq_true_2 _ Hfw), Hsize. cbn [negb].
  unfold ParserService.parse_log.
  rewrite (bool_decide_eq_true_2 (framework ∈ ParserService.PARSER_REGISTRY)) by done.
  rewrite Hparse, Hb. unfold SessionManager.create_session. rewrite Hs.
  by rewrite Hsteps, Hedges.
Qed.

(** X23. An upload for a supported framework, of a file within the size
    limit in which the parser finds a non-empty list of messages whose
    timestamps are all naive or all aware, is answered with the id of a new
    session, the first eight characters of the uuid; the response carries
    the number of the messages and the numbers of nodes and edges of the
    graph built from them, and as [total_steps] their largest step index;
    the session holds the builder with that graph, so the graph can be
    requested. *)
Theorem an_uploaded_log_is_registered
    cfg parse file size framework uuid4 now1 now2 app msgs :
  framework ∈ ParserService.get_available_parsers →
  (∀ z, size = Some z → (z ≤ MAX_UPLOAD_SIZE cfg)%Z) →
  parse file = Parsed msgs →
  msgs ≠ [] →
  (∃ k, Forall (λ m, datetime.aware (Message.timestamp m) = k) msgs) →
  ∃ resp app' base w session,
    upload.upload_log_file cfg parse file size framework uuid4 now1 now2 app =
      (Return resp, app') ∧
    build_graph msgs (__init__, heap app) = (Ok base, w) ∧
    UploadResponse.graph_id resp = String.substring 0 8 uuid4 ∧
    UploadResponse.message_count resp = Z.of_nat (length msgs) ∧
    UploadResponse.node_count resp = Z.of_nat (length (nx.nodes base)) ∧
    UploadResponse.edge_count resp = Z.of_nat (length (nx.edges base)) ∧
    (∀ m, m ∈ msgs → (Message.step_index m ≤ UploadResponse.total_steps resp)%Z) ∧
    dict_get (UploadResponse.graph_id resp) (session_manager app') = Some session ∧
    Session.graph_builder session = w.1 ∧
    Session.messages session = msgs ∧
    after_reads w (Session.graph_builder session, heap app').
Proof.
  intros Hfw Hsize Hparse Hne Hkind.
  destruct (build_graph_returns msgs (__init__, heap app) Hne Hkind) as (base & w & Hb).
  assert (truthy_int size && bool_decide (default 0 size > MAX_UPLOAD_SIZE cfg)%Z = false)
    as Hsize'.
  { destruct size as [z|]; [|done]. specialize (Hsize z eq_refl). simpl.
    rewrite (bool_decide_eq_false_2 (z > _)%Z) by lia. apply andb_false_r. }
  destruct (upload_log_file_built cfg parse file size framework uuid4 now1 now2 app
              msgs base w Hfw Hsize' Hparse Hb) as (ns & Hns & Hup).
  destruct (built_model _ _ _ _ Hb) as (_ & Hw & _ & _ & Hall).
  destruct (convert_nodes_Ok base Hall) as (ns' & Hns' & Hlen).
  rewrite Hns in Hns'. injection Hns' as <-.
  eexists _, _, base, w, _. split; [exact Hup|].
  cbn [UploadResponse.graph_id UploadResponse.message_count UploadResponse.node_count
       UploadResponse.edge_count UploadResponse.total_steps session_manager heap].
  split_and!.
  - done.
  - done.
  - done.
  - unfold nx.nodes. by rewrite Hlen, length_fmap.
  - unfold convert_edges. by rewrite length_fmap.
  - intros m Hm. rewrite Hw. cbn [messages]. apply max_step_index_ge.
    by rewrite (sorted_by_step_perm msgs).
  - unfold SessionManager.create_session. cbn [snd].
    rewrite dict_get_set, bool_decide_eq_true_2 by done. reflexivity.
  - done.
  - done.
  - cbn [Session.graph_builder]. destruct w. apply after_nothing.
Qed.

(** X24. An upload that is refused makes no session: the sessions are as
    they were.  The status is 400 when the framework is not supported, when
    the file is larger than the limit, and when the parser raises
    [ParserError]; it is 500 when the parser raises another exception and
    when [build_graph] raises, as it does for an empty list of messages. *)
Theorem a_refused_upload_makes_no_session
    cfg parse file size framework uuid4 now1 now2 app status_code detail app' :
  upload.upload_log_file cfg parse file size framework uuid4 now1 now2 app =
    (HTTPException status_code detail, app') →
  session_manager app' = session_manager app ∧
  ((status_code = 400%Z ∧
    ((framework ∉ ParserService.get_available_parsers) ∨
     (∃ z, size = Some z ∧ (z > MAX_UPLOAD_SIZE cfg)%Z) ∨
     (∃ message, parse file = ParserError message))) ∨
   (status_code = 500%Z ∧
    ((∃ e, parse file = ParseFailed e) ∨
     (∃ msgs e, parse file = Parsed msgs ∧
                (build_graph msgs (__init__, heap app)).1 = Raise e)))).
Proof.
  unfold upload.upload_log_file.
  destruct (decide (framework ∈ ParserService.get_available_parsers)) as [Hfw|Hfw].
  2:{ rewrite (bool_decide_eq_false_2 _ Hfw). cbn [negb]. intros [= <- <- <-].
      split; [done|]. left. split; [done|]. by left. }
  rewrite (bool_decide_eq_true_2 _ Hfw). cbn [negb].
  destruct (truthy_int size && bool_decide (default 0 size > MAX_UPLOAD_SIZE cfg)%Z)
    eqn:Hsize.
  { intros [= <- <- <-]. split; [done|]. left. split; [done|]. right. left.
    apply andb_true_iff in Hsize as [Ht Hgt%bool_decide_eq_true].
    destruct size as [z|]; [|done]. by exists z. }
  unfold ParserService.parse_log.
  rewrite (bool_decide_eq_true_2 (framework ∈ ParserService.PARSER_REGISTRY)) by done.
  destruct (parse file) as [msgs|message|e] eqn:Hparse.
  - destruct (build_graph msgs (__init__, heap app)) as [r [gb h]] eqn:Hb.
    destruct r as [base|e].
    + destruct (upload_log_file_built cfg parse file size framework uuid4 now1 now2 app
                  msgs base (gb, h) Hfw Hsize Hparse Hb) as (ns & _ & Hup).
      unfold upload.upload_log_file in Hup.
      rewrite (bool_decide_eq_true_2 _ Hfw), Hsize in Hup. cbn [negb] in Hup.
      unfold ParserService.parse_log in Hup.
      rewrite (bool_decide_eq_true_2 (framework ∈ ParserService.PARSER_REGISTRY)) in Hup
        by done.
      rewrite Hparse, Hb in Hup. rewrite Hup. done.
    + intros [= <- <- <-]. split; [done|]. right. split; [done|]. right.
      exists msgs, e. split; [done|]. by rewrite Hb.
  - intros [= <- <- <-]. split; [done|]. left. split; [done|]. right. right.
    by exists message.
  - intros [= <- <- <-]. split; [done|]. right. split; [done|]. left. by exists e.
Qed.

Lemma an_uploaded_log_is_registered_witness :
  "autogen" ∈ ParserService.get_available_parsers ∧
  (∀ z, Some 3%Z = Some z → (z ≤ MAX_UPLOAD_SIZE settings)%Z) ∧
  parse_A "log" = Parsed scenario_A ∧
  scenario_A ≠ [] ∧
  (∃ k, Forall (λ m, datetime.aware (Message.timestamp m) = k) scenario_A) ∧
  ∃ resp app',
    upload.upload_log_file settings parse_A "log" (Some 3%Z) "autogen"
      "5b6a7c8d-0000-4000-8000-000000000001" 1000 1001 app0 = (Return resp, app') ∧
    UploadResponse.graph_id resp = "5b6a7c8d" ∧
    UploadResponse.message_count resp = 4%Z.
Proof.
  assert ("autogen" ∈ ParserService.get_available_parsers) as Hfw by (by left).
  assert (∀ z, Some 3%Z = Some z → (z ≤ MAX_UPLOAD_SIZE settings)%Z) as Hsize
    by (intros z [= <-]; vm_compute; discriminate).
  assert (parse_A "log" = Parsed scenario_A) as Hparse by reflexivity.
  assert (scenario_A ≠ []) as Hne by discriminate.
  assert (∃ k, Forall (λ m, datetime.aware (Message.timestamp m) = k) scenario_A) as Hk
    by (exists false; repeat constructor).
  destruct (an_uploaded_log_is_registered settings parse_A "log" (Some 3%Z) "autogen"
              "5b6a7c8d-0000-4000-8000-000000000001" 1000 1001 app0 scenario_A
              Hfw Hsize Hparse Hne Hk)
    as (resp & app' & base & w & session & Hup & _ & Hid & Hcount & _).
  split_and!; [exact Hfw|exact Hsize|exact Hparse|exact Hne|exact Hk|].
  exists resp, app'. split_and!; [exact Hup|exact Hid|exact Hcount].
Defined.

Lemma a_refused_upload_makes_no_session_witness :
  upload.upload_log_file settings parse_A "log" (Some 3%Z) "crewai"
    "9f1c2d3e-0000-4000-8000-000000000002" 2000 2001 app_A =
    (HTTPException 400 (unsupported_framework "crewai"), app_A) ∧
  session_manager app_A = session_manager app_A.
Proof.
  assert (upload.upload_log_file settings parse_A "log" (Some 3%Z) "crewai"
            "9f1c2d3e-0000-4000-8000-000000000002" 2000 2001 app_A =
          (HTTPException 400 (unsupported_framework "crewai"), app_A)) as Hup
    by (vm_compute; reflexivity).
  destruct (a_refused_upload_makes_no_session settings parse_A "log" (Some 3%Z) "crewai"
              "9f1c2d3e-0000-4000-8000-000000000002" 2000 2001 app_A 400
              (unsupported_framework "crewai") app_A Hup) as [Hsm _].
  split; [exact Hup|exact Hsm].
Defined.

(** ** The endpoints together *)







(** X27. A deleted session is gone from every endpoint.  The endpoint
    [delete_session] answers with the message when the manager has the
    session and with the status 404 when not; afterwards the requests for
    the graph, the metrics and the info of that id and a second deletion
    are all answered with the status 404 and change nothing, the list of
    the sessions no longer has the id, and the other sessions and the store
    are as they were. *)
Theorem a_deleted_session_is_gone_from_every_endpoint isoformat session_id app :
  managed (session_manager app) →
  let r := upload.delete_session session_id app in
  (is_Some (dict_get session_id (session_manager app)) →
   r.1 = Return [("message", "Session " +:+ session_id +:+ " deleted successfully")]) ∧
  (dict_get session_id (session_manager app) = None →
   r = (HTTPException 404 session_not_found, app)) ∧
  heap r.2 = heap app ∧
  (∀ k, k ≠ session_id →
        dict_get k (session_manager r.2) = dict_get k (session_manager app)) ∧
  (∀ step now, graph_api.get_graph session_id step now r.2 =
                 (HTTPException 404 (graph_not_found session_id), r.2)) ∧
  (∀ now, graph_api.get_graph_metrics session_id now r.2 =
            (HTTPException 404 (metrics_not_found session_id), r.2)) ∧
  (∀ now, graph_api.get_graph_info isoformat session_id now r.2 =
            (HTTPException 404 (info_not_found session_id), r.2)) ∧
  upload.delete_session session_id r.2 = (HTTPException 404 session_not_found, r.2) ∧
  session_id ∉ SessionInfo.id <$> SessionList.sessions (upload.list_sessions isoformat r.2).
Proof.
  intros Hm r.
  assert (managed (session_manager r.2)) as Hm'.
  { unfold r, upload.delete_session.
    pose proof (managed_delete session_id _ Hm) as Hd.
    by destruct (SessionManager.delete_session session_id (session_manager app)). }
  assert (dict_get session_id (session_manager r.2) = None ∧ heap r.2 = heap app ∧
          (∀ k, k ≠ session_id →
                dict_get k (session_manager r.2) = dict_get k (session_manager app)) ∧
          (is_Some (dict_get session_id (session_manager app)) →
           r.1 = Return [("message", "Session " +:+ session_id +:+ " deleted successfully")]) ∧
          (dict_get session_id (session_manager app) = None →
           r = (HTTPException 404 session_not_found, app)))
    as (Hnone & Hheap & Hother & Hyes & Hno).
  { unfold r, upload.delete_session, SessionManager.delete_session.
    destruct (decide (session_id ∈ (session_manager app).*1)) as [Hin|Hin].
    - rewrite (bool_decide_eq_true_2 _ Hin). cbn [fst snd session_manager heap].
      split_and!; [by rewrite dict_get_del, bool_decide_eq_true_2|done| |done|].
      + intros k Hk. by rewrite dict_get_del, bool_decide_eq_false_2.
      + by intros ?%get_None.
    - rewrite (bool_decide_eq_false_2 _ Hin). cbn [fst snd session_manager heap].
      apply get_None in Hin. split_and!; [done|done|done| |by destruct app].
      rewrite Hin. by intros [? ?]. }
  destruct r as [resp app1]. cbn [fst snd] in *.
  split_and!; [done|done|done|done| | | | |].
  - intros step now.
    unfold graph_api.get_graph, SessionManager.get_graph_builder, SessionManager.get_session.
    rewrite Hnone. by destruct app1.
  - intros now.
    unfold graph_api.get_graph_metrics, SessionManager.get_graph_builder,
      SessionManager.get_session.
    rewrite Hnone. by destruct app1.
  - intros now. unfold graph_api.get_graph_info, SessionManager.get_session.
    rewrite Hnone. by destruct app1.
  - unfold upload.delete_session, SessionManager.delete_session.
    rewrite bool_decide_eq_false_2 by (by apply get_None). by destruct app1.
  - unfold upload.list_sessions. cbn [SessionList.sessions].
    destruct (managed_inv _ Hm') as [_ Hall].
    assert (SessionInfo.id <$> SessionManager.list_sessions isoformat (session_manager app1)
            = (session_manager app1).*1) as ->.
    { unfold SessionManager.list_sessions. rewrite <-list_fmap_compose.
      apply list_fmap_ext. intros _ p Hin%list_elem_of_lookup_2. simpl.
      by destruct (proj1 (Forall_forall _ _) Hall _ Hin). }
    by apply get_None.
Qed.

(** X28. The info of a session shows the time of the request itself: in
    every state of the session manager, for a session that the manager has,
    [get_graph_info] answers with the requested id, the framework, the
    number of messages and the time of creation of the session, and as
    [last_accessed] the reading of the clock of this very request, not the
    time of an earlier access; that reading is then stored in the
    session. *)
Theorem the_info_shows_the_time_of_the_request isoformat graph_id now app session :
  managed (session_manager app) →
  dict_get graph_id (session_manager app) = Some session →
  ∃ app',
    graph_api.get_graph_info isoformat graph_id now app =
      (Return {| GraphInfo.graph_id := graph_id;
                 GraphInfo.framework := Session.framework session;
                 GraphInfo.message_count := Z.of_nat (length (Session.messages session));
                 GraphInfo.created_at := isoformat (Session.created_at session);
                 GraphInfo.last_accessed := isoformat (datetime.Naive now) |}, app') ∧
    heap app' = heap app ∧
    dict_get graph_id (session_manager app') =
      Some (Session.set_last_accessed (datetime.Naive now) session) ∧
    (∀ k, k ≠ graph_id →
          dict_get k (session_manager app') = dict_get k (session_manager app)).
Proof.
  intros [_ Hall]%managed_inv Hget.
  destruct (proj1 (Forall_forall _ _) Hall _ (get_elem_of _ _ _ Hget)) as (Hid & _).
  cbn [fst snd] in Hid.
  unfold graph_api.get_graph_info, SessionManager.get_session. rewrite Hget.
  cbn [Session.id Session.framework Session.messages Session.created_at
       Session.last_accessed Session.set_last_accessed]. rewrite Hid.
  eexists. split; [reflexivity|]. cbn [session_manager heap]. split_and!.
  - done.
  - by rewrite dict_get_set, bool_decide_eq_true_2.
  - intros k Hk. by rewrite dict_get_set, bool_decide_eq_false_2.
Qed.

Lemma app_A_managed : managed (session_manager app_A).
Proof.
  exact (managed_create "5b6a7c8d-0000-4000-8000-000000000001" 1000 1001
           scenario_A "autogen" world_A.1 _ managed_new).
Qed.


Lemma a_deleted_session_is_gone_from_every_endpoint_witness :
  managed (session_manager app_A) ∧
  is_Some (dict_get "5b6a7c8d" (session_manager app_A)) ∧
  (upload.delete_session "5b6a7c8d" app_A).1 =
    Return [("message", "Session 5b6a7c8d deleted successfully")] ∧
  graph_api.get_graph "5b6a7c8d" None 5000 (upload.delete_session "5b6a7c8d" app_A).2 =
    (HTTPException 404 (graph_not_found "5b6a7c8d"),
     (upload.delete_session "5b6a7c8d" app_A).2).
Proof.
  pose proof app_A_managed as Hm.
  assert (is_Some (dict_get "5b6a7c8d" (session_manager app_A))) as Hsome
    by (vm_compute; eexists; reflexivity).
  destruct (a_deleted_session_is_gone_from_every_endpoint (λ _, "") "5b6a7c8d" app_A Hm)
    as (Hyes & _ & _ & _ & Hgraph & _).
  split_and!; [exact Hm|exact Hsome|exact (Hyes Hsome)|exact (Hgraph None 5000%Z)].
Defined.

Lemma the_info_shows_the_time_of_the_request_witness :
  managed (session_manager app_A) ∧
  ∃ session app',
    dict_get "5b6a7c8d" (session_manager app_A) = Some session ∧
    graph_api.get_graph_info (λ _, "") "5b6a7c8d" 5000 app_A =
      (Return {| GraphInfo.graph_id := "5b6a7c8d";
                 GraphInfo.framework := Session.framework session;
                 GraphInfo.message_count := Z.of_nat (length (Session.messages session));
                 GraphInfo.created_at := "";
                 GraphInfo.last_accessed := "" |}, app').
Proof.
  pose proof app_A_managed as Hm. split; [exact Hm|].
  assert (∃ session, dict_get "5b6a7c8d" (session_manager app_A) = Some session)
    as (session & Hget) by (eexists; vm_compute; reflexivity).
  destruct (the_info_shows_the_time_of_the_request (λ _, "") "5b6a7c8d" 5000 app_A session
              Hm Hget) as (app' & Hinfo & _).
  exists session, app'. split; [exact Hget|exact Hinfo].
Defined.

(** * The states of the application *)

(** An append to the list of an edge leaves every dictionary with its list. *)
Lemma list_loc_append_interaction i d h d' :
  list_loc (append_interaction i d h) d' = list_loc h d'.
Proof.
  unfold list_loc, append_interaction, Heap.dict_at, Heap.set_dict, Heap.set_list.
  cbn [Heap.dicts Heap.lists].
  destruct (decide (d' = d)) as [->|Hne]; [|by rewrite list_lookup_insert_ne].
  destruct (decide (d < length (Heap.dicts h))) as [Hd|Hd].
  - rewrite list_lookup_insert_eq by done. by destruct (Heap.dicts h !! d).
  - by rewrite list_insert_ge by lia.
Qed.

Lemma add_interaction_made_after msgs h0 m g h g' h' :
  truthy (Message.receiver m) = true →
  Message.sender m ∈ nx.nodes g →
  default "" (Message.receiver m) ∈ nx.nodes g →
  store_inv msgs h g → made_after h0 g h →
  _add_interaction m (g, h) = (g', h') →
  made_after h0 g' h'.
Proof.
  intros Ht Hu Hr (Hwf & Hnd & Hndl & Hall) [(Hl0 & Hn0 & Hd0) Hnew].
  unfold _add_interaction. rewrite Ht. simpl.
  set (u := Message.sender m) in *. set (v := default "" (Message.receiver m)) in *.
  set (i := new_interaction m).
  destruct (nx.get_edge u v g) as [d|] eqn:Hget.
  - change (Heap.set_dict d _ _) with (append_interaction i d h).
    intros [= <- <-].
    apply get_edge_elem in Hget; [|done].
    pose proof (proj1 (Forall_forall _ _) Hnew _ Hget) as [Hd Hl]. cbn [snd] in Hd, Hl.
    split.
    + unfold append_interaction, Heap.set_dict, Heap.set_list, preserves.
      cbn [Heap.dicts Heap.lists]. fold (list_loc h d). split_and!.
      * destruct Hl0 as [k Hk]. rewrite Hk.
        rewrite insert_app_r_alt by done. by eexists.
      * by rewrite length_insert.
      * intros d' Hd' _. rewrite list_lookup_insert_ne by lia.
        apply Hd0; [done|apply not_elem_of_nil].
    + eapply Forall_impl; [exact Hnew|]. intros e [? ?].
      by rewrite list_loc_append_interaction.
  - unfold nx.add_edge. simpl. rewrite !add_node_id by (by rewrite ?add_node_id).
    rewrite Hget. simpl. intros [= <- <-].
    set (a := {| EdgeAttr.interactions := length (Heap.lists h); EdgeAttr.weight := 1;
                 EdgeAttr.source := u; EdgeAttr.target := v |}).
    set (h' := {| Heap.lists := Heap.lists h ++ [[i]]; Heap.dicts := Heap.dicts h ++ [a] |}).
    set (d := length (Heap.dicts h)).
    assert (Heap.dict_at h' d = a) as Hda
      by (unfold Heap.dict_at, h', d; simpl; by rewrite list_lookup_middle).
    pose proof (edges_add_succ u v d g (proj1 Hwf) Hu) as Hperm.
    split.
    + split_and!; simpl.
      * destruct Hl0 as [k ->]. exists (k ++ [[i]]). by rewrite (assoc_L (++)).
      * rewrite length_app. lia.
      * intros d' Hd' _. rewrite lookup_app_l by lia.
        apply Hd0; [done|apply not_elem_of_nil].
    + rewrite Hperm. apply Forall_app. split.
      * apply Forall_forall. intros e He.
        pose proof (proj1 (Forall_forall _ _) Hnew _ He) as [Hd Hl].
        pose proof (proj1 (Forall_forall _ _) Hall _ He) as [[Hv _] _].
        split; [done|].
        assert (list_loc h' e.2 = list_loc h e.2) as ->; [|done].
        unfold list_loc, Heap.dict_at, h'. simpl. by rewrite lookup_app_l.
      * apply Forall_singleton. cbn [snd]. fold d. unfold list_loc. rewrite Hda. simpl.
        apply prefix_length in Hl0. unfold d. lia.
Qed.

(** A step of the loop keeps the objects of the store it started from,
    whether it raises or not. *)
Lemma build_step_made_after msgs h0 m st r st' :
  loop_inv msgs st → made_after h0 st.1.2 st.2 →
  build_step st m = (r, st') →
  made_after h0 st'.1.2 st'.2.
Proof.
  destruct st as [[nm g] h]. intros [Hn Hinv] Hma. unfold build_step. cbn [fst snd] in *.
  destruct (_add_or_update_node (Message.sender m) m (nm, g)) as [r1 [nm1 g1]] eqn:H1.
  destruct (add_or_update_node_spec _ _ _ _ _ _ _ H1 Hn)
    as (Hn1 & Hs1 & He1 & Hwf1 & Hmono1 & _).
  assert (store_inv msgs h g1) as Hinv1.
  { eapply store_inv_edges_eq; [|done..]. apply Hwf1, Hinv. }
  assert (made_after h0 g1 h) as Hma1 by (unfold made_after; by rewrite He1).
  destruct r1 as [[]|]; [|by intros [= <- <-]].
  destruct (truthy (Message.receiver m)) eqn:Ht; [|by intros [= <- <-]].
  destruct (_add_or_update_node _ m (nm1, g1)) as [r2 [nm2 g2]] eqn:H2.
  destruct (add_or_update_node_spec _ _ _ _ _ _ _ H2 Hn1)
    as (Hn2 & Hs2 & He2 & Hwf2 & Hmono2 & _).
  assert (store_inv msgs h g2) as Hinv2.
  { eapply store_inv_edges_eq; [|done..]. apply Hwf2, Hinv1. }
  assert (made_after h0 g2 h) as Hma2 by (unfold made_after; by rewrite He2).
  destruct r2 as [[]|]; [|by intros [= <- <-]].
  destruct (_add_interaction m (g2, h)) as [g3 h3] eqn:H3.
  intros [= <- <-]. cbn [fst snd].
  eapply (add_interaction_made_after msgs h0 m g2 h); eauto.
Qed.

Lemma build_loop_made_after msgs h0 l : ∀ st r st',
  (∀ m, m ∈ l → m ∈ msgs) → loop_inv msgs st → made_after h0 st.1.2 st.2 →
  build_loop l st = (r, st') →
  made_after h0 st'.1.2 st'.2.
Proof.
  induction l as [|m l IH]; intros st r st' Hsub Hinv Hma; simpl.
  - by intros [= <- <-].
  - destruct (build_step st m) as [r1 st1] eqn:Hstep.
    pose proof (build_step_made_after msgs h0 m st r1 st1 Hinv Hma Hstep) as Hma1.
    destruct r1 as [[]|]; [|by intros [= <- <-]].
    destruct (build_step_inv msgs m st st1) as (Hinv1 & _); [|done..|].
    { apply Hsub. by left. }
    apply IH; [|done..]. intros m' ?. apply Hsub. by right.
Qed.

(** [build_graph] writes no object that the store had before the call,
    whether it raises or not. *)
Lemma build_graph_preserves msgs w0 : preserves [] w0.2 (build_graph msgs w0).2.2.
Proof.
  destruct w0 as [self h0]. destruct msgs as [|m0 msgs0]; [apply preserves_refl|].
  rewrite build_graph_cons. cbn zeta. set (msgs := m0 :: msgs0).
  assert (loop_inv msgs ([], nx.empty, h0)) as Hinit.
  { split; [done|]. split_and!; simpl; [split|..]; constructor. }
  assert (made_after h0 nx.empty h0) as Hma0 by (split; [apply preserves_refl|constructor]).
  destruct (build_loop (sorted_by_step msgs) _) as [r [[nm g] h]] eqn:Hloop.
  assert (made_after h0 g h) as [Hp _].
  { apply (build_loop_made_after msgs h0 (sorted_by_step msgs) _ _ _) in Hloop; [done| |done..].
    intros m. by rewrite sorted_by_step_perm. }
  by destruct r.
Qed.

(** On a model that the store has kept, [to_graph_snapshot] returns, leaves
    the builder and writes no object of the store. *)
Lemma to_graph_snapshot_kept msgs w0 base w h max_step :
  build_graph msgs w0 = (Ok base, w) → preserves [] w.2 h →
  ∃ s h', to_graph_snapshot max_step (w.1, h) = (Ok s, (w.1, h')) ∧
          preserves [] h h' ∧
          GraphSnapshot.total_steps s = max_step_index (sorted_by_step msgs) ∧
          (truthy_int max_step = false → h' = h).
Proof.
  intros Hb Hp.
  destruct (built_model _ _ _ _ Hb) as (_ & Hw & Hbuilt & Hinv & Hall).
  destruct (store_inv_preserved _ _ _ _ Hp Hinv) as [Hinv' _].
  assert (messages w.1 = sorted_by_step msgs) as Hmsgs by (by rewrite Hw).
  unfold to_graph_snapshot. rewrite Hbuilt.
  destruct (truthy_int max_step) eqn:Ht.
  - destruct (filter_intact msgs w.1 h base (default 0%Z max_step) Hbuilt Hinv')
      as (view & h' & Hf & _ & _ & Ha & _ & Hp').
    assert (all_attrs view) as Hallv.
    { unfold all_attrs. rewrite Ha. apply Forall_forall.
      intros p [_ Hp0]%list_elem_of_filter. by apply (proj1 (Forall_forall _ _) Hall). }
    destruct (convert_nodes_Ok view Hallv) as (ns & Hns & _).
    rewrite Hf, Hns. eexists _, h'. split; [reflexivity|].
    split_and!; [done|simpl; by rewrite Hmsgs|done].
  - destruct (convert_nodes_Ok base Hall) as (ns & Hns & _). rewrite Hns.
    eexists _, h. split; [reflexivity|].
    split_and!; [apply preserves_refl|simpl; by rewrite Hmsgs|done].
Qed.

Lemma holds_model_preserved s h h' : preserves [] h h' → holds_model s h → holds_model s h'.
Proof.
  intros Hp (w0 & base & w & Hb & Hgb & Hk). exists w0, base, w.
  split_and!; [done..|]. by eapply preserves_trans.
Qed.

Lemma holds_model_read now s h : holds_model s h →
  holds_model (Session.set_last_accessed (datetime.Naive now) s) h.
Proof. done. Qed.

Lemma Forall_holds_model_preserved (sm : SessionManager.t) h h' :
  preserves [] h h' →
  Forall (λ p, holds_model p.2 h) sm → Forall (λ p, holds_model p.2 h') sm.
Proof.
  intros Hp Hall. eapply Forall_impl; [exact Hall|]. intros p. by apply holds_model_preserved.
Qed.

(** A reading of a session leaves every session with its model. *)
Lemma get_session_holds now sid (sm : SessionManager.t) h :
  Forall (λ p, holds_model p.2 h) sm →
  Forall (λ p, holds_model p.2 h) (SessionManager.get_session now sid sm).2.
Proof.
  intros Hall. unfold SessionManager.get_session.
  destruct (dict_get sid sm) as [s|] eqn:Hget; [|done]. cbn [snd].
  apply Forall_dict_set; [done|]. cbn [snd]. apply holds_model_read.
  by apply (proj1 (Forall_forall _ _) Hall (sid, s)), get_elem_of.
Qed.

Lemma get_graph_builder_state now sid sm :
  (SessionManager.get_graph_builder now sid sm).2 = (SessionManager.get_session now sid sm).2.
Proof.
  unfold SessionManager.get_graph_builder. by destruct (SessionManager.get_session _ _ _).
Qed.

(** The state that an upload leaves: the one before it; or that one with
    the store as a failed [build_graph] left it; or the one with the new
    session and the store as [build_graph] left it. *)
Lemma upload_log_file_state cfg parse file size framework uuid4 now1 now2 app :
  let app' :=
    (upload.upload_log_file cfg parse file size framework uuid4 now1 now2 app).2 in
  app' = app ∨
  (∃ msgs, app' = {| session_manager := session_manager app;
                     heap := (build_graph msgs (__init__, heap app)).2.2 |}) ∨
  (∃ msgs base w,
     build_graph msgs (__init__, heap app) = (Ok base, w) ∧
     app' = {| session_manager :=
                 (SessionManager.create_session uuid4 now1 now2 msgs framework w.1
                    (session_manager app)).2;
               heap := w.2 |}).
Proof.
  cbn zeta.
  destruct (decide (framework ∈ ParserService.get_available_parsers)) as [Hfw|Hfw].
  2:{ left. unfold upload.upload_log_file. by rewrite (bool_decide_eq_false_2 _ Hfw). }
  destruct (truthy_int size && bool_decide (default 0 size > MAX_UPLOAD_SIZE cfg)%Z)
    eqn:Hsize.
  { left. unfold upload.upload_log_file.
    by rewrite (bool_decide_eq_true_2 _ Hfw), Hsize. }
  destruct (parse file) as [msgs|message|e] eqn:Hparse.
  - destruct (build_graph msgs (__init__, heap app)) as [r [gb h]] eqn:Hb.
    destruct r as [base|e].
    + right. right. exists msgs, base, (gb, h). split; [done|].
      destruct (upload_log_file_built cfg parse file size framework uuid4 now1 now2 app
                  msgs base (gb, h) Hfw Hsize Hparse Hb) as (ns & _ & Hup).
      by rewrite Hup.
    + right. left. exists msgs. unfold upload.upload_log_file.
      rewrite (bool_decide_eq_true_2 _ Hfw), Hsize. cbn [negb].
      unfold ParserService.parse_log.
      rewrite (bool_decide_eq_true_2 (framework ∈ ParserService.PARSER_REGISTRY)) by done.
      by rewrite Hparse, Hb.
  - left. unfold upload.upload_log_file.
    rewrite (bool_decide_eq_true_2 _ Hfw), Hsize. cbn [negb].
    unfold ParserService.parse_log.
    rewrite (bool_decide_eq_true_2 (framework ∈ ParserService.PARSER_REGISTRY)) by done.
    rewrite Hparse. by destruct app.
  - left. unfold upload.upload_log_file.
    rewrite (bool_decide_eq_true_2 _ Hfw), Hsize. cbn [negb].
    unfold ParserService.parse_log.
    rewrite (bool_decide_eq_true_2 (framework ∈ ParserService.PARSER_REGISTRY)) by done.
    rewrite Hparse. by destruct app.
Qed.

(** The request for a graph, for a session with its model. *)
Lemma get_graph_found graph_id step now app session :
  dict_get graph_id (session_manager app) = Some session →
  holds_model session (heap app) →
  ∃ snapshot h',
    graph_api.get_graph graph_id step now app =
      (Return snapshot,
       {| session_manager :=
            dict_set graph_id (Session.set_last_accessed (datetime.Naive now) session)
              (session_manager app);
          heap := h' |}) ∧
    (to_graph_snapshot step (Session.graph_builder session, heap app)).1 = Ok snapshot ∧
    preserves [] (heap app) h' ∧
    GraphSnapshot.total_steps snapshot =
      max_step_index (sorted_by_step (Session.messages session)) ∧
    (truthy_int step = false → h' = heap app).
Proof.
  intros Hget (w0 & base & w & Hb & Hgb & Hk).
  destruct (to_graph_snapshot_kept _ _ _ _ (heap app) step Hb Hk)
    as (s & h' & Hs & Hp & Hsteps & Hsame).
  rewrite <-Hgb in Hs.
  unfold graph_api.get_graph, SessionManager.get_graph_builder, SessionManager.get_session.
  rewrite Hget. cbn [fmap option_fmap option_map].
  change (Session.graph_builder (Session.set_last_accessed (datetime.Naive now) session))
    with (Session.graph_builder session).
  rewrite Hs. exists s, h'. by split_and!.
Qed.

(** Every state of the application satisfies the invariant: the session
    manager is in one of its states and every session has its model. *)
Lemma serving_inv app : serving app → app_inv app.
Proof.
  induction 1 as [|cfg parse file size framework uuid4 now1 now2 app _ [Hm Hall]
                  |graph_id step now app _ [Hm Hall]
                  |graph_id now app _ [Hm Hall]
                  |isoformat graph_id now app _ [Hm Hall]
                  |session_id app _ [Hm Hall]
                  |cfg now app _ [Hm Hall]].
  - split; [apply managed_new|constructor].
  - destruct (upload_log_file_state cfg parse file size framework uuid4 now1 now2 app)
      as [->|[(msgs & ->)|(msgs & base & w & Hb & ->)]].
    + by split.
    + split; [done|]. cbn [session_manager heap].
      eapply Forall_holds_model_preserved; [|exact Hall].
      apply (build_graph_preserves msgs (__init__, heap app)).
    + split; cbn [session_manager heap]; [apply managed_create, Hm|].
      unfold SessionManager.create_session. cbn [snd].
      pose proof (build_graph_preserves msgs (__init__, heap app)) as Hp.
      rewrite Hb in Hp. cbn [snd] in Hp.
      apply Forall_dict_set.
      * by eapply Forall_holds_model_preserved.
      * cbn [snd]. exists (__init__, heap app), base, w.
        split_and!; [done|done|apply preserves_refl].
  - destruct (dict_get graph_id (session_manager app)) as [session|] eqn:Hget.
    + assert (holds_model session (heap app)) as Hs
        by (by apply (proj1 (Forall_forall _ _) Hall (graph_id, session)), get_elem_of).
      destruct (get_graph_found graph_id step now app session Hget Hs)
        as (snapshot & h' & -> & _ & Hp & _).
      cbn [snd]. split; cbn [session_manager heap].
      * pose proof (managed_get now graph_id _ Hm) as Hm'.
        unfold SessionManager.get_session in Hm'. by rewrite Hget in Hm'.
      * apply Forall_dict_set; [by eapply Forall_holds_model_preserved|].
        cbn [snd]. by apply holds_model_read, (holds_model_preserved _ (heap app)).
    + unfold graph_api.get_graph, SessionManager.get_graph_builder,
        SessionManager.get_session. rewrite Hget. by split.
  - unfold graph_api.get_graph_metrics.
    pose proof (get_graph_builder_state now graph_id (session_manager app)) as Hst.
    destruct (SessionManager.get_graph_builder now graph_id (session_manager app))
      as [gb sm] eqn:Hgb. cbn [snd] in Hst. subst sm.
    assert (managed (SessionManager.get_session now graph_id (session_manager app)).2)
      as Hm' by (by apply managed_get).
    pose proof (get_session_holds now graph_id _ _ Hall) as Hall'.
    destruct gb as [gb|]; [|by split].
    pose proof (get_graph_metrics_world (gb, heap app)) as Hw.
    destruct (get_graph_metrics (gb, heap app)) as [r [gb' h]]. cbn [snd] in Hw.
    injection Hw as -> ->. by split.
  - unfold graph_api.get_graph_info.
    assert (managed (SessionManager.get_session now graph_id (session_manager app)).2)
      as Hm' by (by apply managed_get).
    pose proof (get_session_holds now graph_id _ _ Hall) as Hall'.
    destruct (SessionManager.get_session now graph_id (session_manager app)) as [s sm].
    by split.
  - unfold upload.delete_session.
    pose proof (managed_delete session_id _ Hm) as Hm'.
    assert (Forall (λ p, holds_model p.2 (heap app))
              (SessionManager.delete_session session_id (session_manager app)).2) as Hall'.
    { unfold SessionManager.delete_session. case_bool_decide; [|done].
      by apply Forall_filter_keep. }
    destruct (SessionManager.delete_session session_id (session_manager app)) as [b sm].
    by split.
  - split; cbn [session_manager heap]; [by apply managed_cleanup|].
    rewrite (cleanup_spec cfg now _ (managed_inv _ Hm)). cbn [snd].
    by apply Forall_filter_keep.
Qed.


(** X26. In every state of the application, with any number of sessions
    and whatever requests were made before, a request for the metrics of a
    session that the manager has is answered, never with the status 500:
    with the numbers of nodes and edges of the graph built from the messages
    of the session, its density, and as [centrality] the degree centrality,
    which has a value for every node of the graph; the centralities of the
    in- and out-degree are not in the response.  The request refreshes the
    session and leaves the other sessions and the store as they were.  For
    an id that the manager does not have the status is 404 and nothing
    changes. *)
Theorem metrics_are_served_for_every_session graph_id now app :
  serving app →
  (dict_get graph_id (session_manager app) = None →
   graph_api.get_graph_metrics graph_id now app =
     (HTTPException 404 (metrics_not_found graph_id), app)) ∧
  (∀ session,
     dict_get graph_id (session_manager app) = Some session →
     ∃ w0 base w resp app',
       build_graph (Session.messages session) w0 = (Ok base, w) ∧
       Session.graph_builder session = w.1 ∧
       graph_api.get_graph_metrics graph_id now app = (Return resp, app') ∧
       MetricsResponse.node_count resp = Z.of_nat (length (nx.nodes base)) ∧
       MetricsResponse.edge_count resp = Z.of_nat (length (nx.edges base)) ∧
       MetricsResponse.density resp = nx.density base ∧
       MetricsResponse.centrality resp = Some (nx.degree_centrality base) ∧
       (nx.degree_centrality base).*1 = nx.nodes base ∧
       heap app' = heap app ∧
       dict_get graph_id (session_manager app') =
         Some (Session.set_last_accessed (datetime.Naive now) session) ∧
       (∀ k, k ≠ graph_id →
             dict_get k (session_manager app') = dict_get k (session_manager app)) ∧
       serving app').
Proof.
  intros Hserving. pose proof (serving_inv _ Hserving) as [Hm Hall].
  pose proof (serving_get_graph_metrics graph_id now app Hserving) as Hnext.
  revert Hnext.
  unfold graph_api.get_graph_metrics, SessionManager.get_graph_builder,
    SessionManager.get_session.
  split.
  - intros ->. by destruct app.
  - intros session Hget. revert Hnext. rewrite Hget. cbn [fmap option_fmap option_map].
    change (Session.graph_builder (Session.set_last_accessed (datetime.Naive now) session))
      with (Session.graph_builder session).
    assert (holds_model session (heap app)) as (w0 & base & w & Hb & Hgb & Hkept)
      by (by apply (proj1 (Forall_forall _ _) Hall (graph_id, session)), get_elem_of).
    destruct (built_model _ _ _ _ Hb) as (_ & _ & Hbuilt & _).
    unfold get_graph_metrics. rewrite Hgb, Hbuilt.
    assert (nx.number_of_nodes base > 0)%Z as Hpos.
    { unfold built in Hbuilt. destruct (graph w.1) as [[|p g]|]; simplify_eq.
      unfold nx.number_of_nodes. simpl. lia. }
    rewrite (bool_decide_eq_true_2 _ Hpos). intros Hnext.
    eexists w0, base, w, _, _. split; [exact Hb|]. split; [done|].
    split; [reflexivity|].
    cbn [MetricsResponse.node_count MetricsResponse.edge_count MetricsResponse.density
         MetricsResponse.centrality node_count edge_count density degree_centrality
         session_manager heap].
    split_and!; [| |done|done|apply centrality_of_keys|done| | |exact Hnext].
    + unfold nx.number_of_nodes, nx.nodes. by rewrite length_fmap.
    + done.
    + by rewrite dict_get_set, bool_decide_eq_true_2.
    + intros k Hk. by rewrite dict_get_set, bool_decide_eq_false_2.
Qed.

Lemma app_AB_read_serving : serving app_AB_read.
Proof.
  exact (serving_get_graph "9f1c2d3e" (Some 3%Z) 3000 _
           (serving_upload settings parse_B "log" (Some 3%Z) "autogen"
              "9f1c2d3e-0000-4000-8000-000000000002" 2000 2001 _
              (serving_upload settings parse_A "log" (Some 3%Z) "autogen"
                 "5b6a7c8d-0000-4000-8000-000000000001" 1000 1001 _ serving_start))).
Qed.


Lemma metrics_are_served_for_every_session_witness :
  serving app_AB_read ∧
  ∃ session resp app',
    dict_get "5b6a7c8d" (session_manager app_AB_read) = Some session ∧
    graph_api.get_graph_metrics "5b6a7c8d" 5000 app_AB_read = (Return resp, app') ∧
    MetricsResponse.node_count resp = 3%Z.
Proof.
  pose proof app_AB_read_serving as Hs.
  assert (∃ session, dict_get "5b6a7c8d" (session_manager app_AB_read) = Some session)
    as (session & Hget) by (eexists; vm_compute; reflexivity).
  destruct (metrics_are_served_for_every_session "5b6a7c8d" 5000 app_AB_read Hs)
    as [_ Hserve].
  destruct (Hserve session Hget)
    as (w0 & base & w & resp & app' & _ & _ & Hm & _).
  split; [exact Hs|]. exists session, resp, app'. split; [exact Hget|]. split; [exact Hm|].
  assert (resp = default resp
            (match (graph_api.get_graph_metrics "5b6a7c8d" 5000 app_AB_read).1 with
             | Return r => Some r
             | HTTPException _ _ => None
             end)) as -> by (by rewrite Hm).
  vm_compute. reflexivity.
Defined.
